(** * AutoAgent: the signature-to-schema compiler of [autoagent/util.py]

    A shallow embedding of [get_type_info] and [function_to_json], the two
    functions that turn a Python callable's signature into the JSON-Schema-like
    tool descriptor handed to the language model, together with the
    properties the specification states about them.

    The code is modelled twice.

    - As pure functions over values ([get_type_info], [function_to_json]).
      Python dictionaries keep insertion order and the specification speaks
      of declaration order throughout, so a dictionary is an association
      list with the update discipline of Python ([PyDict]).  Exceptions are
      values of an error monad ([result]).

    - As computations over a store of mutable objects ([Heap]), where every
      dictionary and list display allocates an object and [d[k] = v],
      [del d[k]] and [l.append(v)] change an object in place.  This is the
      model in which the deletion of [additionalProperties] by
      [function_to_json] is not a no-op by construction.  [HeapFacts] proves
      that it computes the values of the pure functions.

    The other functions of the module that compute something are modelled
    after the compiler: the answer parser of the console ([Console]), the
    accumulation of a streamed response and the clients of the command
    sandbox ([Runtime]).

    What the code learns about an annotation through reflection is data of
    the model:

    - [typing.get_origin] and [typing.get_args] ([Generic]).  A bare
      [typing.List] or [typing.Dict] has an origin and the empty argument
      tuple; parameterised aliases have at least one argument.
    - [issubclass(annotation, BaseModel)] and what [model_json_schema()]
      returns ([PydanticModel]).  The export is a JSON Schema object:
      [properties] and [$defs] map names to JSON objects.  Each call builds
      it anew.
    - [dataclasses.is_dataclass] and [dataclasses.fields] ([Dataclass]).
    - [hasattr(annotation, "__annotations__")], [__annotations__] and
      [__required_keys__] ([TypedDict]); classes created by [TypedDict]
      pass this test, and so does any other object that exposes
      [__annotations__] and passed none of the earlier tests.  Pydantic
      models and dataclasses expose the attribute too; built-in classes and
      [typing] aliases do not.
    - Anything else is [Other]. *)

From Stdlib Require Import String Ascii List ZArith Bool Lia.
Import ListNotations.
Local Open Scope string_scope.
Local Open Scope list_scope.

(** ** Python values *)

(** The JSON-serialisable fragment of Python values: what the compiler
    builds and what a pydantic model exports.  Floats are never inspected
    by the code and are left out. *)
Unset Elimination Schemes.
Inductive value : Type :=
| VNone
| VBool (b : bool)
| VInt (n : Z)
| VStr (s : string)
| VList (items : list value)
| VDict (entries : list (string * value)).
Set Elimination Schemes.

(** ** Insertion-ordered dictionaries with string keys *)

Module PyDict.

Definition t (V : Type) : Type := list (string * V).

(** [d.get(k)] / [d[k]] *)
Fixpoint get {V} (k : string) (d : t V) : option V :=
  match d with
  | [] => None
  | (k', v) :: d' => if String.eqb k k' then Some v else get k d'
  end.

(** [k in d] *)
Definition mem {V} (k : string) (d : t V) : bool :=
  match get k d with Some _ => true | None => false end.

(** [d[k] = v]: an existing key keeps its position, a new key goes last. *)
Fixpoint set {V} (k : string) (v : V) (d : t V) : t V :=
  match d with
  | [] => [(k, v)]
  | (k', v') :: d' =>
      if String.eqb k k' then (k', v) :: d' else (k', v') :: set k v d'
  end.

(** [del d[k]] (for a key that is present) *)
Fixpoint del {V} (k : string) (d : t V) : t V :=
  match d with
  | [] => []
  | (k', v') :: d' => if String.eqb k k' then d' else (k', v') :: del k d'
  end.

(** [d.keys()] *)
Definition keys {V} (d : t V) : list string := map fst d.

(** The invariant of every Python dictionary: keys are pairwise distinct. *)
Definition wf {V} (d : t V) : Prop := NoDup (keys d).

End PyDict.

(** ** Exceptions *)

Inductive exn : Type :=
| ValueError (msg : string)
| IndexError (msg : string)
| AttributeError (msg : string).

Inductive result (A : Type) : Type :=
| Ok (a : A)
| Raise (e : exn).
Arguments Ok {A} a.
Arguments Raise {A} e.

Definition bind {A B} (r : result A) (k : A -> result B) : result B :=
  match r with
  | Ok a => k a
  | Raise e => Raise e
  end.

Notation "x <- e ;; k" := (bind e (fun x => k))
  (at level 61, e at next level, right associativity).

(** ** Type annotations, as the compiler observes them *)

(** The built-in classes the code names: the keys of [type_map], [str] in
    the dictionary-key test and [type(None)] in the union filter. *)
Inductive builtin : Type := py_str | py_int | py_float | py_bool | py_NoneType.

Definition builtin_eqb (a b : builtin) : bool :=
  match a, b with
  | py_str, py_str | py_int, py_int | py_float, py_float
  | py_bool, py_bool | py_NoneType, py_NoneType => true
  | _, _ => false
  end.

(** [typing.get_origin(annotation)] when it is not [None].  An annotation
    with an origin other than [list], [dict] and [Union] leaves the first
    block of [get_type_info] without a result and passes none of the later
    tests. *)
Inductive origin : Type :=
| o_list    (* [List[...]], [list[...]], and bare [typing.List] *)
| o_dict    (* [Dict[...]], [dict[...]], and bare [typing.Dict] *)
| o_Union   (* [Union[...]], [Optional[...]] *)
| o_other.  (* [Tuple[...]], [Callable[...]], [Literal[...]], ... *)

(** A dataclass field carries at most one of a default value and a default
    factory ([dataclasses] rejects a field that names both). *)
Inductive field_default : Type :=
| NoDefault
| Default (v : value)
| DefaultFactory.

Record Field (T : Type) : Type := mkField {
  field_name : string;
  field_type : T;
  field_dflt : field_default
}.
Arguments mkField {T}.
Arguments field_name {T}.
Arguments field_type {T}.
Arguments field_dflt {T}.

(** What [model_json_schema()] of a pydantic model returns, restricted to
    the three keys the compiler reads.  [None] is an absent key.  Every
    property schema and every definition body is a JSON object. *)
Record json_schema : Type := mkSchema {
  schema_properties : option (PyDict.t (PyDict.t value));
  schema_required : option (list string);
  schema_defs : option (PyDict.t (PyDict.t value))
}.

(** [schema.get("properties", {})] *)
Definition get_properties (schema : json_schema) : PyDict.t (PyDict.t value) :=
  match schema_properties schema with Some p => p | None => [] end.

(** [schema.get("required", [])] *)
Definition get_required (schema : json_schema) : list string :=
  match schema_required schema with Some r => r | None => [] end.

(** [schema.get("$defs", {})] *)
Definition get_defs (schema : json_schema) : PyDict.t (PyDict.t value) :=
  match schema_defs schema with Some d => d | None => [] end.

(** An annotation is classified by the first test of [get_type_info] it
    passes: a built-in class (the only possible keys of [base_type_map]), an
    annotation with an origin, a subclass of [BaseModel], a dataclass, an
    object with [__annotations__], or none of these.  [args] is
    [typing.get_args(annotation)]: the empty tuple for a bare [typing.List]
    or [typing.Dict]. *)
Unset Elimination Schemes.
Inductive Annotation : Type :=
| Builtin (c : builtin)
| Generic (o : origin) (args : list Annotation)
| PydanticModel (schema : json_schema)
| Dataclass (fields : list (Field Annotation))
| TypedDict (annotations : list (string * Annotation))
            (required_keys : option (list string))
| Other.
Set Elimination Schemes.

(** Structural induction over annotations, reaching through the argument
    tuple, the dataclass fields and the [__annotations__] items. *)
Section annotation_induction.
Variable P : Annotation -> Prop.
Hypothesis HBuiltin : forall c, P (Builtin c).
Hypothesis HGeneric : forall o args, Forall P args -> P (Generic o args).
Hypothesis HPydantic : forall schema, P (PydanticModel schema).
Hypothesis HDataclass :
  forall fields, Forall (fun f => P (field_type f)) fields ->
                 P (Dataclass fields).
Hypothesis HTypedDict :
  forall anns req, Forall (fun kt => P (snd kt)) anns ->
                   P (TypedDict anns req).
Hypothesis HOther : P Other.

Fixpoint Annotation_ind (a : Annotation) : P a :=
  match a with
  | Builtin c => HBuiltin c
  | Generic o args =>
      HGeneric o args
        ((fix go (l : list Annotation) : Forall P l :=
            match l with
            | [] => Forall_nil _
            | x :: r => Forall_cons x (Annotation_ind x) (go r)
            end) args)
  | PydanticModel schema => HPydantic schema
  | Dataclass fields =>
      HDataclass fields
        ((fix go (l : list (Field Annotation))
            : Forall (fun f => P (field_type f)) l :=
            match l with
            | [] => Forall_nil _
            | f :: r =>
                Forall_cons f
                  (match f as f0 return P (field_type f0) with
                   | mkField _ ty _ => Annotation_ind ty
                   end) (go r)
            end) fields)
  | TypedDict anns req =>
      HTypedDict anns req
        ((fix go (l : list (string * Annotation))
            : Forall (fun kt => P (snd kt)) l :=
            match l with
            | [] => Forall_nil _
            | kt :: r =>
                Forall_cons kt
                  (match kt as kt0 return P (snd kt0) with
                   | (_, ty) => Annotation_ind ty
                   end) (go r)
            end) anns)
  | Other => HOther
  end.
End annotation_induction.

(** ** The type resolver: [get_type_info] *)

(** [annotation in base_type_map] / [base_type_map[annotation]]: only a
    built-in class can be a key of the map. *)
Fixpoint base_lookup (c : builtin) (base_type_map : list (builtin * string))
  : option string :=
  match base_type_map with
  | [] => None
  | (c', t) :: m => if builtin_eqb c c' then Some t else base_lookup c m
  end.

Definition base_type_of (a : Annotation)
    (base_type_map : list (builtin * string)) : option string :=
  match a with
  | Builtin c => base_lookup c base_type_map
  | _ => None
  end.

(** [key_type != str] is the negation of this test. *)
Definition is_str (a : Annotation) : bool :=
  match a with Builtin py_str => true | _ => false end.

(** [arg != type(None)] is the negation of this test. *)
Definition is_NoneType (a : Annotation) : bool :=
  match a with Builtin py_NoneType => true | _ => false end.

(** [hasattr(a, "__annotations__")]: pydantic models, dataclasses and
    [TypedDict]s are classes that carry annotations; built-in classes and
    [typing] aliases do not expose the attribute. *)
Definition has_annotations (a : Annotation) : bool :=
  match a with
  | PydanticModel _ | Dataclass _ | TypedDict _ _ => true
  | _ => false
  end.

(** [isinstance(a, type) and issubclass(a, BaseModel)] *)
Definition is_BaseModel (a : Annotation) : bool :=
  match a with PydanticModel _ => true | _ => false end.

(** [s.split(sep)[-1]]: what follows the last separator. *)
Fixpoint split_last_from (sep : ascii) (s acc : string) : string :=
  match s with
  | EmptyString => acc
  | String c r =>
      if Ascii.eqb c sep then split_last_from sep r ""
      else split_last_from sep r (acc ++ String c "")
  end.

Definition split_last (sep : ascii) (s : string) : string :=
  split_last_from sep s "".

(** [field.default == field.default_factory == MISSING]: both comparisons of
    the chain hold exactly when the field has neither. *)
Definition lacks_default {T} (field : Field T) : bool :=
  match field_dflt field with
  | NoDefault => true
  | Default _ | DefaultFactory => false
  end.

(** [{"type": t}] *)
Definition type_node (t : string) : value := VDict [("type", VStr t)].

(** The loop of the pydantic branch, run when [$defs] is not empty:
<<
    for prop_name, prop_schema in properties.items():
        if "$ref" in prop_schema:
            ref_name = prop_schema["$ref"].split("/")[-1]
            if ref_name in definitions:
                properties[prop_name] = definitions[ref_name]
>>
    [items] is the sequence being iterated, [properties] the dictionary
    being updated. *)
Fixpoint expand_refs (definitions : PyDict.t (PyDict.t value))
    (items : list (string * PyDict.t value))
    (properties : PyDict.t (PyDict.t value))
  : result (PyDict.t (PyDict.t value)) :=
  match items with
  | [] => Ok properties
  | (prop_name, prop_schema) :: rest =>
      match PyDict.get "$ref" prop_schema with
      | None => expand_refs definitions rest properties
      | Some (VStr ref) =>
          let ref_name := split_last "/" ref in
          match PyDict.get ref_name definitions with
          | Some body =>
              expand_refs definitions rest
                (PyDict.set prop_name body properties)
          | None => expand_refs definitions rest properties
          end
      | Some _ =>
          Raise (AttributeError "object has no attribute 'split'")
      end
  end.

(** A dictionary of JSON objects, as a dictionary of values. *)
Definition objects (d : PyDict.t (PyDict.t value)) : list (string * value) :=
  map (fun kv => (fst kv, VDict (snd kv))) d.

(** A list of strings, as a value. *)
Definition strings (l : list string) : value := VList (map VStr l).

(** The dictionary display that ends each of the three record branches. *)
Definition object_node (properties : list (string * value)) (required : value)
  : value :=
  VDict [("type", VStr "object");
         ("properties", VDict properties);
         ("required", required);
         ("additionalProperties", VBool false)].

Fixpoint get_type_info (annotation : Annotation)
    (base_type_map : list (builtin * string)) {struct annotation}
  : result value :=
  match base_type_of annotation base_type_map with
  | Some t => Ok (type_node t)
  | None =>
    match annotation with
    | Generic o_list args =>
        match args with
        | item_type :: _ =>
            items <- get_type_info item_type base_type_map ;;
            Ok (VDict [("type", VStr "array"); ("items", items)])
        | [] => Raise (IndexError "tuple index out of range")
        end
    | Generic o_dict args =>
        match args with
        | [key_type; value_type] =>
            if negb (is_str key_type) then
              Raise (ValueError "Dictionary keys must be strings")
            else if has_annotations value_type || is_BaseModel value_type then
              get_type_info value_type base_type_map
            else
              additional <- get_type_info value_type base_type_map ;;
              Ok (VDict [("type", VStr "object");
                         ("additionalProperties", additional)])
        | [] =>
            Raise (ValueError "not enough values to unpack (expected 2, got 0)")
        | [_] =>
            Raise (ValueError "not enough values to unpack (expected 2, got 1)")
        | _ =>
            Raise (ValueError "too many values to unpack (expected 2)")
        end
    | Generic o_Union args =>
        types <-
          (fix comprehension (l : list Annotation) : result (list value) :=
             match l with
             | [] => Ok []
             | arg :: l' =>
                 if is_NoneType arg then comprehension l'
                 else
                   t <- get_type_info arg base_type_map ;;
                   ts <- comprehension l' ;;
                   Ok (t :: ts)
             end) args ;;
        match types with
        | [t] => Ok t
        | _ => Ok (VDict [("oneOf", VList types)])
        end
    | PydanticModel schema =>
        let properties := get_properties schema in
        let required := get_required schema in
        let definitions := get_defs schema in
        properties <-
          match definitions with
          | [] => Ok properties
          | _ => expand_refs definitions properties properties
          end ;;
        Ok (object_node (objects properties) (strings required))
    | Dataclass fields =>
        (fix loop (fs : list (Field Annotation))
                  (properties : PyDict.t value) (required : list string)
           : result value :=
           match fs with
           | [] => Ok (object_node properties (strings required))
           | field :: fs' =>
               t <- get_type_info (field_type field) base_type_map ;;
               let properties := PyDict.set (field_name field) t properties in
               if lacks_default field then
                 loop fs' properties (required ++ [field_name field])
               else loop fs' properties required
           end) fields [] []
    | TypedDict annotations required_keys =>
        let required :=
          match required_keys with
          | Some keys => keys
          | None => PyDict.keys annotations
          end in
        properties <-
          (fix loop (items : list (string * Annotation))
                    (properties : PyDict.t value)
             : result (PyDict.t value) :=
             match items with
             | [] => Ok properties
             | (key, field_type) :: items' =>
                 t <- get_type_info field_type base_type_map ;;
                 loop items' (PyDict.set key t properties)
             end) annotations [] ;;
        Ok (object_node properties (strings required))
    | _ => Ok (type_node "string")
    end
  end.

(** ** The signature compiler: [function_to_json] *)

(** One entry of [inspect.signature(func).parameters].  [param_default] is
    [None] when [param.default] is [inspect._empty]. *)
Record Param : Type := mkParam {
  param_name : string;
  param_annotation : Annotation;
  param_default : option value
}.

(** What [function_to_json] reads of a callable.  [func_signature] is the
    outcome of [inspect.signature(func)]: the parameters in declaration
    order, or the text of the [ValueError] it raised. *)
Record Callable : Type := mkCallable {
  func_name : string;
  func_doc : option string;
  func_signature : string + list Param
}.

Definition type_map : list (builtin * string) :=
  [(py_str, "string"); (py_int, "integer"); (py_float, "number");
   (py_bool, "boolean"); (py_NoneType, "null")].

(** [if isinstance(param_info, dict) and "additionalProperties" in param_info:
        del param_info["additionalProperties"]] *)
Definition strip_additional (param_info : value) : value :=
  match param_info with
  | VDict d =>
      if PyDict.mem "additionalProperties" d
      then VDict (PyDict.del "additionalProperties" d)
      else param_info
  | _ => param_info
  end.

(** The loop over [signature.parameters.values()].  No path of
    [get_type_info] raises [KeyError] (every subscript follows a membership
    test), so the [except KeyError] clause around the body never fires and
    other exceptions pass through it. *)
Fixpoint compile_parameters (params : list Param)
    (parameters : PyDict.t value) : result (PyDict.t value) :=
  match params with
  | [] => Ok parameters
  | param :: rest =>
      if String.eqb (param_name param) "context_variables" then
        compile_parameters rest parameters
      else
        param_info <- get_type_info (param_annotation param) type_map ;;
        let param_info := strip_additional param_info in
        t <- get_type_info (param_annotation param) type_map ;;
        compile_parameters rest (PyDict.set (param_name param) t parameters)
  end.

(** [param.default == inspect._empty] *)
Definition default_is_empty (param : Param) : bool :=
  match param_default param with None => true | Some _ => false end.

(** [[param.name for param in ... if param.default == inspect._empty]] *)
Definition required_names (params : list Param) : list string :=
  map param_name (filter default_is_empty params).

(** [func.__doc__ or ""] *)
Definition doc_or_empty (doc : option string) : string :=
  match doc with
  | Some d => d
  | None => ""
  end.

Definition function_to_json (func : Callable) : result value :=
  match func_signature func with
  | inl e =>
      Raise (ValueError ("Failed to get signature for function "
                           ++ func_name func ++ ": " ++ e))
  | inr params =>
      parameters <- compile_parameters params [] ;;
      let required := required_names params in
      Ok (VDict
            [("type", VStr "function");
             ("function",
               VDict
                 [("name", VStr (func_name func));
                  ("description", VStr (doc_or_empty (func_doc func)));
                  ("parameters",
                    VDict
                      [("type", VStr "object");
                       ("properties", VDict parameters);
                       ("required", strings required)])])])
  end.

(** ** The annotation kinds of the specification *)

Definition Scalar (c : builtin) : Annotation := Builtin c.
Definition Sequence (element : Annotation) : Annotation :=
  Generic o_list [element].
Definition Mapping (key value : Annotation) : Annotation :=
  Generic o_dict [key; value].
Definition Union (members : list Annotation) : Annotation :=
  Generic o_Union members.

(** A record kind: a validated record (pydantic model), a plain record
    (dataclass) or a structural mapping ([TypedDict]). *)
Definition is_record_kind (a : Annotation) : bool :=
  match a with
  | PydanticModel _ | Dataclass _ | TypedDict _ _ => true
  | _ => false
  end.

(** ** Derived forms used to state the properties *)

(** Apply a fallible function to each element in order; the first exception
    ends the traversal. *)
Fixpoint traverse {A B} (f : A -> result B) (l : list A) : result (list B) :=
  match l with
  | [] => Ok []
  | x :: r => y <- f x ;; ys <- traverse f r ;; Ok (y :: ys)
  end.

(** [dict(items)]: the dictionary built by assigning the items in order. *)
Definition dict_of_items {V} (items : list (string * V)) : PyDict.t V :=
  fold_left (fun d kv => PyDict.set (fst kv) (snd kv) d) items [].

(** [arg != type(None)] *)
Definition not_NoneType (a : Annotation) : bool := negb (is_NoneType a).

(** [{"oneOf": types}] *)
Definition oneOf (types : list value) : value :=
  VDict [("oneOf", VList types)].

(** The node a union yields from its resolved non-null members. *)
Definition union_node (types : list value) : value :=
  match types with
  | [t] => t
  | _ => oneOf types
  end.

(** The specification's reading of reference flattening: a property schema
    that holds a [$ref] whose last path segment names a definition stands
    for that definition's body; the body is substituted as it is. *)
Definition inline_ref (definitions : PyDict.t (PyDict.t value))
    (prop_schema : PyDict.t value) : PyDict.t value :=
  match PyDict.get "$ref" prop_schema with
  | Some (VStr ref) =>
      match PyDict.get (split_last "/" ref) definitions with
      | Some body => body
      | None => prop_schema
      end
  | _ => prop_schema
  end.

(** [$ref], when present, holds a string (JSON Schema's URI reference). *)
Definition ref_is_string (prop_schema : PyDict.t value) : bool :=
  match PyDict.get "$ref" prop_schema with
  | Some (VStr _) | None => true
  | Some _ => false
  end.

(** The shapes of the nodes the resolver builds.  [SRecord] is the node of a
    dataclass or a [TypedDict], whose properties are resolved in turn;
    [SExport] is the node of a pydantic model, whose property schemas are
    JSON objects taken from the model's export. *)
Unset Elimination Schemes.
Inductive schema : Type :=
| SType (t : string)
| SArray (items : schema)
| SMap (additional : schema)
| SOneOf (alternatives : list schema)
| SRecord (properties : list (string * schema)) (required : list string)
| SExport (properties : PyDict.t (PyDict.t value)) (required : list string).
Set Elimination Schemes.

(** The value a shape stands for.  Both record shapes carry
    [additionalProperties: false]. *)
Fixpoint render (n : schema) : value :=
  match n with
  | SType t => VDict [("type", VStr t)]
  | SArray items => VDict [("type", VStr "array"); ("items", render items)]
  | SMap additional =>
      VDict [("type", VStr "object");
             ("additionalProperties", render additional)]
  | SOneOf alternatives => VDict [("oneOf", VList (map render alternatives))]
  | SRecord properties required =>
      VDict [("type", VStr "object");
             ("properties",
               VDict (map (fun kn => (fst kn, render (snd kn))) properties));
             ("required", VList (map VStr required));
             ("additionalProperties", VBool false)]
  | SExport properties required =>
      VDict [("type", VStr "object");
             ("properties",
               VDict (map (fun kd => (fst kd, VDict (snd kd))) properties));
             ("required", VList (map VStr required));
             ("additionalProperties", VBool false)]
  end.

(** Structural induction over values, reaching through list items and
    dictionary entries. *)
Section value_induction.
Variable P : value -> Prop.
Hypothesis PNone : P VNone.
Hypothesis PBool : forall b, P (VBool b).
Hypothesis PInt : forall n, P (VInt n).
Hypothesis PStr : forall x, P (VStr x).
Hypothesis PList : forall items, Forall P items -> P (VList items).
Hypothesis PDict :
  forall entries, Forall (fun kv => P (snd kv)) entries ->
                  P (VDict entries).

Fixpoint value_nested_ind (v : value) : P v :=
  match v with
  | VNone => PNone
  | VBool b => PBool b
  | VInt n => PInt n
  | VStr x => PStr x
  | VList items =>
      PList items
        ((fix each (l : list value) : Forall P l :=
            match l with
            | [] => Forall_nil _
            | x :: r => Forall_cons x (value_nested_ind x) (each r)
            end) items)
  | VDict entries =>
      PDict entries
        ((fix each (l : list (string * value))
            : Forall (fun kv => P (snd kv)) l :=
            match l with
            | [] => Forall_nil _
            | kv :: r =>
                Forall_cons kv
                  (match kv as kv0 return P (snd kv0) with
                   | (_, x) => value_nested_ind x
                   end) (each r)
            end) entries)
  end.
End value_induction.

(** [param.name == "context_variables"] is the negation of this test. *)
Definition advertised (param : Param) : bool :=
  negb (String.eqb (param_name param) "context_variables").

(** The computation ends with a value, not with an exception. *)
Definition returns {A} (r : result A) : Prop := exists a, r = Ok a.

(** The annotations on which [get_type_info] returns: along the path the
    resolver follows, every [list] generic has an element argument, every
    [dict] generic has a [str] key and a value argument, and every [$ref] of
    an export whose references are expanded is a string. *)
Fixpoint resolvable (base_type_map : list (builtin * string))
    (a : Annotation) {struct a} : bool :=
  match base_type_of a base_type_map with
  | Some _ => true
  | None =>
    match a with
    | Generic o_list args =>
        match args with
        | item_type :: _ => resolvable base_type_map item_type
        | [] => false
        end
    | Generic o_dict args =>
        match args with
        | [key_type; value_type] =>
            is_str key_type && resolvable base_type_map value_type
        | _ => false
        end
    | Generic o_Union args =>
        forallb (fun arg => is_NoneType arg || resolvable base_type_map arg)
                args
    | PydanticModel schema =>
        match get_defs schema with
        | [] => true
        | _ => forallb (fun kv => ref_is_string (snd kv))
                       (get_properties schema)
        end
    | Dataclass fields =>
        forallb (fun f => resolvable base_type_map (field_type f)) fields
    | TypedDict annotations _ =>
        forallb (fun kt => resolvable base_type_map (snd kt)) annotations
    | _ => true
    end
  end.

(** A record-shaped node: an object node that lists [properties]. *)
Definition record_shaped (node : PyDict.t value) : bool :=
  match PyDict.get "type" node with
  | Some (VStr t) => String.eqb t "object"
  | _ => false
  end
  && PyDict.mem "properties" node.

(** The node holds the member [additionalProperties: false]. *)
Definition forbids_additional (node : PyDict.t value) : bool :=
  match PyDict.get "additionalProperties" node with
  | Some (VBool false) => true
  | _ => false
  end.

(** No record-shaped node of the value, at any depth, lacks
    [additionalProperties: false]. *)
Fixpoint records_closed (v : value) : bool :=
  match v with
  | VList items => forallb records_closed items
  | VDict entries =>
      (if record_shaped entries then forbids_additional entries else true)
      && forallb (fun kv => records_closed (snd kv)) entries
  | _ => true
  end.

(** The exports of the pydantic models of an annotation hold no
    record-shaped node that lacks the member: neither in a property schema
    nor in a definition. *)
Fixpoint exports_closed (a : Annotation) : bool :=
  match a with
  | Generic _ args => forallb exports_closed args
  | PydanticModel schema =>
      forallb (fun kd => records_closed (VDict (snd kd)))
              (get_properties schema)
      && forallb (fun kd => records_closed (VDict (snd kd)))
                 (get_defs schema)
  | Dataclass fields =>
      forallb (fun f => exports_closed (field_type f)) fields
  | TypedDict annotations _ =>
      forallb (fun kt => exports_closed (snd kt)) annotations
  | _ => true
  end.

(** ** Inputs used in examples *)

(** [def search(query: str, limit: int = 10)], docstring "Searches." *)
Definition search : Callable :=
  mkCallable "search" (Some "Searches.")
    (inr [mkParam "query" (Builtin py_str) None;
          mkParam "limit" (Builtin py_int) (Some (VInt 10))]).

(** The dataclass of the specification's example: [a: int] without a
    default and [b: int = 0]. *)
Definition record_a_b : list (Field Annotation) :=
  [mkField "a" (Scalar py_int) NoDefault;
   mkField "b" (Scalar py_int) (Default (VInt 0))].

(** [{"$ref": "#/$defs/<name>"}] *)
Definition ref_to (name : string) : PyDict.t value :=
  [("$ref", VStr ("#/$defs/" ++ name))].

(** The export of a model with a field referring to a shared definition, a
    field whose reference sits below the top level of its schema, and a
    field whose definition is itself a reference. *)
Definition export_with_refs : json_schema :=
  mkSchema
    (Some [("owner", ref_to "User");
           ("members", [("type", VStr "array");
                        ("items", VDict (ref_to "User"))]);
           ("alias", ref_to "Alias");
           ("count", [("type", VStr "integer")])])
    (Some ["owner"])
    (Some [("User", [("type", VStr "object"); ("title", VStr "User")]);
           ("Alias", ref_to "User")]).

(** A callable without a docstring. *)
Definition undocumented : Callable :=
  mkCallable "ping" None (inr [mkParam "host" (Scalar py_str) None]).

(** [def load(config: Dict)]: the annotation is the bare [typing.Dict]. *)
Definition load : Callable :=
  mkCallable "load" None (inr [mkParam "config" (Generic o_dict []) None]).

(** [def total(items: List)]: the annotation is the bare [typing.List]. *)
Definition total : Callable :=
  mkCallable "total" None (inr [mkParam "items" (Generic o_list []) None]).

(** [def lookup(context_variables, query: str)] *)
Definition lookup : Callable :=
  mkCallable "lookup" None
    (inr [mkParam "context_variables" Other None;
          mkParam "query" (Scalar py_str) None]).

(** A dataclass with one field, [x: int]. *)
Definition Point : Annotation :=
  Dataclass [mkField "x" (Builtin py_int) NoDefault].

(** [def configure(limits: Dict[str, int], origin: Point)] *)
Definition configure : Callable :=
  mkCallable "configure" None
    (inr [mkParam "limits"
            (Generic o_dict [Builtin py_str; Builtin py_int]) None;
          mkParam "origin" Point None]).

(** What pydantic exports for [class Team(BaseModel): owner: User], where
    [class User(BaseModel): name: str]. *)
Definition team_export : json_schema :=
  mkSchema
    (Some [("owner", ref_to "User")])
    (Some ["owner"])
    (Some [("User",
             [("properties",
                VDict [("name", VDict [("title", VStr "Name");
                                       ("type", VStr "string")])]);
              ("required", VList [VStr "name"]);
              ("title", VStr "User");
              ("type", VStr "object")])]).

(** A dataclass with a field of a dataclass type: [origin: Point]. *)
Definition Segment : Annotation :=
  Dataclass [mkField "origin" Point NoDefault].

(** * The same code over a store of mutable objects *)

Module Heap.

Definition loc : Type := nat.

(** Strings, numbers, booleans and [None] are immutable and held by
    value; dictionaries and lists are objects, held by reference. *)
Inductive hvalue : Type :=
| HNone
| HBool (b : bool)
| HInt (n : Z)
| HStr (s : string)
| HRef (l : loc).

Inductive object : Type :=
| ODict (entries : PyDict.t hvalue)
| OList (items : list hvalue).

(** The objects allocated so far; a location is an index. *)
Definition store : Type := list object.

Definition M (A : Type) : Type := store -> result (A * store).

Definition ret {A} (a : A) : M A := fun s => Ok (a, s).

Definition raise {A} (e : exn) : M A := fun _ => Raise e.

Definition bindM {A B} (c : M A) (k : A -> M B) : M B :=
  fun s =>
    match c s with
    | Ok (a, s') => k a s'
    | Raise e => Raise e
    end.

Declare Scope heap_scope.
Delimit Scope heap_scope with heap.
Notation "x <- c ;; k" := (bindM c (fun x => k))
  (at level 61, c at next level, right associativity) : heap_scope.
Notation "c ;; k" := (bindM c (fun _ => k))
  (at level 61, right associativity) : heap_scope.
Local Open Scope heap_scope.

(** A dictionary or list display: a new object. *)
Definition alloc (o : object) : M loc :=
  fun s => Ok (length s, s ++ [o]).

Fixpoint update (l : loc) (o : object) (s : store) : store :=
  match s, l with
  | [], _ => []
  | _ :: s', O => o :: s'
  | o' :: s', S l' => o' :: update l' o s'
  end.

(** The entries of the dictionary at [l]. *)
Definition entries_of (l : loc) : M (PyDict.t hvalue) :=
  fun s =>
    match nth_error s l with
    | Some (ODict entries) => Ok (entries, s)
    | _ => Raise (AttributeError "not a dict")
    end.

Definition items_of (l : loc) : M (list hvalue) :=
  fun s =>
    match nth_error s l with
    | Some (OList items) => Ok (items, s)
    | _ => Raise (AttributeError "not a list")
    end.

Definition store_at (l : loc) (o : object) : M unit :=
  fun s => Ok (tt, update l o s).

(** [d[k] = v] *)
Definition setitem (d : loc) (k : string) (v : hvalue) : M unit :=
  entries <- entries_of d ;;
  store_at d (ODict (PyDict.set k v entries)).

(** [del d[k]] *)
Definition delitem (d : loc) (k : string) : M unit :=
  entries <- entries_of d ;;
  store_at d (ODict (PyDict.del k entries)).

(** [k in d] *)
Definition contains (d : loc) (k : string) : M bool :=
  entries <- entries_of d ;;
  ret (PyDict.mem k entries).

(** [isinstance(x, dict)] for the object at [l] *)
Definition isinstance_dict (l : loc) : M bool :=
  fun s =>
    match nth_error s l with
    | Some (ODict _) => Ok (true, s)
    | _ => Ok (false, s)
    end.

(** [l.append(v)] *)
Definition append (l : loc) (v : hvalue) : M unit :=
  items <- items_of l ;;
  store_at l (OList (items ++ [v])).

(** [for x in l: body(x)] *)
Section for_each.
Context {A : Type} (body : A -> M unit).

Fixpoint for_each (l : list A) : M unit :=
  match l with
  | [] => ret tt
  | x :: l' => body x ;; for_each l'
  end.
End for_each.

(** [[f(x) for x in l if keep(x)]] as a sequence of results *)
Section collect.
Context {A B : Type} (keep : A -> bool) (f : A -> M B).

Fixpoint collect (l : list A) : M (list B) :=
  match l with
  | [] => ret []
  | x :: l' =>
      if keep x then y <- f x ;; ys <- collect l' ;; ret (y :: ys)
      else collect l'
  end.
End collect.

(** A value built from scratch: every dictionary and list in it is a new
    object. *)
Fixpoint new_value (v : value) : M hvalue :=
  match v with
  | VNone => ret HNone
  | VBool b => ret (HBool b)
  | VInt n => ret (HInt n)
  | VStr s => ret (HStr s)
  | VList items =>
      hs <- (fix each (vs : list value) : M (list hvalue) :=
               match vs with
               | [] => ret []
               | v :: vs' =>
                   h <- new_value v ;; hs <- each vs' ;; ret (h :: hs)
               end) items ;;
      l <- alloc (OList hs) ;;
      ret (HRef l)
  | VDict entries =>
      hes <- (fix each (ves : list (string * value))
                : M (PyDict.t hvalue) :=
                match ves with
                | [] => ret []
                | (k, v) :: ves' =>
                    h <- new_value v ;; hes <- each ves' ;;
                    ret ((k, h) :: hes)
                end) entries ;;
      l <- alloc (ODict hes) ;;
      ret (HRef l)
  end.

Fixpoint new_entries (ves : PyDict.t value) : M (PyDict.t hvalue) :=
  match ves with
  | [] => ret []
  | (k, v) :: ves' =>
      h <- new_value v ;; hes <- new_entries ves' ;; ret ((k, h) :: hes)
  end.

(** A dictionary of JSON objects built from scratch. *)
Fixpoint new_objects (ds : PyDict.t (PyDict.t value))
  : M (PyDict.t hvalue) :=
  match ds with
  | [] => ret []
  | (k, d) :: ds' =>
      hes <- new_entries d ;;
      l <- alloc (ODict hes) ;;
      rest <- new_objects ds' ;;
      ret ((k, HRef l) :: rest)
  end.

(** [schema.get(key, {})] on the dictionary [model_json_schema()] has just
    built: the value under the key, or a new empty dictionary. *)
Definition exported_objects (field : option (PyDict.t (PyDict.t value)))
  : M loc :=
  hes <- new_objects (match field with Some d => d | None => [] end) ;;
  alloc (ODict hes).

(** [schema.get("required", [])] *)
Definition exported_names (field : option (list string)) : M loc :=
  alloc (OList (map HStr (match field with Some r => r | None => [] end))).

Fixpoint expand_refs (definitions : loc) (items : list (string * hvalue))
    (properties : loc) : M unit :=
  match items with
  | [] => ret tt
  | (prop_name, prop_schema) :: rest =>
      match prop_schema with
      | HRef prop_schema =>
          schema_entries <- entries_of prop_schema ;;
          match PyDict.get "$ref" schema_entries with
          | None => expand_refs definitions rest properties
          | Some (HStr ref) =>
              let ref_name := split_last "/" ref in
              defs <- entries_of definitions ;;
              match PyDict.get ref_name defs with
              | Some body =>
                  setitem properties prop_name body ;;
                  expand_refs definitions rest properties
              | None => expand_refs definitions rest properties
              end
          | Some _ =>
              raise (AttributeError "object has no attribute 'split'")
          end
      | _ => raise (AttributeError "not a dict")
      end
  end.

(** The four-key dictionary display that ends each record branch. *)
Definition object_node (properties required : loc) : M loc :=
  alloc (ODict [("type", HStr "object");
                ("properties", HRef properties);
                ("required", HRef required);
                ("additionalProperties", HBool false)]).

Fixpoint get_type_info (annotation : Annotation)
    (base_type_map : list (builtin * string)) {struct annotation} : M loc :=
  match base_type_of annotation base_type_map with
  | Some t => alloc (ODict [("type", HStr t)])
  | None =>
    match annotation with
    | Generic o_list args =>
        match args with
        | item_type :: _ =>
            items <- get_type_info item_type base_type_map ;;
            alloc (ODict [("type", HStr "array"); ("items", HRef items)])
        | [] => raise (IndexError "tuple index out of range")
        end
    | Generic o_dict args =>
        match args with
        | [key_type; value_type] =>
            if negb (is_str key_type) then
              raise (ValueError "Dictionary keys must be strings")
            else if has_annotations value_type || is_BaseModel value_type
            then get_type_info value_type base_type_map
            else
              additional <- get_type_info value_type base_type_map ;;
              alloc (ODict [("type", HStr "object");
                            ("additionalProperties", HRef additional)])
        | [] =>
            raise (ValueError
                     "not enough values to unpack (expected 2, got 0)")
        | [_] =>
            raise (ValueError
                     "not enough values to unpack (expected 2, got 1)")
        | _ =>
            raise (ValueError "too many values to unpack (expected 2)")
        end
    | Generic o_Union args =>
        types <-
          collect (fun arg => negb (is_NoneType arg))
                  (fun arg => get_type_info arg base_type_map) args ;;
        match types with
        | [t] => ret t
        | _ =>
            types <- alloc (OList (map HRef types)) ;;
            alloc (ODict [("oneOf", HRef types)])
        end
    | PydanticModel schema =>
        properties <- exported_objects (schema_properties schema) ;;
        required <- exported_names (schema_required schema) ;;
        definitions <- exported_objects (schema_defs schema) ;;
        defs <- entries_of definitions ;;
        match defs with
        | [] => ret tt
        | _ =>
            items <- entries_of properties ;;
            expand_refs definitions items properties
        end ;;
        object_node properties required
    | Dataclass fields =>
        properties <- alloc (ODict []) ;;
        required <- alloc (OList []) ;;
        for_each
          (fun field =>
             t <- get_type_info (field_type field) base_type_map ;;
             setitem properties (field_name field) (HRef t) ;;
             if lacks_default field
             then append required (HStr (field_name field))
             else ret tt)
          fields ;;
        object_node properties required
    | TypedDict annotations required_keys =>
        properties <- alloc (ODict []) ;;
        let required :=
          match required_keys with
          | Some keys => keys
          | None => PyDict.keys annotations
          end in
        for_each
          (fun item =>
             t <- get_type_info (snd item) base_type_map ;;
             setitem properties (fst item) (HRef t))
          annotations ;;
        required <- alloc (OList (map HStr required)) ;;
        object_node properties required
    | _ => alloc (ODict [("type", HStr "string")])
    end
  end.

(** The body of the loop of [function_to_json]: the first result is
    stripped of its [additionalProperties] in place, the second is
    stored. *)
Definition compile_parameter (parameters : loc) (param : Param) : M unit :=
  if String.eqb (param_name param) "context_variables" then ret tt
  else
    param_info <- get_type_info (param_annotation param) type_map ;;
    is_dict <- isinstance_dict param_info ;;
    present <- (if is_dict
                then contains param_info "additionalProperties"
                else ret false) ;;
    (if present then delitem param_info "additionalProperties"
     else ret tt) ;;
    t <- get_type_info (param_annotation param) type_map ;;
    setitem parameters (param_name param) (HRef t).

Definition compile_parameters (params : list Param) (parameters : loc)
  : M unit :=
  for_each (compile_parameter parameters) params.

Definition function_to_json (func : Callable) : M loc :=
  match func_signature func with
  | inl e =>
      raise (ValueError ("Failed to get signature for function "
                           ++ func_name func ++ ": " ++ e))
  | inr params =>
      parameters <- alloc (ODict []) ;;
      compile_parameters params parameters ;;
      required <- alloc (OList (map HStr (required_names params))) ;;
      schema <- alloc (ODict [("type", HStr "object");
                              ("properties", HRef parameters);
                              ("required", HRef required)]) ;;
      function <- alloc (ODict
                           [("name", HStr (func_name func));
                            ("description",
                              HStr (doc_or_empty (func_doc func)));
                            ("parameters", HRef schema)]) ;;
      alloc (ODict [("type", HStr "function");
                    ("function", HRef function)])
  end.

End Heap.

(** * What the store-level code computes *)

Module HeapLogic.
Import Heap.

Definition entry_rep {A B} (R : A -> B -> Prop)
    (he : string * A) (ve : string * B) : Prop :=
  fst he = fst ve /\ R (snd he) (snd ve).

(** [represents F s h v]: read through the store [s], and touching only
    locations in [F], the heap value [h] is the tree [v]. *)
Unset Elimination Schemes.
Inductive represents (F : loc -> Prop) (s : store)
  : hvalue -> value -> Prop :=
| rep_None : represents F s HNone VNone
| rep_Bool b : represents F s (HBool b) (VBool b)
| rep_Int n : represents F s (HInt n) (VInt n)
| rep_Str x : represents F s (HStr x) (VStr x)
| rep_List l hs vs :
    F l -> nth_error s l = Some (OList hs) ->
    Forall2 (represents F s) hs vs ->
    represents F s (HRef l) (VList vs)
| rep_Dict l hes ves :
    F l -> nth_error s l = Some (ODict hes) ->
    Forall2 (entry_rep (represents F s)) hes ves ->
    represents F s (HRef l) (VDict ves).
Set Elimination Schemes.

Section represents_induction.
Variables (F : loc -> Prop) (s : store).
Variable P : hvalue -> value -> Prop.
Hypothesis PNone : P HNone VNone.
Hypothesis PBool : forall b, P (HBool b) (VBool b).
Hypothesis PInt : forall n, P (HInt n) (VInt n).
Hypothesis PStr : forall x, P (HStr x) (VStr x).
Hypothesis PList : forall l hs vs,
  F l -> nth_error s l = Some (OList hs) ->
  Forall2 P hs vs -> P (HRef l) (VList vs).
Hypothesis PDict : forall l hes ves,
  F l -> nth_error s l = Some (ODict hes) ->
  Forall2 (entry_rep P) hes ves -> P (HRef l) (VDict ves).

Fixpoint represents_nested_ind h v (H : represents F s h v) : P h v :=
  match H with
  | rep_None _ _ => PNone
  | rep_Bool _ _ b => PBool b
  | rep_Int _ _ n => PInt n
  | rep_Str _ _ x => PStr x
  | rep_List _ _ l hs vs HF Hl Hall =>
      PList l hs vs HF Hl
        ((fix each hs vs (Hall : Forall2 (represents F s) hs vs)
            : Forall2 P hs vs :=
            match Hall with
            | Forall2_nil _ => Forall2_nil _
            | Forall2_cons h v Hhv Hrest =>
                Forall2_cons h v (represents_nested_ind h v Hhv)
                             (each _ _ Hrest)
            end) hs vs Hall)
  | rep_Dict _ _ l hes ves HF Hl Hall =>
      PDict l hes ves HF Hl
        ((fix each hes ves
            (Hall : Forall2 (entry_rep (represents F s)) hes ves)
            : Forall2 (entry_rep P) hes ves :=
            match Hall with
            | Forall2_nil _ => Forall2_nil _
            | Forall2_cons he ve Hhv Hrest =>
                Forall2_cons he ve
                  (match Hhv with
                   | conj Hk Hv =>
                       conj Hk (represents_nested_ind _ _ Hv)
                   end)
                  (each _ _ Hrest)
            end) hes ves Hall)
  end.
End represents_induction.

(** A store grows at its end; old locations keep their index. *)
Definition extends (s s' : store) : Prop := exists new, s' = s ++ new.

(** [runs c s Q]: from store [s] the computation [c] returns, with a
    result and a final store that satisfy [Q]. *)
Definition runs {A} (c : M A) (s : store) (Q : A -> store -> Prop) : Prop :=
  exists a s', c s = Ok (a, s') /\ Q a s'.

(** The footprint of what a computation started in [s] allocates. *)
Definition since (s : store) : loc -> Prop := fun l => length s <= l.

(** From [s], a result [h] that stands for [v] through newly allocated
    objects only. *)
Definition fresh_rep (s : store) (v : value) (h : hvalue) (s' : store)
  : Prop :=
  extends s s' /\ represents (since s) s' h v.

(** [refines c s r Q]: run from [s], [c] ends as the pure result [r]
    does: with the same exception, or with a result and store that [Q]
    relates to the value of [r]. *)
Definition refines {A B} (c : M A) (s : store) (r : result B)
    (Q : A -> store -> B -> Prop) : Prop :=
  match r with
  | Ok b => runs c s (fun a s' => Q a s' b)
  | Raise e => c s = Raise e
  end.

(** [resolves s t s' v]: the location [t] stands for [v] in [s'] through
    objects allocated since [s]. *)
Definition resolves (s : store) (t : loc) (s' : store) (v : value) : Prop :=
  fresh_rep s v (HRef t) s'.

(** [holds s0 lo p s properties]: in [s], which extends [s0], the
    dictionary at [p] stands for [properties] through objects allocated
    after [lo]. *)
Definition holds (s0 : store) (lo p : loc) (s : store)
    (properties : PyDict.t value) : Prop :=
  extends s0 s
  /\ exists hprops,
      nth_error s p = Some (ODict hprops)
      /\ Forall2 (entry_rep (represents (fun l => lo < l) s)) hprops
                  properties.

End HeapLogic.

(** * The rest of [autoagent/util.py]

    The functions of the module that do not take part in schema
    compilation: the answer parser of the console ([get_user_confirmation]),
    the accumulation of a streamed model response ([merge_fields],
    [merge_chunk]) and the two clients of the command sandbox
    ([run_command_in_container_v1], [run_command_in_container]).

    They are modelled as pure functions with explicit state passing: a
    function that changes its argument in place returns the changed
    argument, and what a socket delivers is an input of the model.

    - The responses, deltas and messages are values of [value]: a
      dictionary has string keys.
    - When a function raises, the model keeps the exception and not the
      state in which the arguments are left.
    - A [stream_callback] returns normally, and what it is called with is
      recorded in order.  What the functions print is not modelled.
    - Connecting and sending succeed; the chunks that [recv] returns are
      given as a list, after which the peer has closed the connection. *)

(** The string holds no occurrence of [sep]. *)
Fixpoint lacks (sep : ascii) (s : string) : bool :=
  match s with
  | EmptyString => true
  | String c r => negb (Ascii.eqb c sep) && lacks sep r
  end.

(** ** The console: [get_user_confirmation] *)

Module Console.

(** A character of the prompt is a code point below 256.  [str.isspace]
    holds there for the ASCII white space and separators, NEL and the
    no-break space. *)
Definition isspace (c : ascii) : bool :=
  existsb (Nat.eqb (nat_of_ascii c))
          [9; 10; 11; 12; 13; 28; 29; 30; 31; 32; 133; 160]%nat.

(** [str.lower] on one character: [A]-[Z] and the capital letters of
    Latin-1, which exclude the multiplication sign at 215. *)
Definition lower_char (c : ascii) : ascii :=
  let n := nat_of_ascii c in
  if ((65 <=? n) && (n <=? 90)
      || (192 <=? n) && (n <=? 222) && negb (n =? 215))%nat
  then ascii_of_nat (n + 32)
  else c.

(** [s.lower()] *)
Fixpoint lower (s : string) : string :=
  match s with
  | EmptyString => EmptyString
  | String c r => String (lower_char c) (lower r)
  end.

(** [s.lstrip()] *)
Fixpoint lstrip (s : string) : string :=
  match s with
  | EmptyString => EmptyString
  | String c r => if isspace c then lstrip r else s
  end.

(** [s.rstrip()] *)
Fixpoint rstrip (s : string) : string :=
  match s with
  | EmptyString => EmptyString
  | String c r =>
      match rstrip r with
      | EmptyString => if isspace c then EmptyString else String c EmptyString
      | r' => String c r'
      end
  end.

(** [s.strip()] *)
Definition strip (s : string) : string := rstrip (lstrip s).

(** [x in words] *)
Definition among (words : list string) (x : string) : bool :=
  existsb (String.eqb x) words.

(** The result is [Some True], [Some False], or [None] when the function
    reports the input as invalid and falls off its end. *)
Definition get_user_confirmation (prompt : string) : option bool :=
  let user_input := lower (strip prompt) in
  if among ["y"; "yes"; "true"; "t"] user_input then Some true
  else if among ["n"; "no"; "false"; "f"] user_input
          || String.eqb user_input ""
  then Some false
  else None.

(** Every character of the string is white space. *)
Fixpoint blank (s : string) : bool :=
  match s with
  | EmptyString => true
  | String c r => isspace c && blank r
  end.

End Console.

(** ** Streamed responses and the sandbox protocol *)

Module Runtime.

(** The exceptions these functions end with, by class; a [KeyError]
    carries the key. *)
Inductive error : Type :=
| KeyError (key : value)
| TypeError
| IndexError
| AttributeError
| UnicodeDecodeError.

Inductive outcome (A : Type) : Type :=
| Return (a : A)
| Throw (e : error).
Arguments Return {A} a.
Arguments Throw {A} e.

Definition and_then {A B} (r : outcome A) (k : A -> outcome B) : outcome B :=
  match r with
  | Return a => k a
  | Throw e => Throw e
  end.

Declare Scope outcome_scope.
Delimit Scope outcome_scope with outcome.
Notation "x <- e ;; k" := (and_then e (fun x => k))
  (at level 61, e at next level, right associativity) : outcome_scope.
Local Open Scope outcome_scope.

(** *** Subscripts and in-place addition *)

(** [container[key]] for a string [key]: only a dictionary can be read by
    a string. *)
Definition getitem_str (container : value) (key : string) : outcome value :=
  match container with
  | VDict entries =>
      match PyDict.get key entries with
      | Some v => Return v
      | None => Throw (KeyError (VStr key))
      end
  | _ => Throw TypeError
  end.

(** The characters of a string, as the strings of length one that iterating
    over it yields. *)
Fixpoint characters (s : string) : list value :=
  match s with
  | EmptyString => []
  | String c r => VStr (String c EmptyString) :: characters r
  end.

(** The value of [x] after [x += s] for a string [s]: strings are
    concatenated, a list is extended by the characters of [s], and no
    other type supports the operation. *)
Definition iadd_str (x : value) (s : string) : outcome value :=
  match x with
  | VStr x => Return (VStr (x ++ s))
  | VList items => Return (VList (items ++ characters s))
  | _ => Throw TypeError
  end.

(** The dictionary [container] after [container[key] = v]. *)
Definition setitem_str (container : value) (key : string) (v : value)
  : value :=
  match container with
  | VDict entries => VDict (PyDict.set key v entries)
  | _ => container
  end.

(** [operator.index]: integers and booleans index a sequence. *)
Definition as_index (index : value) : option Z :=
  match index with
  | VInt n => Some n
  | VBool b => Some (if b then 1 else 0)%Z
  | _ => None
  end.

(** The position a Python index denotes in a sequence of length [len];
    negative indices count from the end. *)
Definition position (i : Z) (len : nat) : option nat :=
  if ((0 <=? i) && (i <? Z.of_nat len))%Z then Some (Z.to_nat i)
  else if ((i <? 0) && (- Z.of_nat len <=? i))%Z
  then Some (Z.to_nat (Z.of_nat len + i))
  else None.

(** [container[index]] *)
Definition getitem (container index : value) : outcome value :=
  match container with
  | VDict entries =>
      match index with
      | VStr key => getitem_str container key
      | VList _ | VDict _ => Throw TypeError
      | _ => Throw (KeyError index)
      end
  | VList items =>
      match as_index index with
      | Some i =>
          match position i (length items) with
          | Some n =>
              match nth_error items n with
              | Some v => Return v
              | None => Throw IndexError
              end
          | None => Throw IndexError
          end
      | None => Throw TypeError
      end
  | VStr s =>
      match as_index index with
      | Some i =>
          match position i (String.length s) with
          | Some n =>
              match nth_error (characters s) n with
              | Some v => Return v
              | None => Throw IndexError
              end
          | None => Throw IndexError
          end
      | None => Throw TypeError
      end
  | _ => Throw TypeError
  end.

Fixpoint replace_nth {A} (n : nat) (x : A) (l : list A) : list A :=
  match l, n with
  | [], _ => []
  | _ :: l', O => x :: l'
  | y :: l', S n' => y :: replace_nth n' x l'
  end.

(** [container] once the object read as [container[index]] has become
    [v] in place.  Only a list or a dictionary holds objects that can
    change. *)
Definition with_item (container index v : value) : value :=
  match container with
  | VDict entries =>
      match index with
      | VStr key => VDict (PyDict.set key v entries)
      | _ => container
      end
  | VList items =>
      match as_index index with
      | Some i =>
          match position i (length items) with
          | Some n => VList (replace_nth n v items)
          | None => container
          end
      | None => container
      end
  | _ => container
  end.

(** *** [merge_fields]

<<
    for key, value in source.items():
        if isinstance(value, str):
            target[key] += value
        elif value is not None and isinstance(value, dict):
            merge_fields(target[key], value)
>>
    [target] is changed in place; the model returns it as it is after the
    call.  [target] and [source] share no object.  A [source] that is not
    a dictionary has no [items]. *)
Fixpoint merge_fields (target source : value) {struct source}
  : outcome value :=
  match source with
  | VDict entries =>
      (fix loop (items : list (string * value)) (target : value)
         : outcome value :=
         match items with
         | [] => Return target
         | (key, v) :: items' =>
             match v with
             | VStr s =>
                 old <- getitem_str target key ;;
                 new <- iadd_str old s ;;
                 loop items' (setitem_str target key new)
             | VDict _ =>
                 old <- getitem_str target key ;;
                 new <- merge_fields old v ;;
                 loop items' (setitem_str target key new)
             | _ => loop items' target
             end
         end) entries target
  | _ => Throw AttributeError
  end.

(** One round of the loop of [merge_fields]: the target after the item. *)
Definition merge_item (target : value) (item : string * value)
  : outcome value :=
  match snd item with
  | VStr s =>
      old <- getitem_str target (fst item) ;;
      new <- iadd_str old s ;;
      Return (setitem_str target (fst item) new)
  | VDict _ =>
      old <- getitem_str target (fst item) ;;
      new <- merge_fields old (snd item) ;;
      Return (setitem_str target (fst item) new)
  | _ => Return target
  end.

(** A loop whose body may raise: the first exception ends it. *)
Fixpoint fold_outcome {A B} (f : B -> A -> outcome B) (l : list A) (b : B)
  : outcome B :=
  match l with
  | [] => Return b
  | x :: l' => b' <- f b x ;; fold_outcome f l' b'
  end.

(** *** [merge_chunk] *)

(** [bool(v)] *)
Definition truthy (v : value) : bool :=
  match v with
  | VNone => false
  | VBool b => b
  | VInt n => negb (n =? 0)%Z
  | VStr s => negb (String.eqb s "")
  | VList items => match items with [] => false | _ => true end
  | VDict entries => match entries with [] => false | _ => true end
  end.

(**
<<
    delta.pop("role", None)
    merge_fields(final_response, delta)

    tool_calls = delta.get("tool_calls")
    if tool_calls and len(tool_calls) > 0:
        index = tool_calls[0].pop("index")
        merge_fields(final_response["tool_calls"][index], tool_calls[0])
>>
    Both arguments are changed in place: [delta] loses its [role], and
    the first tool call of [delta] its [index].  The model returns the
    pair of them after the call.  A [tool_calls] that is true but not a
    list of dictionaries raises: a number has no [len], a dictionary has
    no key [0], and of the possible first items only a dictionary has a
    [pop] that takes a string. *)
Definition merge_chunk (final_response : value) (delta : PyDict.t value)
  : outcome (value * PyDict.t value) :=
  let delta := PyDict.del "role" delta in
  final_response <- merge_fields final_response (VDict delta) ;;
  match PyDict.get "tool_calls" delta with
  | None => Return (final_response, delta)
  | Some tool_calls =>
      if truthy tool_calls then
        match tool_calls with
        | VList (VDict call :: others) =>
            match PyDict.get "index" call with
            | Some index =>
                let call := PyDict.del "index" call in
                let delta :=
                  PyDict.set "tool_calls" (VList (VDict call :: others))
                             delta in
                calls <- getitem_str final_response "tool_calls" ;;
                slot <- getitem calls index ;;
                slot <- merge_fields slot (VDict call) ;;
                Return (setitem_str final_response "tool_calls"
                                    (with_item calls index slot),
                        delta)
            | None => Throw (KeyError (VStr "index"))
            end
        | VList (VList _ :: _) => Throw TypeError
        | VList _ => Throw AttributeError
        | VStr _ => Throw AttributeError
        | VDict _ => Throw (KeyError (VInt 0))
        | _ => Throw TypeError
        end
      else Return (final_response, delta)
  end.

(** The caller's loop over a stream of deltas: each is merged into the
    response accumulated so far. *)
Fixpoint merge_chunks (final_response : value)
    (deltas : list (PyDict.t value)) : outcome value :=
  match deltas with
  | [] => Return final_response
  | delta :: deltas' =>
      merged <- merge_chunk final_response delta ;;
      merge_chunks (fst merged) deltas'
  end.

(** [isinstance(v, str)], or [v] is a dictionary: the values of [source]
    that [merge_fields] acts on. *)
Definition merged_kind (v : value) : bool :=
  match v with
  | VStr _ | VDict _ => true
  | _ => false
  end.

(** The text a delta contributes under [key]. *)
Definition text_at (key : string) (delta : PyDict.t value) : string :=
  match PyDict.get key delta with
  | Some (VStr s) => s
  | _ => ""
  end.

(** *** The sandbox clients *)

(** What reached [stream_callback], in order, and how the call ended. *)
Definition run (D A : Type) : Type := list D * outcome A.

(** [data.split("\n")] as the pair of [lines[:-1]] and [lines[-1]], where
    [line] is the text of the current line read so far. *)
Fixpoint split_from (data line : string) : list string * string :=
  match data with
  | EmptyString => ([], line)
  | String c r =>
      if Ascii.eqb c "010" then
        let (lines, last) := split_from r "" in (line :: lines, last)
      else split_from r (line ++ String c "")
  end.

Definition split_lines (data : string) : list string * string :=
  split_from data "".

(** The text holds no line feed. *)
Fixpoint one_line (s : string) : bool :=
  match s with
  | EmptyString => true
  | String c r => negb (Ascii.eqb c "010") && one_line r
  end.

(** [{"status": -1, "result": text}] *)
Definition failure (text : string) : value :=
  VDict [("status", VInt (-1)); ("result", VStr text)].

Section sandbox.

(** [bytes.decode("utf-8")]: [None] stands for [UnicodeDecodeError]. *)
Variable decode : string -> option string.

(** [json.loads], the document being read as a [value]: [None] stands for
    [json.JSONDecodeError]. *)
Variable loads : string -> option value.

(** Whether a [stream_callback] was given.  A callback returns normally. *)
Variable stream_callback : bool.

(** [recv] returns [chunks] one after the other, none of them empty, and
    [texts] is what they decode to. *)
Definition delivers (chunks texts : list string) : Prop :=
  Forall2 (fun chunk text => chunk <> "" /\ decode chunk = Some text)
          chunks texts.

(** The body of the loop over the complete lines of
    [run_command_in_container].  [None] is the end of the body: the loop
    goes on with the next line. *)
Definition process_line (line : string)
  : list value * option (outcome value) :=
  if String.eqb line "" then ([], None)
  else
    match loads line with
    | None => ([], None)
    | Some response =>
        match getitem_str response "type" with
        | Throw e => ([], Some (Throw e))
        | Return (VStr type) =>
            if String.eqb type "chunk" then
              if stream_callback then
                match getitem_str response "data" with
                | Throw e => ([], Some (Throw e))
                | Return data => ([data], None)
                end
              else ([], None)
            else if String.eqb type "final" then
              ([],
               Some (status <- getitem_str response "status" ;;
                     result <- getitem_str response "result" ;;
                     Return (VDict [("status", status);
                                    ("result", result)])))
            else ([], None)
        | Return _ => ([], None)
        end
    end.

(** [for line in lines[:-1]: ...] *)
Fixpoint process_lines (lines : list string)
  : list value * option (outcome value) :=
  match lines with
  | [] => ([], None)
  | line :: lines' =>
      match process_line line with
      | (called, Some ended) => (called, Some ended)
      | (called, None) =>
          let (called', ended) := process_lines lines' in
          (called ++ called', ended)
      end
  end.

(** The receive loop of [run_command_in_container].  [chunks] is what the
    successive calls of [recv] return; when the list is exhausted the
    peer has closed the connection and [recv] returns no bytes. *)
Fixpoint receive (chunks : list string) (partial_line : string)
  : run value value :=
  match chunks with
  | [] => ([], Return (failure "Connection closed without final response"))
  | chunk :: chunks' =>
      if String.eqb chunk "" then
        ([], Return (failure "Connection closed without final response"))
      else
        match decode chunk with
        | None => ([], Throw UnicodeDecodeError)
        | Some text =>
            let data := (partial_line ++ text)%string in
            let (lines, last) := split_lines data in
            match process_lines lines with
            | (called, Some ended) => (called, ended)
            | (called, None) =>
                let (called', ended) := receive chunks' last in
                (called ++ called', ended)
            end
        end
  end.

Definition run_command_in_container (chunks : list string)
  : run value value :=
  receive chunks "".

Definition buffer_size : nat := 4096.

(** The receive loop of [run_command_in_container_v1]: the bytes received
    and the chunks handed to the callback. *)
Fixpoint receive_v1 (chunks : list string) (full_response : string)
  : list string * string :=
  match chunks with
  | [] => ([], full_response)
  | chunk :: chunks' =>
      if String.eqb chunk "" then ([], full_response)
      else
        let full_response := (full_response ++ chunk)%string in
        let called := if stream_callback then [chunk] else [] in
        if Nat.ltb (String.length chunk) buffer_size
        then (called, full_response)
        else
          let (called', full_response) := receive_v1 chunks' full_response in
          (called ++ called', full_response)
  end.

(** The end of [run_command_in_container_v1]: only a JSON error is
    caught. *)
Definition parse_response (full_response : string) : outcome value :=
  match decode full_response with
  | None => Throw UnicodeDecodeError
  | Some decoded_response =>
      match loads decoded_response with
      | Some response => Return response
      | None => Return (failure "Response parsing error")
      end
  end.

Definition run_command_in_container_v1 (chunks : list string)
  : run string value :=
  let (called, full_response) := receive_v1 chunks "" in
  (called, parse_response full_response).

End sandbox.

(** How a run of [process_lines] ends when the connection closes after
    it. *)
Definition closing (r : list value * option (outcome value))
  : run value value :=
  match r with
  | (called, Some ended) => (called, ended)
  | (called, None) =>
      (called, Return (failure "Connection closed without final response"))
  end.

(** The stream of a sandbox that works as intended: one line for each
    message, every line ended by a line feed. *)
Fixpoint unlines (lines : list string) : string :=
  match lines with
  | [] => ""
  | line :: lines' => line ++ String "010" (unlines lines')
  end.

(** [{"type": "chunk", "data": data}], with any other members after
    these. *)
Definition chunk_message (data : value) (others : PyDict.t value) : value :=
  VDict (("type", VStr "chunk") :: ("data", data) :: others).

(** *** UTF-8

    With this decoder a text is written as the bytes of its UTF-8
    encoding: a chunk that is well formed decodes to itself, and the line
    feed of the text is the byte 10, which is part of no longer
    sequence. *)

(** Where the decoder stands between two bytes: at the boundary of a
    character, or inside one that has [more] bytes to come, the next of
    them between [lo] and [hi]. *)
Inductive utf8_state : Type :=
| Boundary
| Inside (more lo hi : nat).

(** One byte further; [None] when the byte cannot follow.  The ranges
    leave out the over-long forms, the surrogates and what lies beyond
    U+10FFFF, as the decoder of Python does. *)
Definition utf8_step (state : utf8_state) (b : nat) : option utf8_state :=
  match state with
  | Boundary =>
      if b <=? 127 then Some Boundary
      else if (194 <=? b) && (b <=? 223) then Some (Inside 1 128 191)
      else if b =? 224 then Some (Inside 2 160 191)
      else if b =? 237 then Some (Inside 2 128 159)
      else if (225 <=? b) && (b <=? 239) then Some (Inside 2 128 191)
      else if b =? 240 then Some (Inside 3 144 191)
      else if (241 <=? b) && (b <=? 243) then Some (Inside 3 128 191)
      else if b =? 244 then Some (Inside 3 128 143)
      else None
  | Inside more lo hi =>
      if (lo <=? b) && (b <=? hi) then
        match more with
        | 0 => None
        | 1 => Some Boundary
        | S more' => Some (Inside more' 128 191)
        end
      else None
  end%nat.

Fixpoint utf8_from (state : utf8_state) (bytes : string) : bool :=
  match bytes with
  | EmptyString =>
      match state with Boundary => true | Inside _ _ _ => false end
  | String c r =>
      match utf8_step state (nat_of_ascii c) with
      | Some state' => utf8_from state' r
      | None => false
      end
  end.

(** [bytes.decode("utf-8")] *)
Definition decode_utf8 (chunk : string) : option string :=
  if utf8_from Boundary chunk then Some chunk else None.

(** *** Inputs used in examples *)

(** Plain ASCII decodes to itself. *)
Definition decode_ascii (chunk : string) : option string := Some chunk.

Definition quoted (s : string) : string :=
  String "034" (s ++ String "034" "").

(** The line [{"type": "final", "status": 0, "result": "ok"}]. *)
Definition final_line : string :=
  "{" ++ quoted "type" ++ ": " ++ quoted "final" ++ ", "
      ++ quoted "status" ++ ": 0, "
      ++ quoted "result" ++ ": " ++ quoted "ok" ++ "}".

(** The line [{"type": "chunk", "data": "building"}]. *)
Definition chunk_line : string :=
  "{" ++ quoted "type" ++ ": " ++ quoted "chunk" ++ ", "
      ++ quoted "data" ++ ": " ++ quoted "building" ++ "}".

(** The two bytes of the letter e with an acute accent, U+00E9. *)
Definition e_acute : string := String "195" (String "169" "").

(** The line [{"type": "chunk", "data": "caf<e acute>"}], the letter
    written in UTF-8 and not escaped. *)
Definition accented_line : string :=
  "{" ++ quoted "type" ++ ": " ++ quoted "chunk" ++ ", "
      ++ quoted "data" ++ ": " ++ quoted ("caf" ++ e_acute) ++ "}".

(** [accented_line] up to the first byte of the accented letter, and what
    follows. *)
Definition accented_line_head : string :=
  "{" ++ quoted "type" ++ ": " ++ quoted "chunk" ++ ", "
      ++ quoted "data" ++ ": " ++ String "034" ("caf" ++ String "195" "").

Definition accented_line_tail : string :=
  String "169" (String "034" "}").

(** [json.loads] on the documents of the examples. *)
Definition loads_sample (line : string) : option value :=
  if String.eqb line final_line then
    Some (VDict [("type", VStr "final"); ("status", VInt 0);
                 ("result", VStr "ok")])
  else if String.eqb line chunk_line then
    Some (VDict [("type", VStr "chunk"); ("data", VStr "building")])
  else if String.eqb line accented_line then
    Some (VDict [("type", VStr "chunk"); ("data", VStr ("caf" ++ e_acute))])
  else if String.eqb line "[1]" then Some (VList [VInt 1])
  else None.

End Runtime.

(** * Properties *)

(** ** Dictionaries *)

Module PyDictFacts.
Import PyDict.

Section facts.
Context {V : Type}.
Implicit Types (d : t V) (k : string) (v : V).

Lemma get_set_same k v d : get k (set k v d) = Some v.
Proof.
  induction d as [|[k' v'] d IH]; simpl.
  - now rewrite String.eqb_refl.
  - destruct (String.eqb k k') eqn:E; simpl; rewrite E; auto.
Qed.

Lemma get_set_other k k' v d : k <> k' -> get k (set k' v d) = get k d.
Proof.
  intros Hne. induction d as [|[k0 v0] d IH]; simpl.
  - destruct (String.eqb_spec k k'); congruence.
  - destruct (String.eqb_spec k' k0) as [->|]; simpl.
    + destruct (String.eqb_spec k k0); congruence.
    + destruct (String.eqb_spec k k0); auto.
Qed.

Lemma get_None_not_In k d : get k d = None <-> ~ In k (keys d).
Proof.
  induction d as [|[k' v'] d IH]; simpl.
  - tauto.
  - destruct (String.eqb_spec k k') as [->|Hne].
    + split; [discriminate | tauto].
    + rewrite IH. intuition congruence.
Qed.

Lemma set_fresh k v d : ~ In k (keys d) -> set k v d = d ++ [(k, v)].
Proof.
  induction d as [|[k' v'] d IH]; simpl; intros Hin; auto.
  destruct (String.eqb_spec k k') as [->|Hne]; [tauto|].
  rewrite IH; tauto.
Qed.

Lemma keys_set k v d :
  keys (set k v d) = if mem k d then keys d else keys d ++ [k].
Proof.
  unfold mem. induction d as [|[k' v'] d IH]; simpl; auto.
  destruct (String.eqb_spec k k') as [->|Hne]; simpl; auto.
  rewrite IH. destruct (get k d); auto.
Qed.

Lemma get_del_same k d : wf d -> get k (del k d) = None.
Proof.
  unfold wf. induction d as [|[k' v'] d IH]; simpl; intros Hnd; auto.
  inversion Hnd; subst.
  destruct (String.eqb_spec k k') as [->|Hne]; simpl.
  - now apply get_None_not_In.
  - destruct (String.eqb_spec k k'); [congruence | auto].
Qed.

Lemma get_del_other k k' d : k <> k' -> get k (del k' d) = get k d.
Proof.
  intros Hne. induction d as [|[k0 v0] d IH]; simpl; auto.
  destruct (String.eqb_spec k' k0) as [->|]; simpl.
  - destruct (String.eqb_spec k k0); congruence.
  - destruct (String.eqb_spec k k0); auto.
Qed.

(** Assigning items with distinct fresh keys lists them in order. *)
Lemma fold_set_fresh (items : list (string * V)) d :
  NoDup (keys d ++ keys items) ->
  fold_left (fun d kv => set (fst kv) (snd kv) d) items d = d ++ items.
Proof.
  revert d. induction items as [|[k v] items IH]; simpl; intros d Hnd.
  - now rewrite app_nil_r.
  - assert (Hk : ~ In k (keys d)).
    { apply NoDup_remove_2 in Hnd. rewrite in_app_iff in Hnd. tauto. }
    rewrite set_fresh by exact Hk.
    rewrite IH.
    + now rewrite <- app_assoc.
    + unfold keys in *. rewrite map_app. simpl.
      rewrite <- app_assoc. exact Hnd.
Qed.

Lemma dict_of_items_distinct (items : list (string * V)) :
  NoDup (keys items) -> dict_of_items items = items.
Proof.
  intros Hnd. unfold dict_of_items.
  now rewrite fold_set_fresh.
Qed.
End facts.
End PyDictFacts.

(** ** The error monad *)

Lemma bind_Ok {A B} (r : result A) (k : A -> result B) (b : B) :
  bind r k = Ok b -> exists a, r = Ok a /\ k a = Ok b.
Proof. destruct r; simpl; [eauto | discriminate]. Qed.

Lemma traverse_length {A B} (f : A -> result B) l ys :
  traverse f l = Ok ys -> length ys = length l.
Proof.
  revert ys. induction l as [|x l IH]; simpl; intros ys H.
  - now inversion H.
  - apply bind_Ok in H as (y & _ & H).
    apply bind_Ok in H as (ys' & Hys & H).
    inversion H; subst. simpl. f_equal. auto.
Qed.

(** ** Equations of [get_type_info] *)

Section resolver.
Variable base_type_map : list (builtin * string).

Local Abbreviation resolve := (fun a => get_type_info a base_type_map).

Lemma generic_not_base o args :
  base_type_of (Generic o args) base_type_map = None.
Proof. reflexivity. Qed.

(** The list comprehension of the union branch is a traversal of the
    members that are not [type(None)]. *)
Lemma comprehension_traverse (args : list Annotation) :
  (fix comprehension (l : list Annotation) : result (list value) :=
     match l with
     | [] => Ok []
     | arg :: l' =>
         if is_NoneType arg then comprehension l'
         else
           t <- get_type_info arg base_type_map ;;
           ts <- comprehension l' ;;
           Ok (t :: ts)
     end) args
  = traverse resolve (filter not_NoneType args).
Proof.
  induction args as [|arg args IH]; simpl; auto.
  unfold not_NoneType at 1.
  destruct (is_NoneType arg); simpl; rewrite IH; reflexivity.
Qed.

Lemma get_type_info_Union members :
  get_type_info (Union members) base_type_map =
  (types <- traverse resolve (filter not_NoneType members) ;;
   Ok (union_node types)).
Proof.
  unfold Union. simpl get_type_info.
  rewrite comprehension_traverse.
  destruct (traverse _ _) as [types|e]; simpl; auto.
  destruct types as [|t [|t' types]]; reflexivity.
Qed.

(** The dataclass loop, for any state of its two accumulators. *)
Lemma dataclass_loop fields : forall properties required,
  (fix loop (fs : list (Field Annotation))
            (properties : PyDict.t value) (required : list string)
     : result value :=
     match fs with
     | [] => Ok (object_node properties (strings required))
     | field :: fs' =>
         t <- get_type_info (field_type field) base_type_map ;;
         let properties := PyDict.set (field_name field) t properties in
         if lacks_default field then
           loop fs' properties (required ++ [field_name field])
         else loop fs' properties required
     end) fields properties required
  = (ts <- traverse (fun f => resolve (field_type f)) fields ;;
     Ok (object_node
           (fold_left (fun d kv => PyDict.set (fst kv) (snd kv) d)
                      (combine (map field_name fields) ts) properties)
           (strings (required
                       ++ map field_name (filter lacks_default fields))))).
Proof.
  induction fields as [|f fields IH]; intros properties required; simpl.
  - now rewrite app_nil_r.
  - destruct (get_type_info (field_type f) base_type_map) as [t|e];
      simpl; auto.
    destruct (lacks_default f); rewrite IH;
      destruct (traverse _ fields) as [ts|e]; simpl; auto.
    now rewrite <- app_assoc.
Qed.

Lemma get_type_info_Dataclass fields :
  get_type_info (Dataclass fields) base_type_map =
  (ts <- traverse (fun f => resolve (field_type f)) fields ;;
   Ok (object_node
         (dict_of_items (combine (map field_name fields) ts))
         (strings (map field_name (filter lacks_default fields))))).
Proof.
  simpl get_type_info. rewrite dataclass_loop. reflexivity.
Qed.

Lemma typeddict_loop items : forall properties,
  (fix loop (items : list (string * Annotation))
            (properties : PyDict.t value)
     : result (PyDict.t value) :=
     match items with
     | [] => Ok properties
     | (key, field_type) :: items' =>
         t <- get_type_info field_type base_type_map ;;
         loop items' (PyDict.set key t properties)
     end) items properties
  = (ts <- traverse (fun kt => resolve (snd kt)) items ;;
     Ok (fold_left (fun d kv => PyDict.set (fst kv) (snd kv) d)
                   (combine (map fst items) ts) properties)).
Proof.
  induction items as [|[key ty] items IH]; intros properties; simpl; auto.
  destruct (get_type_info ty base_type_map) as [t|e]; simpl; auto.
  rewrite IH. destruct (traverse _ items); reflexivity.
Qed.

Lemma get_type_info_TypedDict annotations required_keys :
  get_type_info (TypedDict annotations required_keys) base_type_map =
  (ts <- traverse (fun kt => resolve (snd kt)) annotations ;;
   Ok (object_node
         (dict_of_items (combine (map fst annotations) ts))
         (strings (match required_keys with
                   | Some keys => keys
                   | None => map fst annotations
                   end)))).
Proof.
  simpl get_type_info. rewrite typeddict_loop.
  destruct (traverse _ annotations); reflexivity.
Qed.

Lemma combine_keys {A} (ks : list string) (vs : list A) :
  length vs = length ks -> PyDict.keys (combine ks vs) = ks.
Proof.
  revert vs. induction ks as [|k ks IH]; intros [|v vs]; simpl;
    try discriminate; auto.
  intros H. f_equal. apply IH. congruence.
Qed.

End resolver.

(** ** Reference flattening in a validated record's export *)

Section flattening.
Import PyDict.
Variable definitions : PyDict.t (PyDict.t value).

Lemma set_middle {V} (k : string) (v v' : V) (front back : t V) :
  ~ In k (keys front) ->
  set k v (front ++ (k, v') :: back) = front ++ (k, v) :: back.
Proof.
  induction front as [|[k0 v0] front IH]; simpl; intros Hin.
  - now rewrite String.eqb_refl.
  - destruct (String.eqb_spec k k0) as [->|Hne]; [tauto|].
    rewrite IH; tauto.
Qed.

(** With the loop halfway through, [front] holds the entries already
    visited and [items] those still to come. *)
Lemma expand_refs_from items : forall front,
  NoDup (keys (front ++ items)) ->
  forallb (fun kv => ref_is_string (snd kv)) items = true ->
  expand_refs definitions items (front ++ items) =
  Ok (front ++ map (fun kv => (fst kv, inline_ref definitions (snd kv)))
                   items).
Proof.
  induction items as [|[prop_name prop_schema] items IH];
    intros front Hnd Hstr; simpl.
  - reflexivity.
  - simpl in Hstr. apply andb_true_iff in Hstr as [Hs Hstr].
    assert (Hfront : ~ In prop_name (keys front)).
    { unfold keys in Hnd. rewrite map_app in Hnd. simpl in Hnd.
      apply NoDup_remove_2 in Hnd. rewrite in_app_iff in Hnd.
      unfold keys. tauto. }
    assert (Hstep : forall s,
               expand_refs definitions items
                 (front ++ (prop_name, s) :: items) =
               Ok (front ++ (prop_name, s)
                     :: map (fun kv =>
                               (fst kv, inline_ref definitions (snd kv)))
                            items)).
    { intros s.
      change (front ++ (prop_name, s) :: items)
        with (front ++ [(prop_name, s)] ++ items).
      rewrite app_assoc. rewrite IH; auto.
      - now rewrite <- app_assoc.
      - unfold keys in *. rewrite <- app_assoc.
        rewrite map_app in *. simpl in *. exact Hnd. }
    unfold inline_ref, ref_is_string in *.
    destruct (get "$ref" prop_schema) as [[| | |ref| |]|];
      try discriminate; try apply Hstep.
    destruct (get (split_last "/" ref) definitions) as [body|].
    + rewrite set_middle by exact Hfront. apply Hstep.
    + apply Hstep.
Qed.

Lemma expand_refs_all properties :
  wf properties ->
  forallb (fun kv => ref_is_string (snd kv)) properties = true ->
  expand_refs definitions properties properties =
  Ok (map (fun kv => (fst kv, inline_ref definitions (snd kv)))
          properties).
Proof.
  intros Hwf Hstr. apply (expand_refs_from properties []); assumption.
Qed.
End flattening.

(** ** Equations of [function_to_json] *)

Lemma compile_parameters_traverse params : forall parameters,
  compile_parameters params parameters =
  (ts <- traverse (fun p => get_type_info (param_annotation p) type_map)
                  (filter advertised params) ;;
   Ok (fold_left (fun d kv => PyDict.set (fst kv) (snd kv) d)
                 (combine (map param_name (filter advertised params)) ts)
                 parameters)).
Proof.
  induction params as [|p params IH]; intros parameters; [reflexivity|].
  cbn [compile_parameters filter].
  replace (advertised p)
    with (negb (String.eqb (param_name p) "context_variables"))
    by reflexivity.
  destruct (String.eqb (param_name p) "context_variables"); cbn [negb].
  - apply IH.
  - cbn [map combine traverse].
    destruct (get_type_info (param_annotation p) type_map) as [t|e];
      simpl; auto.
    rewrite IH. destruct (traverse _ _); reflexivity.
Qed.

Lemma fold_set_keeps_absent {V} (items : list (string * V)) k : forall d,
  ~ In k (PyDict.keys items) -> PyDict.get k d = None ->
  PyDict.get k (fold_left (fun d kv => PyDict.set (fst kv) (snd kv) d)
                          items d) = None.
Proof.
  induction items as [|[k' v] items IH]; simpl; intros d Hin Hd; auto.
  apply IH; [tauto|].
  rewrite PyDictFacts.get_set_other; intuition congruence.
Qed.

(** The reserved name is never a key of [properties]. *)
Lemma reserved_not_in_properties params properties :
  compile_parameters params [] = Ok properties ->
  PyDict.get "context_variables" properties = None.
Proof.
  rewrite compile_parameters_traverse. intros H.
  apply bind_Ok in H as (ts & Hts & H). inversion H; subst; clear H.
  apply fold_set_keeps_absent; [|reflexivity].
  intros Hin. apply in_map_iff in Hin as ([k v] & Hk & Hin). simpl in Hk.
  apply in_combine_l in Hin.
  apply in_map_iff in Hin as (p & Hp & Hin).
  apply filter_In in Hin as [_ Hadv]. unfold advertised in Hadv.
  subst k. rewrite Hp in Hadv. discriminate.
Qed.

(** * The claims *)

(** ** Unions *)

(** C2.  Resolving a union resolves, in declaration order, every member
    that is not the null scalar (the first failing member's exception is the
    union's); one remaining member yields that member's node itself, so
    [Union[T, None]] resolves as [T] does, and any other number yields
    [{"oneOf": [...]}] over the resolved members, in order and with repeated
    nodes kept. *)
Theorem union_resolves_non_null_members :
  forall (base_type_map : list (builtin * string))
         (members : list Annotation) (T : Annotation),
    is_NoneType T = false ->
    get_type_info (Union members) base_type_map =
      (types <- traverse (fun a => get_type_info a base_type_map)
                         (filter not_NoneType members) ;;
       Ok (match types with
           | [t] => t
           | _ => VDict [("oneOf", VList types)]
           end))
    /\ get_type_info (Union [T; Scalar py_NoneType]) base_type_map =
       get_type_info T base_type_map
    /\ get_type_info (Union [Scalar py_str; Scalar py_int]) type_map =
       Ok (VDict [("oneOf", VList [VDict [("type", VStr "string")];
                                   VDict [("type", VStr "integer")]])])
    /\ get_type_info (Union [Other; Generic o_other []]) base_type_map =
       Ok (VDict [("oneOf", VList [VDict [("type", VStr "string")];
                                   VDict [("type", VStr "string")]])]).
Proof.
  intros base_type_map members T HT. repeat split.
  - apply get_type_info_Union.
  - rewrite get_type_info_Union. simpl filter.
    unfold not_NoneType. rewrite HT. simpl.
    destruct (get_type_info T base_type_map); reflexivity.
Qed.

Lemma union_resolves_non_null_members_witness :
  is_NoneType (Scalar py_str) = false
  /\ get_type_info (Union [Scalar py_str; Scalar py_NoneType]) type_map =
     get_type_info (Scalar py_str) type_map.
Proof.
  split; [reflexivity|].
  apply (union_resolves_non_null_members type_map
           [Scalar py_str; Scalar py_NoneType] (Scalar py_str)).
  reflexivity.
Defined.

(** ** Mappings *)

(** C4.  A mapping with string keys whose value annotation is a record kind
    resolves exactly as the record itself, with no [additionalProperties]
    wrapper around it; with any other value annotation [V] it resolves to
    [{"type": "object", "additionalProperties": resolve(V)}]. *)
Theorem mapping_with_string_key :
  forall (base_type_map : list (builtin * string)) (V : Annotation),
    get_type_info (Mapping (Scalar py_str) V) base_type_map =
      (if is_record_kind V then get_type_info V base_type_map
       else
         additional <- get_type_info V base_type_map ;;
         Ok (VDict [("type", VStr "object");
                    ("additionalProperties", additional)]))
    /\ get_type_info
         (Mapping (Scalar py_str)
                  (Dataclass [mkField "x" (Scalar py_int) NoDefault]))
         type_map =
       get_type_info (Dataclass [mkField "x" (Scalar py_int) NoDefault])
                     type_map.
Proof.
  intros base_type_map V. split; [|reflexivity].
  unfold Mapping. cbn [get_type_info base_type_of is_str Scalar negb].
  replace (has_annotations V || is_BaseModel V) with (is_record_kind V)
    by (destruct V; reflexivity).
  reflexivity.
Qed.

(** ** Plain records and structural mappings *)

(** C5.  For a dataclass, [properties] lists the fields in declaration
    order, each with its resolved type, and a name is in [required] exactly
    when its field has neither a default value nor a default factory; for a
    [TypedDict], [properties] lists the declared keys in order and
    [required] is [__required_keys__] when the type has it and the full key
    list otherwise. *)
Theorem record_properties_and_required :
  forall (base_type_map : list (builtin * string))
         (fields : list (Field Annotation)) (field_nodes : list value)
         (annotations : list (string * Annotation))
         (required_keys : option (list string)) (key_nodes : list value),
    NoDup (map field_name fields) ->
    NoDup (map fst annotations) ->
    traverse (fun f => get_type_info (field_type f) base_type_map) fields
      = Ok field_nodes ->
    traverse (fun kt => get_type_info (snd kt) base_type_map) annotations
      = Ok key_nodes ->
    let required := map field_name (filter lacks_default fields) in
    get_type_info (Dataclass fields) base_type_map =
      Ok (VDict [("type", VStr "object");
                 ("properties",
                   VDict (combine (map field_name fields) field_nodes));
                 ("required", VList (map VStr required));
                 ("additionalProperties", VBool false)])
    /\ (forall f, In f fields ->
          (In (field_name f) required <-> field_dflt f = NoDefault))
    /\ get_type_info (TypedDict annotations required_keys) base_type_map =
       Ok (VDict [("type", VStr "object");
                  ("properties",
                    VDict (combine (map fst annotations) key_nodes));
                  ("required",
                    VList (map VStr
                             (match required_keys with
                              | Some keys => keys
                              | None => map fst annotations
                              end)));
                  ("additionalProperties", VBool false)]).
Proof.
  intros base_type_map fields field_nodes annotations required_keys key_nodes
         Hfields Hkeys Hf Hk required.
  split; [|split].
  - rewrite get_type_info_Dataclass, Hf. simpl.
    rewrite PyDictFacts.dict_of_items_distinct; [reflexivity|].
    rewrite combine_keys; [assumption|].
    rewrite (traverse_length _ _ _ Hf). now rewrite length_map.
  - intros f Hin. unfold required. split.
    + intros Hreq. apply in_map_iff in Hreq as (g & Hname & Hg).
      apply filter_In in Hg as [Hg Hlack].
      assert (g = f) as ->.
      { clear - Hfields Hin Hg Hname.
        induction fields as [|h fields IH]; [contradiction|].
        simpl in Hfields. inversion Hfields as [|? ? Hnotin Hnd]; subst.
        destruct Hg as [->|Hg], Hin as [<-|Hin]; auto.
        - exfalso. apply Hnotin. rewrite Hname. now apply in_map.
        - exfalso. apply Hnotin. rewrite <- Hname. now apply in_map. }
      unfold lacks_default in Hlack.
      destruct (field_dflt f); [reflexivity | discriminate | discriminate].
    + intros Hno. apply in_map. apply filter_In. split; [assumption|].
      unfold lacks_default. now rewrite Hno.
  - rewrite get_type_info_TypedDict, Hk. simpl.
    rewrite PyDictFacts.dict_of_items_distinct; [reflexivity|].
    rewrite combine_keys; [assumption|].
    rewrite (traverse_length _ _ _ Hk). now rewrite length_map.
Qed.

Lemma record_properties_and_required_witness :
  get_type_info (Dataclass record_a_b) type_map =
  Ok (VDict [("type", VStr "object");
             ("properties",
               VDict [("a", VDict [("type", VStr "integer")]);
                      ("b", VDict [("type", VStr "integer")])]);
             ("required", VList [VStr "a"]);
             ("additionalProperties", VBool false)]).
Proof.
  apply (record_properties_and_required type_map record_a_b
           [type_node "integer"; type_node "integer"]
           [("a", Scalar py_int)] None [type_node "integer"]).
  - repeat constructor; simpl; intuition discriminate.
  - repeat constructor; simpl; intuition.
  - reflexivity.
  - reflexivity.
Defined.

(** ** Validated records *)

(** C8.  A pydantic model's node takes [properties] and [required] from the
    model's exported schema.  When the export has a non-empty [$defs], each
    property schema holding a [$ref] whose last path segment names a
    definition is replaced by that definition's body, taken as it is; every
    other property schema is kept.  One level only: a body that is itself a
    reference stays a reference, and a reference below the top level of a
    property schema is not touched. *)
Theorem validated_record_flattens_one_level :
  forall (base_type_map : list (builtin * string)) (schema : json_schema),
    PyDict.wf (get_properties schema) ->
    forallb (fun kv => ref_is_string (snd kv)) (get_properties schema)
      = true ->
    get_type_info (PydanticModel schema) base_type_map =
      Ok (VDict
            [("type", VStr "object");
             ("properties",
               VDict
                 (map (fun kv =>
                         (fst kv,
                          VDict (match get_defs schema with
                                 | [] => snd kv
                                 | _ => inline_ref (get_defs schema) (snd kv)
                                 end)))
                      (get_properties schema)));
             ("required", VList (map VStr (get_required schema)));
             ("additionalProperties", VBool false)])
    /\ get_type_info (PydanticModel export_with_refs) base_type_map =
       Ok (VDict
             [("type", VStr "object");
              ("properties",
                VDict
                  [("owner", VDict [("type", VStr "object");
                                    ("title", VStr "User")]);
                   ("members",
                     VDict [("type", VStr "array");
                            ("items",
                              VDict [("$ref", VStr "#/$defs/User")])]);
                   ("alias", VDict [("$ref", VStr "#/$defs/User")]);
                   ("count", VDict [("type", VStr "integer")])]);
              ("required", VList [VStr "owner"]);
              ("additionalProperties", VBool false)]).
Proof.
  intros base_type_map schema Hwf Hstr.
  split; [|reflexivity].
  cbn [get_type_info base_type_of].
  destruct (get_defs schema) as [|def defs] eqn:Hdefs.
  - cbn [bind]. unfold object_node, objects, strings. reflexivity.
  - rewrite expand_refs_all by assumption. cbn [bind].
    unfold object_node, objects, strings. rewrite map_map. reflexivity.
Qed.

Lemma validated_record_flattens_one_level_witness :
  get_type_info
    (PydanticModel
       (mkSchema (Some [("owner", ref_to "User")]) None
                 (Some [("User", [("type", VStr "object")])])))
    type_map =
  Ok (VDict
        [("type", VStr "object");
         ("properties", VDict [("owner", VDict [("type", VStr "object")])]);
         ("required", VList []);
         ("additionalProperties", VBool false)]).
Proof.
  apply (validated_record_flattens_one_level type_map
           (mkSchema (Some [("owner", ref_to "User")]) None
                     (Some [("User", [("type", VStr "object")])]))).
  - repeat constructor; simpl; intuition.
  - reflexivity.
Defined.

(** ** Record nodes are closed *)

Lemma set_rendered (k : string) (n : schema)
    (properties : list (string * schema)) :
  PyDict.set k (render n)
    (map (fun kn => (fst kn, render (snd kn))) properties)
  = map (fun kn => (fst kn, render (snd kn))) (PyDict.set k n properties).
Proof.
  induction properties as [|[k' n'] properties IH]; simpl; auto.
  destruct (String.eqb k k'); simpl; auto. now rewrite IH.
Qed.

Lemma fold_set_rendered (names : list string) (shapes : list schema) :
  forall properties : list (string * schema),
  exists properties',
    fold_left (fun d kv => PyDict.set (fst kv) (snd kv) d)
              (combine names (map render shapes))
              (map (fun kn => (fst kn, render (snd kn))) properties)
    = map (fun kn => (fst kn, render (snd kn))) properties'.
Proof.
  revert shapes. induction names as [|name names IH];
    intros [|n shapes] properties; simpl; eauto.
  rewrite set_rendered. apply IH.
Qed.

Lemma traverse_rendered {A} (f : A -> result value) (l : list A) :
  Forall (fun x => forall v, f x = Ok v -> exists n, v = render n) l ->
  forall vs, traverse f l = Ok vs -> exists shapes, vs = map render shapes.
Proof.
  induction 1 as [|x l Hx _ IH]; simpl; intros vs Hvs.
  - inversion Hvs. now exists [].
  - apply bind_Ok in Hvs as (v & Hv & Hvs).
    apply bind_Ok in Hvs as (vs' & Hvs' & Hvs). inversion Hvs; subst.
    destruct (Hx v Hv) as [n ->]. destruct (IH vs' Hvs') as [shapes ->].
    now exists (n :: shapes).
Qed.

(** Every node the resolver returns has one of the shapes of [schema]. *)
Lemma get_type_info_rendered base_type_map (a : Annotation) :
  forall node,
    get_type_info a base_type_map = Ok node -> exists n, node = render n.
Proof.
  induction a as [c|o args IH|model|fields IH|annotations required_keys IH|]
    using Annotation_ind; intros node Hnode.
  - simpl in Hnode. destruct (base_lookup c base_type_map) as [t|];
      inversion Hnode; subst.
    + now exists (SType t).
    + now exists (SType "string").
  - destruct o.
    + destruct args as [|item_type args]; [discriminate|].
      inversion IH as [|? ? Hitem _]; subst.
      cbn [get_type_info base_type_of] in Hnode.
      apply bind_Ok in Hnode as (items & Hitems & Hnode).
      inversion Hnode; subst. destruct (Hitem _ Hitems) as [n ->].
      now exists (SArray n).
    + destruct args as [|key_type [|value_type [|extra args]]];
        try discriminate.
      inversion IH as [|? ? _ IH']; subst.
      inversion IH' as [|? ? Hvalue _]; subst.
      cbn [get_type_info base_type_of] in Hnode.
      destruct (negb (is_str key_type)); [discriminate|].
      destruct (has_annotations value_type || is_BaseModel value_type);
        [now apply Hvalue|].
      apply bind_Ok in Hnode as (additional & Hadd & Hnode).
      inversion Hnode; subst. destruct (Hvalue _ Hadd) as [n ->].
      now exists (SMap n).
    + change (Generic o_Union args) with (Union args) in Hnode.
      rewrite get_type_info_Union in Hnode.
      apply bind_Ok in Hnode as (types & Htypes & Hnode).
      inversion Hnode; subst.
      assert (Hshapes : exists shapes, types = map render shapes).
      { eapply traverse_rendered; [|exact Htypes].
        clear - IH. induction IH as [|arg args Harg _ IHargs]; simpl.
        - constructor.
        - destruct (not_NoneType arg); [constructor|]; auto. }
      destruct Hshapes as [shapes ->].
      destruct shapes as [|n [|n' shapes]].
      * now exists (SOneOf []).
      * now exists n.
      * now exists (SOneOf (n :: n' :: shapes)).
    + inversion Hnode. now exists (SType "string").
  - cbn [get_type_info base_type_of] in Hnode.
    apply bind_Ok in Hnode as (properties & _ & Hnode).
    inversion Hnode; subst.
    now exists (SExport properties (get_required model)).
  - rewrite get_type_info_Dataclass in Hnode.
    apply bind_Ok in Hnode as (ts & Hts & Hnode). inversion Hnode; subst.
    destruct (traverse_rendered _ _ IH _ Hts) as [shapes ->].
    destruct (fold_set_rendered (map field_name fields) shapes [])
      as [properties Hprops].
    exists (SRecord properties
                    (map field_name (filter lacks_default fields))).
    unfold object_node, dict_of_items, strings. simpl in Hprops.
    now rewrite Hprops.
  - rewrite get_type_info_TypedDict in Hnode.
    apply bind_Ok in Hnode as (ts & Hts & Hnode). inversion Hnode; subst.
    destruct (traverse_rendered _ _ IH _ Hts) as [shapes ->].
    destruct (fold_set_rendered (map fst annotations) shapes [])
      as [properties Hprops].
    exists (SRecord properties
                    (match required_keys with
                     | Some keys => keys
                     | None => map fst annotations
                     end)).
    unfold object_node, dict_of_items, strings. simpl in Hprops.
    now rewrite Hprops.
  - inversion Hnode. now exists (SType "string").
Qed.

(** A node the resolver can place in an output without opening it: a
    dictionary in which no record-shaped node lacks the member. *)
Local Abbreviation sound v :=
  ((exists d, v = VDict d) /\ records_closed v = true).

(** A dictionary whose values are all dictionaries is not a node: it has
    no string under [type]. *)
Lemma names_not_record_shaped (entries : PyDict.t value) :
  Forall (fun kv => exists d, snd kv = VDict d) entries ->
  record_shaped entries = false.
Proof.
  intros H. unfold record_shaped.
  assert (Hget : forall k, match PyDict.get k entries with
                           | Some (VStr _) => False
                           | _ => True
                           end).
  { intros k. induction H as [|[k' v] entries [d Hd] _ IH]; simpl; auto.
    simpl in Hd. subst v. destruct (String.eqb k k'); auto. }
  specialize (Hget "type").
  destruct (PyDict.get "type" entries) as [[]|]; try reflexivity.
  contradiction.
Qed.

Lemma closed_names (entries : PyDict.t value) :
  Forall (fun kv => sound (snd kv)) entries ->
  records_closed (VDict entries) = true.
Proof.
  intros H. cbn [records_closed]. rewrite names_not_record_shaped.
  - apply forallb_forall. intros kv Hin.
    rewrite Forall_forall in H. now apply H.
  - eapply Forall_impl; [|exact H]. now intros kv [Hd _].
Qed.

Lemma closed_strings (names : list string) :
  records_closed (strings names) = true.
Proof.
  unfold strings. cbn [records_closed].
  induction names; simpl; auto.
Qed.

(** The node that ends the three record branches is closed when its
    properties are. *)
Lemma closed_object_node (properties : PyDict.t value)
    (required : list string) :
  records_closed (VDict properties) = true ->
  records_closed (object_node properties (strings required)) = true.
Proof.
  intros H. unfold object_node.
  change (records_closed (VDict properties)
          && (records_closed (strings required) && true) = true).
  now rewrite H, closed_strings.
Qed.

Lemma Forall_set {V} (P : string * V -> Prop) (k : string) (v : V)
    (d : PyDict.t V) :
  (forall k', P (k', v)) -> Forall P d -> Forall P (PyDict.set k v d).
Proof.
  intros Hv. induction 1 as [|[k' v'] d Hx Hd IH]; simpl.
  - constructor; auto.
  - destruct (String.eqb k k'); constructor; auto.
Qed.

Lemma get_Forall {V} (P : V -> Prop) (k : string) (v : V)
    (d : PyDict.t V) :
  Forall (fun kv => P (snd kv)) d -> PyDict.get k d = Some v -> P v.
Proof.
  induction 1 as [|[k' v'] d Hx _ IH]; simpl; [discriminate|].
  destruct (String.eqb k k'); [|assumption].
  intros H. now inversion H; subst.
Qed.

Lemma Forall_fold_set {V} (P : V -> Prop) (names : list string)
    (vs : list V) :
  Forall P vs ->
  forall d, Forall (fun kv => P (snd kv)) d ->
            Forall (fun kv => P (snd kv))
                   (fold_left (fun d kv => PyDict.set (fst kv) (snd kv) d)
                              (combine names vs) d).
Proof.
  intros Hvs. revert names.
  induction Hvs as [|v vs Hv _ IH]; intros [|name names] d Hd; simpl; auto.
  apply IH. apply Forall_set; auto.
Qed.

Lemma traverse_Forall {A} (f : A -> result value) (keep : A -> bool)
    (P : value -> Prop) (l : list A) :
  Forall (fun x => forall v, f x = Ok v -> keep x = true -> P v) l ->
  forallb keep l = true ->
  forall vs, traverse f l = Ok vs -> Forall P vs.
Proof.
  induction 1 as [|x l Hx _ IH]; simpl; intros Hkeep vs Hvs.
  - inversion Hvs. constructor.
  - apply andb_true_iff in Hkeep as [Hk Hkeep].
    apply bind_Ok in Hvs as (v & Hv & Hvs).
    apply bind_Ok in Hvs as (vs' & Hvs' & Hvs). inversion Hvs; subst.
    constructor; auto.
Qed.

(** The loop over an export replaces property schemas by definition
    bodies: what holds of both holds of the result. *)
Lemma expand_refs_Forall (P : PyDict.t value -> Prop)
    (definitions : PyDict.t (PyDict.t value)) :
  Forall (fun kd => P (snd kd)) definitions ->
  forall items properties properties',
    Forall (fun kd => P (snd kd)) properties ->
    expand_refs definitions items properties = Ok properties' ->
    Forall (fun kd => P (snd kd)) properties'.
Proof.
  intros Hdefs.
  induction items as [|[prop_name prop_schema] items IH];
    intros properties properties' Hprops H; simpl in H.
  - now inversion H; subst.
  - destruct (PyDict.get "$ref" prop_schema) as [[| | |ref| |]|];
      try discriminate; [|eauto].
    destruct (PyDict.get (split_last "/" ref) definitions) as [body|]
      eqn:Hbody; [|eauto].
    apply (IH _ _ (Forall_set _ prop_name body _
                              (fun _ => get_Forall P _ _ _ Hdefs Hbody)
                              Hprops) H).
Qed.

(** No record-shaped node of an output lacks the member, unless the export
    of a pydantic model brings one in. *)
Lemma get_type_info_closed base_type_map (a : Annotation) :
  forall node,
    get_type_info a base_type_map = Ok node ->
    exports_closed a = true ->
    sound node.
Proof.
  induction a as [c|o args IH|model|fields IH|annotations required_keys IH|]
    using Annotation_ind; intros node Hnode Hexp.
  - simpl in Hnode. destruct (base_lookup c base_type_map) as [t|];
      inversion Hnode; subst; (split; [unfold type_node; eauto|]);
      unfold type_node; cbn [records_closed forallb snd];
      unfold record_shaped; simpl PyDict.mem;
      now rewrite andb_false_r.
  - cbn [exports_closed] in Hexp. destruct o.
    + destruct args as [|item_type args]; [discriminate|].
      inversion IH as [|? ? Hitem _]; subst.
      simpl in Hexp. apply andb_true_iff in Hexp as [Hexp _].
      cbn [get_type_info base_type_of] in Hnode.
      apply bind_Ok in Hnode as (items & Hitems & Hnode).
      inversion Hnode; subst. split; [eauto|].
      destruct (Hitem _ Hitems Hexp) as [_ Hclosed].
      cbn [records_closed forallb snd]. rewrite Hclosed. reflexivity.
    + destruct args as [|key_type [|value_type [|extra args]]];
        try discriminate.
      inversion IH as [|? ? _ IH']; subst.
      inversion IH' as [|? ? Hvalue _]; subst.
      simpl in Hexp. apply andb_true_iff in Hexp as [_ Hexp].
      apply andb_true_iff in Hexp as [Hexp _].
      cbn [get_type_info base_type_of] in Hnode.
      destruct (negb (is_str key_type)); [discriminate|].
      destruct (has_annotations value_type || is_BaseModel value_type);
        [now apply Hvalue|].
      apply bind_Ok in Hnode as (additional & Hadd & Hnode).
      inversion Hnode; subst. split; [eauto|].
      destruct (Hvalue _ Hadd Hexp) as [_ Hclosed].
      cbn [records_closed forallb snd]. rewrite Hclosed. reflexivity.
    + change (Generic o_Union args) with (Union args) in Hnode.
      rewrite get_type_info_Union in Hnode.
      apply bind_Ok in Hnode as (types & Htypes & Hnode).
      inversion Hnode; subst.
      assert (Hall : Forall (fun v => sound v) types).
      { eapply (traverse_Forall _ exports_closed (fun v => sound v));
          [| |exact Htypes].
        - apply Forall_forall. intros arg Hin.
          apply filter_In in Hin as [Hin _].
          rewrite Forall_forall in IH. now apply IH.
        - apply forallb_forall. intros arg Hin.
          apply filter_In in Hin as [Hin _].
          rewrite forallb_forall in Hexp. now apply Hexp. }
      assert (Hone : sound (oneOf types)).
      { split; [unfold oneOf; eauto|]. unfold oneOf.
        cbn [records_closed forallb snd]. rewrite andb_true_r.
        unfold record_shaped. simpl.
        apply forallb_forall. intros v Hin.
        rewrite Forall_forall in Hall. now apply Hall. }
      destruct types as [|t [|t' types]]; try exact Hone.
      now inversion Hall.
    + inversion Hnode. split; [unfold type_node; eauto | reflexivity].
  - cbn [exports_closed] in Hexp.
    apply andb_true_iff in Hexp as [Hprops Hdefs].
    cbn [get_type_info base_type_of] in Hnode.
    apply bind_Ok in Hnode as (properties & Hexpand & Hnode).
    inversion Hnode; subst. split; [unfold object_node; eauto|].
    apply closed_object_node, closed_names.
    assert (Hall : Forall (fun kd => records_closed (VDict (snd kd)) = true)
                          properties).
    { rewrite forallb_forall in Hprops, Hdefs.
      destruct (get_defs model) as [|def defs] eqn:Hd.
      - inversion Hexpand; subst. now apply Forall_forall.
      - eapply (expand_refs_Forall
                  (fun d => records_closed (VDict d) = true));
          [| |exact Hexpand]; now apply Forall_forall. }
    unfold objects. apply Forall_forall. intros kv Hin.
    apply in_map_iff in Hin as (kd & <- & Hin). simpl.
    rewrite Forall_forall in Hall. split; [eauto | now apply Hall].
  - cbn [exports_closed] in Hexp.
    rewrite get_type_info_Dataclass in Hnode.
    apply bind_Ok in Hnode as (ts & Hts & Hnode). inversion Hnode; subst.
    split; [unfold object_node; eauto|].
    apply closed_object_node, closed_names.
    unfold dict_of_items.
    apply (Forall_fold_set (fun v => sound v)); [|constructor].
    eapply (traverse_Forall _ (fun f => exports_closed (field_type f))
                            (fun v => sound v)); [| |exact Hts].
    + exact IH.
    + exact Hexp.
  - cbn [exports_closed] in Hexp.
    rewrite get_type_info_TypedDict in Hnode.
    apply bind_Ok in Hnode as (ts & Hts & Hnode). inversion Hnode; subst.
    split; [unfold object_node; eauto|].
    apply closed_object_node, closed_names.
    unfold dict_of_items.
    apply (Forall_fold_set (fun v => sound v)); [|constructor].
    eapply (traverse_Forall _ (fun kt => exports_closed (snd kt))
                            (fun v => sound v)); [| |exact Hts].
    + exact IH.
    + exact Hexp.
  - inversion Hnode. split; [unfold type_node; eauto | reflexivity].
Qed.




(** ** The descriptor *)

Lemma NoDup_map_filter {A B} (f : A -> B) (keep : A -> bool) (l : list A) :
  NoDup (map f l) -> NoDup (map f (filter keep l)).
Proof.
  induction l as [|x l IH]; simpl; intros Hnd; [constructor|].
  inversion Hnd as [|? ? Hnotin Hnd']; subst.
  destruct (keep x); simpl; auto.
  constructor; auto.
  intros Hin. apply Hnotin.
  apply in_map_iff in Hin as (y & Hy & Hin).
  apply filter_In in Hin as [Hin _].
  rewrite <- Hy. now apply in_map.
Qed.

(** The descriptor of a callable whose advertised parameters resolve. *)
Lemma function_to_json_resolved func params nodes :
  func_signature func = inr params ->
  NoDup (map param_name params) ->
  traverse (fun p => get_type_info (param_annotation p) type_map)
           (filter advertised params) = Ok nodes ->
  function_to_json func =
  Ok (VDict
        [("type", VStr "function");
         ("function",
           VDict
             [("name", VStr (func_name func));
              ("description", VStr (doc_or_empty (func_doc func)));
              ("parameters",
                VDict
                  [("type", VStr "object");
                   ("properties",
                     VDict (combine
                              (map param_name (filter advertised params))
                              nodes));
                   ("required", strings (required_names params))])])]).
Proof.
  intros Hsig Hnd Hnodes. unfold function_to_json. rewrite Hsig.
  rewrite compile_parameters_traverse, Hnodes. cbn [bind].
  change (fold_left _ ?items []) with (dict_of_items items).
  rewrite PyDictFacts.dict_of_items_distinct; [reflexivity|].
  rewrite combine_keys.
  - now apply NoDup_map_filter.
  - rewrite (traverse_length _ _ _ Hnodes). now rewrite length_map.
Qed.

(** C7.  The descriptor is [{"type": "function", "function": {"name",
    "description", "parameters": {"type": "object", "properties",
    "required"}}}] with the callable's name, its docstring or the empty
    string, the resolved parameters in declaration order and the names
    without default; [search(query: str, limit: int = 10)] with docstring
    "Searches." compiles to the descriptor of the specification. *)
Theorem descriptor_of_a_callable :
  forall (func : Callable) (params : list Param) (nodes : list value),
    func_signature func = inr params ->
    NoDup (map param_name params) ->
    traverse (fun p => get_type_info (param_annotation p) type_map)
             (filter advertised params) = Ok nodes ->
    function_to_json func =
      Ok (VDict
            [("type", VStr "function");
             ("function",
               VDict
                 [("name", VStr (func_name func));
                  ("description",
                    VStr (match func_doc func with
                          | Some doc => doc
                          | None => ""
                          end));
                  ("parameters",
                    VDict
                      [("type", VStr "object");
                       ("properties",
                         VDict (combine
                                  (map param_name (filter advertised params))
                                  nodes));
                       ("required",
                         VList (map VStr
                                  (map param_name
                                     (filter default_is_empty params))))])])])
    /\ function_to_json search =
       Ok (VDict
             [("type", VStr "function");
              ("function",
                VDict
                  [("name", VStr "search");
                   ("description", VStr "Searches.");
                   ("parameters",
                     VDict
                       [("type", VStr "object");
                        ("properties",
                          VDict [("query", VDict [("type", VStr "string")]);
                                 ("limit", VDict [("type", VStr "integer")])]);
                        ("required", VList [VStr "query"])])])]).
Proof.
  intros func params nodes Hsig Hnd Hnodes. split; [|reflexivity].
  now apply function_to_json_resolved.
Qed.

Lemma descriptor_of_a_callable_witness :
  function_to_json undocumented =
  Ok (VDict
        [("type", VStr "function");
         ("function",
           VDict
             [("name", VStr "ping");
              ("description", VStr "");
              ("parameters",
                VDict
                  [("type", VStr "object");
                   ("properties",
                     VDict [("host", VDict [("type", VStr "string")])]);
                   ("required", VList [VStr "host"])])])]).
Proof.
  apply (descriptor_of_a_callable undocumented
           [mkParam "host" (Scalar py_str) None] [type_node "string"]).
  - reflexivity.
  - repeat constructor; simpl; intuition.
  - reflexivity.
Defined.

(** ** Where the resolver raises *)

Lemma returns_bind {A B} (r : result A) (k : A -> result B) :
  returns (bind r k) <-> exists a, r = Ok a /\ returns (k a).
Proof.
  unfold returns. destruct r as [a|e]; simpl; split.
  - intros [b Hb]. eauto.
  - intros (a' & Ha & Hb). now inversion Ha; subst.
  - intros [b Hb]. discriminate.
  - intros (a' & Ha & _). discriminate.
Qed.

Lemma returns_Ok {A} (a : A) : returns (Ok a).
Proof. now exists a. Qed.

Lemma returns_traverse {A B} (f : A -> result B) (l : list A) :
  returns (traverse f l) <-> Forall (fun x => returns (f x)) l.
Proof.
  induction l as [|x l IH]; simpl.
  - split; [constructor | intros; apply returns_Ok].
  - rewrite returns_bind. split.
    + intros (y & Hy & Hrest). apply returns_bind in Hrest as (ys & Hys & _).
      constructor; [now exists y | apply IH; now exists ys].
    + intros H. inversion H as [|? ? [y Hy] Hl]; subst.
      apply IH in Hl as [ys Hys].
      exists y. split; [assumption|]. rewrite Hys. apply returns_Ok.
Qed.

Lemma returns_expand_refs definitions items : forall properties,
  returns (expand_refs definitions items properties) <->
  forallb (fun kv => ref_is_string (snd kv)) items = true.
Proof.
  induction items as [|[prop_name prop_schema] items IH]; intros properties;
    simpl.
  - split; [reflexivity | intros; apply returns_Ok].
  - unfold ref_is_string at 1. simpl.
    destruct (PyDict.get "$ref" prop_schema) as [[| | |ref| |]|]; simpl;
      try (split; [intros [? ?]; discriminate | discriminate]);
      try apply IH.
    destruct (PyDict.get (split_last "/" ref) definitions); apply IH.
Qed.

Lemma forallb_Forall_iff {A} (p : A -> bool) (P : A -> Prop) (l : list A) :
  Forall (fun x => p x = true <-> P x) l ->
  forallb p l = true <-> Forall P l.
Proof.
  induction 1 as [|x l Hx Hl IH]; simpl.
  - split; [constructor | reflexivity].
  - rewrite andb_true_iff, IH, Hx. split.
    + intros [? ?]. now constructor.
    + intros H. now inversion H.
Qed.

(** [get_type_info] returns exactly on the resolvable annotations. *)
Lemma get_type_info_returns_iff base_type_map (a : Annotation) :
  resolvable base_type_map a = true <->
  returns (get_type_info a base_type_map).
Proof.
  induction a as [c|o args IH|schema|fields IH|annotations required_keys IH|]
    using Annotation_ind.
  - simpl. destruct (base_lookup c base_type_map);
      split; intros; try reflexivity; apply returns_Ok.
  - destruct o.
    + (* list *)
      destruct args as [|item_type args]; simpl.
      * split; [discriminate | intros [? ?]; discriminate].
      * inversion IH as [|? ? Hitem _]; subst. rewrite Hitem.
        rewrite returns_bind. split.
        -- intros [items Hitems]. exists items. split; [assumption|].
           apply returns_Ok.
        -- intros (items & Hitems & _). now exists items.
    + (* dict *)
      destruct args as [|key_type [|value_type [|extra args]]];
        try (simpl; split; [discriminate | intros [? ?]; discriminate]).
      cbn [resolvable get_type_info base_type_of].
      inversion IH as [|? ? _ IH']; subst.
      inversion IH' as [|? ? Hvalue _]; subst.
      destruct (is_str key_type); cbn [negb andb].
      * rewrite Hvalue.
        destruct (has_annotations value_type || is_BaseModel value_type);
          [reflexivity|].
        rewrite returns_bind. split.
        -- intros [v Hv]. exists v. split; [assumption | apply returns_Ok].
        -- intros (v & Hv & _). now exists v.
      * split; [discriminate | intros [? ?]; discriminate].
    + (* Union *)
      change (Generic o_Union args) with (Union args).
      rewrite get_type_info_Union. unfold Union.
      cbn [resolvable base_type_of].
      rewrite returns_bind.
      transitivity
        (returns (traverse (fun a => get_type_info a base_type_map)
                           (filter not_NoneType args))).
      * rewrite returns_traverse.
        clear - IH. induction IH as [|arg args Harg _ IHargs]; simpl.
        -- split; [constructor | reflexivity].
        -- unfold not_NoneType at 1.
           destruct (is_NoneType arg); simpl; [exact IHargs|].
           rewrite andb_true_iff, Harg, IHargs. split.
           ++ intros [? ?]. now constructor.
           ++ intros H. now inversion H.
      * split.
        -- intros [ts Hts]. exists ts. split; [assumption | apply returns_Ok].
        -- intros (ts & Hts & _). now exists ts.
    + (* any other origin *)
      simpl. split; [intros; apply returns_Ok | reflexivity].
  - (* pydantic model *)
    cbn [resolvable get_type_info base_type_of].
    rewrite returns_bind.
    destruct (get_defs schema) as [|def defs].
    + split; [|reflexivity]. intros _.
      eexists. split; [reflexivity | apply returns_Ok].
    + rewrite <- (returns_expand_refs (def :: defs) (get_properties schema)
                                      (get_properties schema)).
      split.
      * intros [r Hr]. exists r. split; [assumption | apply returns_Ok].
      * intros (r & Hr & _). now exists r.
  - (* dataclass *)
    rewrite get_type_info_Dataclass. cbn [resolvable base_type_of].
    rewrite returns_bind.
    rewrite (forallb_Forall_iff _
               (fun f => returns (get_type_info (field_type f) base_type_map)))
      by exact IH.
    rewrite <- returns_traverse. split.
    + intros [ts Hts]. exists ts. split; [assumption | apply returns_Ok].
    + intros (ts & Hts & _). now exists ts.
  - (* TypedDict *)
    rewrite get_type_info_TypedDict. cbn [resolvable base_type_of].
    rewrite returns_bind.
    rewrite (forallb_Forall_iff _
               (fun kt => returns (get_type_info (snd kt) base_type_map)))
      by exact IH.
    rewrite <- returns_traverse. split.
    + intros [ts Hts]. exists ts. split; [assumption | apply returns_Ok].
    + intros (ts & Hts & _). now exists ts.
  - simpl. split; [intros; apply returns_Ok | reflexivity].
Qed.

(** ** Mapping keys *)

(** A mapping whose key annotation is not [str] raises, whatever the value
    annotation is. *)
Lemma non_string_key_raises base_type_map (key value : Annotation) :
  is_str key = false ->
  get_type_info (Mapping key value) base_type_map =
  Raise (ValueError "Dictionary keys must be strings").
Proof.
  intros Hkey. unfold Mapping. cbn [get_type_info base_type_of].
  now rewrite Hkey.
Qed.

(** An exception of the resolver leaves [function_to_json] unchanged. *)
Lemma function_to_json_propagates func params e :
  func_signature func = inr params ->
  traverse (fun p => get_type_info (param_annotation p) type_map)
           (filter advertised params) = Raise e ->
  function_to_json func = Raise e.
Proof.
  intros Hsig Hraise. unfold function_to_json. rewrite Hsig.
  now rewrite compile_parameters_traverse, Hraise.
Qed.

Example integer_keyed_mapping_raises :
  get_type_info (Mapping (Scalar py_int) (Scalar py_str)) type_map =
  Raise (ValueError "Dictionary keys must be strings").
Proof. reflexivity. Qed.

(** C3.  A mapping with a non-string key is not the only input on which
    the resolver raises.  The bare [typing.List] has origin [list] and no
    arguments, and taking the first of the empty argument tuple raises
    [IndexError]; the bare [typing.Dict] has origin [dict] and no arguments,
    and unpacking the empty tuple raises [ValueError].  Neither annotation
    holds a mapping key, and [function_to_json] lets both exceptions
    through. *)
Theorem resolver_raises_on_bare_generics :
  forall base_type_map : list (builtin * string),
    get_type_info (Generic o_list []) base_type_map =
      Raise (IndexError "tuple index out of range")
    /\ get_type_info (Generic o_dict []) base_type_map =
      Raise (ValueError "not enough values to unpack (expected 2, got 0)")
    /\ function_to_json load =
      Raise (ValueError "not enough values to unpack (expected 2, got 0)").
Proof. intros base_type_map. repeat split. Qed.

(** ** The fallback *)

(** Annotations that pass none of the resolver's tests resolve to the string
    node. *)
Lemma unrecognised_is_string base_type_map (c : builtin)
    (args : list Annotation) :
  get_type_info Other base_type_map = Ok (type_node "string")
  /\ get_type_info (Generic o_other args) base_type_map =
     Ok (type_node "string")
  /\ (base_lookup c base_type_map = None ->
      get_type_info (Builtin c) base_type_map = Ok (type_node "string")).
Proof.
  repeat split. intros Hc. simpl. now rewrite Hc.
Qed.

(** C6.  The resolver returns exactly on the [resolvable] annotations.
    The bare [typing.List] is not one of them: it passes the [list] test of
    the resolver, which then reads an element argument that is not there.
    It is neither resolved to the string node nor to any other node, and
    [function_to_json] raises with it. *)
Theorem bare_List_is_not_degraded :
  forall (base_type_map : list (builtin * string)) (a : Annotation),
    ((exists node, get_type_info a base_type_map = Ok node) <->
     resolvable base_type_map a = true)
    /\ resolvable base_type_map (Generic o_list []) = false
    /\ get_type_info (Generic o_list []) base_type_map =
       Raise (IndexError "tuple index out of range")
    /\ function_to_json total = Raise (IndexError "tuple index out of range").
Proof.
  intros base_type_map a. split; [|repeat split].
  symmetry. apply get_type_info_returns_iff.
Qed.

(** ** The reserved parameter *)

(** A reserved parameter without a default is listed in [required]. *)
Lemma reserved_listed_when_no_default params param :
  In param params ->
  param_name param = "context_variables" ->
  param_default param = None ->
  In "context_variables" (required_names params).
Proof.
  intros Hin Hname Hdefault. unfold required_names.
  rewrite <- Hname. apply in_map. apply filter_In. split; [assumption|].
  unfold default_is_empty. now rewrite Hdefault.
Qed.

(** C1.  When a callable declares the reserved parameter without a
    default, the descriptor [function_to_json] returns has no entry for it
    in [properties] and lists it in [required]: the loop that fills
    [properties] skips the name, the comprehension that builds [required]
    does not. *)
Theorem reserved_parameter_is_required :
  forall (func : Callable) (params : list Param) (param : Param)
         (descriptor : value),
    func_signature func = inr params ->
    In param params ->
    param_name param = "context_variables" ->
    param_default param = None ->
    function_to_json func = Ok descriptor ->
    exists properties required,
      descriptor =
        VDict
          [("type", VStr "function");
           ("function",
             VDict
               [("name", VStr (func_name func));
                ("description", VStr (doc_or_empty (func_doc func)));
                ("parameters",
                  VDict
                    [("type", VStr "object");
                     ("properties", VDict properties);
                     ("required", VList (map VStr required))])])]
      /\ PyDict.get "context_variables" properties = None
      /\ In "context_variables" required.
Proof.
  intros func params param descriptor Hsig Hin Hname Hdefault Hjson.
  unfold function_to_json in Hjson. rewrite Hsig in Hjson.
  apply bind_Ok in Hjson as (properties & Hprops & Hjson).
  inversion Hjson; subst; clear Hjson.
  exists properties, (required_names params). split; [reflexivity|]. split.
  - eapply reserved_not_in_properties; eauto.
  - eapply reserved_listed_when_no_default; eauto.
Qed.

Lemma reserved_parameter_is_required_witness :
  exists properties required,
    VDict
      [("type", VStr "function");
       ("function",
         VDict
           [("name", VStr "lookup");
            ("description", VStr "");
            ("parameters",
              VDict
                [("type", VStr "object");
                 ("properties",
                   VDict [("query", VDict [("type", VStr "string")])]);
                 ("required",
                   VList [VStr "context_variables"; VStr "query"])])])]
    = VDict
        [("type", VStr "function");
         ("function",
           VDict
             [("name", VStr (func_name lookup));
              ("description", VStr (doc_or_empty (func_doc lookup)));
              ("parameters",
                VDict
                  [("type", VStr "object");
                   ("properties", VDict properties);
                   ("required", VList (map VStr required))])])]
    /\ PyDict.get "context_variables" properties = None
    /\ In "context_variables" required.
Proof.
  apply (reserved_parameter_is_required lookup
           [mkParam "context_variables" Other None;
            mkParam "query" (Scalar py_str) None]
           (mkParam "context_variables" Other None)).
  - reflexivity.
  - simpl. auto.
  - reflexivity.
  - reflexivity.
  - reflexivity.
Defined.

(** * The store-level code refines the pure code *)

Module HeapFacts.
Local Abbreviation pure_get_type_info := get_type_info.
Local Abbreviation pure_expand_refs := expand_refs.
Local Abbreviation pure_object_node := object_node.
Local Abbreviation pure_compile_parameters := compile_parameters.
Local Abbreviation pure_function_to_json := function_to_json.
Import Heap HeapLogic.

(** ** What a store location stands for *)

Lemma Forall2_impl {A B} (R R' : A -> B -> Prop) l l' :
  (forall a b, R a b -> R' a b) -> Forall2 R l l' -> Forall2 R' l l'.
Proof. intros HR. induction 1; constructor; auto. Qed.

Lemma entry_rep_impl {A B} (R R' : A -> B -> Prop) he ve :
  (forall a b, R a b -> R' a b) -> entry_rep R he ve -> entry_rep R' he ve.
Proof. intros HR [Hk Hv]. split; auto. Qed.

(** Representation survives any change of footprint and store that keeps
    the objects it reads. *)
Lemma represents_mono (F F' : loc -> Prop) (s s' : store) h v :
  (forall l o, F l -> nth_error s l = Some o ->
               F' l /\ nth_error s' l = Some o) ->
  represents F s h v -> represents F' s' h v.
Proof.
  intros Hkeep H.
  induction H as [| | | |l hs vs HF Hl IH|l hes ves HF Hl IH]
    using represents_nested_ind; try constructor.
  - destruct (Hkeep _ _ HF Hl) as [HF' Hl'].
    apply rep_List with hs; auto.
  - destruct (Hkeep _ _ HF Hl) as [HF' Hl'].
    apply rep_Dict with hes; auto.
Qed.

(** ** Stores grow *)

Lemma extends_refl (s : store) : extends s s.
Proof. exists []. now rewrite app_nil_r. Qed.

Lemma extends_trans (s1 s2 s3 : store) :
  extends s1 s2 -> extends s2 s3 -> extends s1 s3.
Proof.
  intros [n1 ->] [n2 ->]. exists (n1 ++ n2). now rewrite app_assoc.
Qed.

Lemma extends_alloc (s : store) (o : object) : extends s (s ++ [o]).
Proof. now exists [o]. Qed.

Lemma extends_length (s s' : store) : extends s s' -> length s <= length s'.
Proof. intros [new ->]. rewrite length_app. lia. Qed.

Lemma extends_nth_error (s s' : store) (l : loc) (o : object) :
  extends s s' -> nth_error s l = Some o -> nth_error s' l = Some o.
Proof.
  intros [new ->] H. rewrite nth_error_app1; [assumption|].
  apply nth_error_Some. congruence.
Qed.

Lemma nth_error_alloc (s : store) (o : object) : nth_error (s ++ [o]) (length s) = Some o.
Proof. rewrite nth_error_app2, Nat.sub_diag; auto. Qed.

Lemma length_update (l : loc) (o : object) (s : store) : length (update l o s) = length s.
Proof.
  revert l. induction s as [|o' s IH]; intros [|l]; simpl; auto.
Qed.

Lemma nth_error_update_same (l : loc) (o : object) (s : store) :
  l < length s -> nth_error (update l o s) l = Some o.
Proof.
  revert l. induction s as [|o' s IH]; intros [|l]; simpl; try lia; auto.
  intros H. apply IH. lia.
Qed.

Lemma nth_error_update_other (l l' : loc) (o : object) (s : store) :
  l <> l' -> nth_error (update l o s) l' = nth_error s l'.
Proof.
  revert l l'. induction s as [|o' s IH]; intros [|l] [|l']; simpl;
    auto; try congruence.
Qed.

Lemma update_app (l : loc) (o : object) (s new : store) :
  length s <= l -> update l o (s ++ new) = s ++ update (l - length s) o new.
Proof.
  revert l. induction s as [|o' s IH]; intros l Hl; simpl.
  - now rewrite Nat.sub_0_r.
  - destruct l as [|l]; simpl in *; [lia|].
    rewrite IH by lia. reflexivity.
Qed.

Lemma extends_update (s0 s : store) (l : loc) (o : object) :
  length s0 <= l -> extends s0 s -> extends s0 (update l o s).
Proof.
  intros Hl [new ->]. rewrite update_app by assumption. now eexists.
Qed.

(** ** Running a computation *)

Lemma runs_ret {A} (a : A) s (Q : A -> store -> Prop) :
  Q a s -> runs (ret a) s Q.
Proof. intros H. now exists a, s. Qed.

Lemma runs_bind {A B} (c : M A) (k : A -> M B) s (Q : B -> store -> Prop) :
  runs c s (fun a s' => runs (k a) s' Q) -> runs (bindM c k) s Q.
Proof.
  intros (a & s' & Hc & b & s'' & Hk & HQ).
  exists b, s''. unfold bindM. now rewrite Hc.
Qed.

Lemma runs_weaken {A} (c : M A) s (Q Q' : A -> store -> Prop) :
  runs c s Q -> (forall a s', Q a s' -> Q' a s') -> runs c s Q'.
Proof. intros (a & s' & Hc & HQ) H. exists a, s'. auto. Qed.

Lemma runs_alloc o s (Q : loc -> store -> Prop) :
  Q (length s) (s ++ [o]) -> runs (alloc o) s Q.
Proof. intros H. now exists (length s), (s ++ [o]). Qed.

Lemma runs_entries_of l es s (Q : PyDict.t hvalue -> store -> Prop) :
  nth_error s l = Some (ODict es) -> Q es s -> runs (entries_of l) s Q.
Proof.
  intros Hl H. exists es, s. unfold entries_of. now rewrite Hl.
Qed.

Lemma runs_setitem d k v es s (Q : unit -> store -> Prop) :
  nth_error s d = Some (ODict es) ->
  Q tt (update d (ODict (PyDict.set k v es)) s) ->
  runs (setitem d k v) s Q.
Proof.
  intros Hd H. apply runs_bind. apply runs_entries_of with es; auto.
  now exists tt, (update d (ODict (PyDict.set k v es)) s).
Qed.

Lemma runs_delitem d k es s (Q : unit -> store -> Prop) :
  nth_error s d = Some (ODict es) ->
  Q tt (update d (ODict (PyDict.del k es)) s) ->
  runs (delitem d k) s Q.
Proof.
  intros Hd H. apply runs_bind. apply runs_entries_of with es; auto.
  now exists tt, (update d (ODict (PyDict.del k es)) s).
Qed.

Lemma runs_contains d k es s (Q : bool -> store -> Prop) :
  nth_error s d = Some (ODict es) ->
  Q (PyDict.mem k es) s ->
  runs (contains d k) s Q.
Proof.
  intros Hd H. apply runs_bind. apply runs_entries_of with es; auto.
  now apply runs_ret.
Qed.

Lemma runs_append l v items s (Q : unit -> store -> Prop) :
  nth_error s l = Some (OList items) ->
  Q tt (update l (OList (items ++ [v])) s) ->
  runs (append l v) s Q.
Proof.
  intros Hl H. apply runs_bind. exists items, s. split.
  - unfold items_of. now rewrite Hl.
  - now exists tt, (update l (OList (items ++ [v])) s).
Qed.

(** An exception raised after a prefix that returns. *)
Lemma raises_bind {A B} (c : M A) (k : A -> M B) s e :
  runs c s (fun a s' => k a s' = Raise e) -> bindM c k s = Raise e.
Proof. intros (a & s' & Hc & Hk). unfold bindM. now rewrite Hc. Qed.

Lemma raises_first {A B} (c : M A) (k : A -> M B) s e :
  c s = Raise e -> bindM c k s = Raise e.
Proof. intros Hc. unfold bindM. now rewrite Hc. Qed.

(** ** Building a value from scratch *)

Lemma represents_extends (s0 s s' : store) h v :
  extends s s' ->
  represents (since s0) s h v -> represents (since s0) s' h v.
Proof.
  intros Hext. apply represents_mono. intros l o HF Hl. split; auto.
  eapply extends_nth_error; eauto.
Qed.

Lemma represents_since (s0 s1 s : store) h v :
  extends s0 s1 ->
  represents (since s1) s h v -> represents (since s0) s h v.
Proof.
  intros Hext. apply represents_mono. intros l o HF Hl. split; auto.
  unfold since in *. apply extends_length in Hext. lia.
Qed.

Local Open Scope heap_scope.

Lemma new_values_spec (items : list value) :
  Forall (fun v => forall s, runs (new_value v) s (fresh_rep s v)) items ->
  forall s,
    runs ((fix each (vs : list value) : M (list hvalue) :=
             match vs with
             | [] => ret []
             | v :: vs' =>
                 h <- new_value v ;; hs <- each vs' ;; ret (h :: hs)
             end) items) s
         (fun hs s' =>
            extends s s' /\ Forall2 (represents (since s) s') hs items).
Proof.
  induction 1 as [|v items Hv _ IH]; intros s.
  - apply runs_ret. split; [apply extends_refl | constructor].
  - apply runs_bind. eapply runs_weaken; [apply Hv|].
    intros h s1 [Hext1 Hh]. apply runs_bind.
    eapply runs_weaken; [apply IH|].
    intros hs s2 [Hext2 Hhs]. apply runs_ret. split.
    + eapply extends_trans; eauto.
    + constructor.
      * eapply represents_extends; eauto.
      * eapply Forall2_impl; [|exact Hhs].
        intros h' v'. now apply represents_since.
Qed.

Lemma new_entries_spec (ves : PyDict.t value) :
  Forall (fun kv => forall s, runs (new_value (snd kv)) s
                                   (fresh_rep s (snd kv))) ves ->
  forall s,
    runs (new_entries ves) s
         (fun hes s' =>
            extends s s'
            /\ Forall2 (entry_rep (represents (since s) s')) hes ves).
Proof.
  induction 1 as [|[k v] ves Hv _ IH]; intros s; cbn [new_entries].
  - apply runs_ret. split; [apply extends_refl | constructor].
  - apply runs_bind. eapply runs_weaken; [apply Hv|].
    intros h s1 [Hext1 Hh]. apply runs_bind.
    eapply runs_weaken; [apply IH|].
    intros hes s2 [Hext2 Hhes]. apply runs_ret. split.
    + eapply extends_trans; eauto.
    + constructor.
      * split; [reflexivity|]. eapply represents_extends; eauto.
      * eapply Forall2_impl; [|exact Hhes].
        intros he ve. apply entry_rep_impl.
        intros h' v'. now apply represents_since.
Qed.

Lemma since_alloc (s0 s : store) : extends s0 s -> since s0 (length s).
Proof. intros H. apply extends_length in H. exact H. Qed.

Lemma new_value_spec (v : value) :
  forall s, runs (new_value v) s (fresh_rep s v).
Proof.
  induction v as [| | | |items IH|entries IH] using value_nested_ind;
    intros s; try (apply runs_ret; split;
                   [apply extends_refl | constructor]).
  - cbn [new_value]. apply runs_bind.
    eapply runs_weaken; [apply new_values_spec, IH|].
    intros hs s1 [Hext Hhs]. apply runs_bind. apply runs_alloc.
    apply runs_ret. split.
    + eapply extends_trans; [eauto | apply extends_alloc].
    + apply rep_List with hs.
      * now apply since_alloc.
      * apply nth_error_alloc.
      * eapply Forall2_impl; [|exact Hhs].
        intros h v. apply represents_extends, extends_alloc.
  - change (new_value (VDict entries))
      with (hes <- new_entries entries ;;
            l <- alloc (ODict hes) ;; ret (HRef l)).
    apply runs_bind.
    eapply runs_weaken; [apply new_entries_spec, IH|].
    intros hes s1 [Hext Hhes]. apply runs_bind. apply runs_alloc.
    apply runs_ret. split.
    + eapply extends_trans; [eauto | apply extends_alloc].
    + apply rep_Dict with hes.
      * now apply since_alloc.
      * apply nth_error_alloc.
      * eapply Forall2_impl; [|exact Hhes].
        intros he ve. apply entry_rep_impl.
        intros h v. apply represents_extends, extends_alloc.
Qed.

Lemma new_dict_spec (d : PyDict.t value) :
  forall s,
    runs (new_entries d) s
         (fun hes s' =>
            extends s s'
            /\ Forall2 (entry_rep (represents (since s) s')) hes d).
Proof.
  apply new_entries_spec. apply Forall_forall.
  intros kv _. apply new_value_spec.
Qed.

(** ** Dictionary operations respect representation *)

Section related_entries.
Context {A B : Type} (R : A -> B -> Prop).
Implicit Types (hes : PyDict.t A) (ves : PyDict.t B).

Lemma get_rep k hes ves :
  Forall2 (entry_rep R) hes ves ->
  match PyDict.get k hes, PyDict.get k ves with
  | Some h, Some v => R h v
  | None, None => True
  | _, _ => False
  end.
Proof.
  induction 1 as [|[k1 h] [k2 v] hes ves [Hk Hv] _ IH]; simpl; auto.
  simpl in Hk. subst k2. destruct (String.eqb k k1); auto.
Qed.

Lemma mem_rep k hes ves :
  Forall2 (entry_rep R) hes ves -> PyDict.mem k hes = PyDict.mem k ves.
Proof.
  intros H. apply (get_rep k) in H. unfold PyDict.mem.
  destruct (PyDict.get k hes), (PyDict.get k ves); tauto.
Qed.

Lemma set_rep k h v hes ves :
  R h v -> Forall2 (entry_rep R) hes ves ->
  Forall2 (entry_rep R) (PyDict.set k h hes) (PyDict.set k v ves).
Proof.
  intros Hhv.
  induction 1 as [|[k1 h1] [k2 v1] hes ves [Hk Hv] Hall IH]; simpl.
  - repeat constructor; auto.
  - simpl in Hk. subst k2. destruct (String.eqb k k1).
    + constructor; auto. split; auto.
    + constructor; auto. split; auto.
Qed.

Lemma del_rep k hes ves :
  Forall2 (entry_rep R) hes ves ->
  Forall2 (entry_rep R) (PyDict.del k hes) (PyDict.del k ves).
Proof.
  induction 1 as [|[k1 h1] [k2 v1] hes ves [Hk Hv] Hall IH]; simpl.
  - constructor.
  - simpl in Hk. subst k2. destruct (String.eqb k k1); auto.
    constructor; auto. split; auto.
Qed.
End related_entries.

Lemma get_objects k (ds : PyDict.t (PyDict.t value)) :
  PyDict.get k (objects ds) = option_map VDict (PyDict.get k ds).
Proof.
  induction ds as [|[k' d] ds IH]; simpl; auto.
  destruct (String.eqb k k'); auto.
Qed.

Lemma objects_set k d (ds : PyDict.t (PyDict.t value)) :
  objects (PyDict.set k d ds) = PyDict.set k (VDict d) (objects ds).
Proof.
  induction ds as [|[k' d'] ds IH]; simpl; auto.
  destruct (String.eqb k k'); simpl; auto. now rewrite IH.
Qed.

Lemma update_update (l : loc) (o o' : object) (s : store) :
  update l o' (update l o s) = update l o' s.
Proof.
  revert l. induction s as [|o0 s IH]; intros [|l]; simpl; auto.
  now rewrite IH.
Qed.

Lemma update_same (l : loc) (o : object) (s : store) :
  nth_error s l = Some o -> update l o s = s.
Proof.
  revert l. induction s as [|o0 s IH]; intros [|l]; simpl; intros H;
    try discriminate.
  - now inversion H.
  - f_equal. now apply IH.
Qed.

(** Changing the object at [p] leaves what does not read [p]. *)
Lemma represents_update (G : loc -> Prop) (p : loc) (o : object)
    (s : store) h v :
  (forall l, G l -> l <> p) ->
  represents G s h v -> represents G (update p o s) h v.
Proof.
  intros HG. apply represents_mono. intros l o' Hl Hnth. split; auto.
  rewrite nth_error_update_other; auto.
  intros ->. now apply (HG l).
Qed.

Lemma entries_update (G : loc -> Prop) (p : loc) (o : object)
    (s : store) hes (ves : PyDict.t value) :
  (forall l, G l -> l <> p) ->
  Forall2 (entry_rep (represents G s)) hes ves ->
  Forall2 (entry_rep (represents G (update p o s))) hes ves.
Proof.
  intros HG. apply Forall2_impl. intros he ve. apply entry_rep_impl.
  intros h v. now apply represents_update.
Qed.

(** ** Reference expansion *)

Lemma represents_VStr_inv G s h x :
  represents G s h (VStr x) -> h = HStr x.
Proof. now inversion 1. Qed.

Lemma represents_HStr_inv G s x v :
  represents G s (HStr x) v -> v = VStr x.
Proof. now inversion 1. Qed.

Lemma represents_VDict_inv G s h ves :
  represents G s h (VDict ves) ->
  exists l hes, h = HRef l /\ G l /\ nth_error s l = Some (ODict hes)
                /\ Forall2 (entry_rep (represents G s)) hes ves.
Proof. inversion 1; subst. eauto 6. Qed.

Section expand.
Variables (G : loc -> Prop) (p d : loc).
Variable definitions : PyDict.t (PyDict.t value).
Hypothesis G_not_p : forall l, G l -> l <> p.
Hypothesis d_not_p : d <> p.

Lemma expand_refs_spec items : forall hitems s hprops properties hdefs,
  nth_error s p = Some (ODict hprops) ->
  nth_error s d = Some (ODict hdefs) ->
  Forall2 (entry_rep (represents G s)) hitems (objects items) ->
  Forall2 (entry_rep (represents G s)) hprops (objects properties) ->
  Forall2 (entry_rep (represents G s)) hdefs (objects definitions) ->
  match pure_expand_refs definitions items properties with
  | Ok properties' =>
      runs (expand_refs d hitems p) s
           (fun _ s' =>
              exists hprops',
                s' = update p (ODict hprops') s
                /\ Forall2 (entry_rep (represents G s')) hprops'
                            (objects properties'))
  | Raise e => expand_refs d hitems p s = Raise e
  end.
Proof.
  induction items as [|[prop_name prop_schema] items IH];
    intros hitems s hprops properties hdefs Hp Hd Hitems Hprops Hdefs.
  - inversion Hitems; subst. cbn. apply runs_ret.
    exists hprops. rewrite (update_same _ _ _ Hp). auto.
  - simpl objects in Hitems.
    inversion Hitems as [|[k hschema] ? hrest ? [Hk Hschema] Hrest];
      subst. simpl in Hk, Hschema. subst k.
    apply represents_VDict_inv in Hschema
      as (l & hes & -> & Hl & Hnth & Hes).
    pose proof (get_rep _ "$ref" _ _ Hes) as Href.
    assert (Hcontinue :
      match pure_expand_refs definitions items properties with
      | Ok properties' =>
          runs (expand_refs d hrest p) s
               (fun _ s' =>
                  exists hprops',
                    s' = update p (ODict hprops') s
                    /\ Forall2 (entry_rep (represents G s')) hprops'
                                (objects properties'))
      | Raise e => expand_refs d hrest p s = Raise e
      end) by (eapply IH; eauto).
    cbn [pure_expand_refs expand_refs].
    destruct (PyDict.get "$ref" prop_schema) as [ref|] eqn:Hpure;
      destruct (PyDict.get "$ref" hes) as [href|] eqn:Hheap;
      try contradiction.
    + destruct ref as [| | |ref| |];
        try (inversion Href; subst;
             apply raises_bind; eapply runs_entries_of; eauto;
             rewrite Hheap; reflexivity).
      apply represents_VStr_inv in Href. subst href.
      pose proof (get_rep _ (split_last "/" ref) _ _ Hdefs) as Hbody.
      rewrite get_objects in Hbody.
      destruct (PyDict.get (split_last "/" ref) definitions)
        as [body|] eqn:Hpbody;
        destruct (PyDict.get (split_last "/" ref) hdefs)
          as [hbody|] eqn:Hhbody; simpl in Hbody; try contradiction.
      * (* the property is replaced *)
        set (s1 := update p (ODict (PyDict.set prop_name hbody hprops)) s).
        assert (Hp1 : nth_error s1 p
                      = Some (ODict (PyDict.set prop_name hbody hprops))).
        { apply nth_error_update_same. apply nth_error_Some. congruence. }
        assert (Hd1 : nth_error s1 d = Some (ODict hdefs)).
        { unfold s1. rewrite nth_error_update_other; auto. }
        specialize (IH hrest s1 (PyDict.set prop_name hbody hprops)
                       (PyDict.set prop_name body properties) hdefs
                       Hp1 Hd1).
        assert (Hnext :
          match pure_expand_refs definitions items
                  (PyDict.set prop_name body properties) with
          | Ok properties' =>
              runs (expand_refs d hrest p) s1
                   (fun _ s' =>
                      exists hprops',
                        s' = update p (ODict hprops') s1
                        /\ Forall2 (entry_rep (represents G s')) hprops'
                                    (objects properties'))
          | Raise e => expand_refs d hrest p s1 = Raise e
          end).
        { apply IH.
          - now apply entries_update.
          - rewrite objects_set. apply set_rep.
            + now apply represents_update.
            + now apply entries_update.
          - now apply entries_update. }
        clear IH Hcontinue.
        destruct (pure_expand_refs definitions items
                    (PyDict.set prop_name body properties))
          as [properties'|e].
        -- apply runs_bind. eapply runs_entries_of; eauto.
           rewrite Hheap. apply runs_bind.
           eapply runs_entries_of; eauto. rewrite Hhbody.
           apply runs_bind. eapply runs_setitem; eauto.
           fold s1. eapply runs_weaken; [exact Hnext|].
           intros _ s' (hprops' & -> & Hrep).
           exists hprops'. unfold s1. rewrite update_update.
           split; [reflexivity|].
           unfold s1 in Hrep. now rewrite update_update in Hrep.
        -- apply raises_bind. eapply runs_entries_of; eauto.
           rewrite Hheap. apply raises_bind.
           eapply runs_entries_of; eauto. rewrite Hhbody.
           apply raises_bind. eapply runs_setitem; eauto.
      * (* the name is not a definition *)
        destruct (pure_expand_refs definitions items properties).
        -- apply runs_bind. eapply runs_entries_of; eauto.
           rewrite Hheap. apply runs_bind.
           eapply runs_entries_of; eauto. now rewrite Hhbody.
        -- apply raises_bind. eapply runs_entries_of; eauto.
           rewrite Hheap. apply raises_bind.
           eapply runs_entries_of; eauto. now rewrite Hhbody.
    + (* no reference *)
      destruct (pure_expand_refs definitions items properties).
      * apply runs_bind. eapply runs_entries_of; eauto.
        now rewrite Hheap.
      * apply raises_bind. eapply runs_entries_of; eauto.
        now rewrite Hheap.
Qed.
End expand.

(** ** Refinement of a pure computation *)

Lemma refines_ret {A B} (a : A) (b : B) s (Q : A -> store -> B -> Prop) :
  Q a s b -> refines (ret a) s (Ok b) Q.
Proof. intros H. now apply runs_ret. Qed.

Lemma refines_raise {A B} e s (Q : A -> store -> B -> Prop) :
  refines (raise e) s (Raise e) Q.
Proof. reflexivity. Qed.

Lemma refines_bind {A B A' B'} (c : M A) (k : A -> M A') s
    (r : result B) (kp : B -> result B')
    (Q : A -> store -> B -> Prop) (Q' : A' -> store -> B' -> Prop) :
  refines c s r Q ->
  (forall a s' b, r = Ok b -> Q a s' b -> refines (k a) s' (kp b) Q') ->
  refines (bindM c k) s (bind r kp) Q'.
Proof.
  intros Hc Hk. destruct r as [b|e]; cbn [bind refines] in *.
  - destruct Hc as (a & s' & Hc & HQ).
    specialize (Hk a s' b eq_refl HQ).
    unfold refines in Hk. destruct (kp b) as [b'|e].
    + apply runs_bind. exists a, s'. auto.
    + apply raises_bind. exists a, s'. auto.
  - now apply raises_first.
Qed.

Lemma bind_Ok_r {B} (r : result B) : bind r (fun b => Ok b) = r.
Proof. now destruct r. Qed.

(** A step of the store computation with no counterpart in the pure
    one. *)
Lemma refines_step {A A' B'} (c : M A) (k : A -> M A') s
    (r : result B') (Q0 : A -> store -> Prop)
    (Q' : A' -> store -> B' -> Prop) :
  runs c s Q0 ->
  (forall a s', Q0 a s' -> refines (k a) s' r Q') ->
  refines (bindM c k) s r Q'.
Proof.
  intros (a & s' & Hc & HQ) Hk. specialize (Hk a s' HQ).
  unfold refines in *. destruct r as [b'|e].
  - apply runs_bind. exists a, s'. auto.
  - apply raises_bind. exists a, s'. auto.
Qed.

Lemma refines_entries_of {A' B'} l es (k : PyDict.t hvalue -> M A') s
    (r : result B') (Q' : A' -> store -> B' -> Prop) :
  nth_error s l = Some (ODict es) ->
  refines (k es) s r Q' ->
  refines (bindM (entries_of l) k) s r Q'.
Proof.
  intros Hl Hk.
  apply (refines_step _ _ _ _ (fun es' s' => es' = es /\ s' = s)).
  - now apply runs_entries_of with es.
  - now intros ? ? [-> ->].
Qed.

Lemma refines_alloc {A' B'} o (k : loc -> M A') s
    (r : result B') (Q' : A' -> store -> B' -> Prop) :
  refines (k (length s)) (s ++ [o]) r Q' ->
  refines (bindM (alloc o) k) s r Q'.
Proof.
  intros Hk.
  apply (refines_step _ _ _ _ (fun l s' => l = length s /\ s' = s ++ [o])).
  - now apply runs_alloc.
  - now intros ? ? [-> ->].
Qed.

Lemma refines_weaken {A B} (c : M A) s (r : result B)
    (Q Q' : A -> store -> B -> Prop) :
  refines c s r Q -> (forall a s' b, Q a s' b -> Q' a s' b) ->
  refines c s r Q'.
Proof.
  unfold refines. destruct r as [b|e]; auto.
  intros H HQ. eapply runs_weaken; eauto.
Qed.

(** The pure computation goes on with a step that cannot raise. *)
Lemma refines_map {A B B'} (c : M A) s (r : result B) (g : B -> B')
    (Q : A -> store -> B -> Prop) (Q' : A -> store -> B' -> Prop) :
  refines c s r Q ->
  (forall a s' b, Q a s' b -> Q' a s' (g b)) ->
  refines c s (bind r (fun b => Ok (g b))) Q'.
Proof.
  unfold refines. destruct r as [b|e]; cbn [bind]; auto.
  intros H HQ. eapply runs_weaken; eauto.
Qed.

(** The loop rule: [I] relates the store to the elements visited so far
    and their pure results. *)
Lemma for_each_refines {A B} (body : A -> M unit) (f : A -> result B)
    (I : list (A * B) -> store -> Prop) (l : list A) :
  (forall x visited s,
      In x l -> I visited s ->
      refines (body x) s (f x) (fun _ s' y => I (visited ++ [(x, y)]) s')) ->
  forall visited s,
    I visited s ->
    refines (for_each body l) s (traverse f l)
            (fun _ s' ys => I (visited ++ combine l ys) s').
Proof.
  induction l as [|x l IH]; intros Hbody visited s HI.
  - apply refines_ret. now rewrite app_nil_r.
  - cbn [for_each traverse].
    eapply refines_bind; [apply (Hbody x visited s); simpl; auto|].
    intros u s1 y _ HI1. cbv beta in HI1.
    apply (refines_map _ _ _ (fun ys => y :: ys)
             (fun _ s' ys => I ((visited ++ [(x, y)]) ++ combine l ys) s')).
    + apply IH; [|exact HI1]. intros x' visited' s' Hin.
      apply Hbody. simpl. auto.
    + intros u' s2 ys HI2. simpl. now rewrite <- app_assoc in HI2.
Qed.

Lemma collect_refines {A} (keep : A -> bool) (c : A -> M loc)
    (f : A -> result value) (l : list A) :
  (forall x s, In x l -> refines (c x) s (f x) (resolves s)) ->
  forall s,
    refines (collect keep c l) s (traverse f (filter keep l))
            (fun ts s' vs =>
               extends s s'
               /\ Forall2 (fun t v => represents (since s) s' (HRef t) v)
                           ts vs).
Proof.
  induction l as [|x l IH]; intros Hc s.
  - apply refines_ret. split; [apply extends_refl | constructor].
  - cbn [collect filter].
    assert (Hrest : forall s, refines (collect keep c l) s
               (traverse f (filter keep l))
               (fun ts s' vs =>
                  extends s s'
                  /\ Forall2 (fun t v => represents (since s) s' (HRef t) v)
                              ts vs)).
    { apply IH. intros x' s' Hin. apply Hc. simpl. auto. }
    destruct (keep x); [|apply Hrest].
    cbn [traverse].
    eapply refines_bind; [apply Hc; simpl; auto|].
    intros t s1 v _ [Hext1 Ht].
    eapply refines_bind; [apply Hrest|].
    intros ts s2 vs _ [Hext2 Hts]. apply refines_ret. split.
    + eapply extends_trans; eauto.
    + constructor.
      * eapply represents_extends; eauto.
      * eapply Forall2_impl; [|exact Hts].
        intros t' v'. now apply represents_since.
Qed.

Lemma refines_alloc_dict (s0 s : store) hes ves :
  extends s0 s ->
  Forall2 (entry_rep (represents (since s0) s)) hes ves ->
  refines (alloc (ODict hes)) s (Ok (VDict ves)) (resolves s0).
Proof.
  intros Hext Hes. apply runs_alloc. split.
  - eapply extends_trans; [eauto | apply extends_alloc].
  - apply rep_Dict with hes.
    + now apply since_alloc.
    + apply nth_error_alloc.
    + eapply Forall2_impl; [|exact Hes].
      intros he ve. apply entry_rep_impl.
      intros h v. apply represents_extends, extends_alloc.
Qed.

Lemma represents_strings (F : loc -> Prop) (s : store) (r : loc) names :
  F r -> nth_error s r = Some (OList (map HStr names)) ->
  represents F s (HRef r) (strings names).
Proof.
  intros HF Hr. apply rep_List with (map HStr names); auto.
  clear. induction names; simpl; constructor; auto. constructor.
Qed.

(** The display that ends a record branch. *)
Lemma object_node_refines (s0 s : store) (G : loc -> Prop) (p r : loc)
    hprops properties required :
  extends s0 s ->
  (forall l, G l -> since s0 l) ->
  since s0 p -> since s0 r ->
  nth_error s p = Some (ODict hprops) ->
  Forall2 (entry_rep (represents G s)) hprops properties ->
  nth_error s r = Some (OList (map HStr required)) ->
  refines (Heap.object_node p r) s
          (Ok (pure_object_node properties (strings required)))
          (resolves s0).
Proof.
  intros Hext HG Hp Hr Hprops Hrep Hreq.
  apply refines_alloc_dict; [assumption|].
  repeat constructor; simpl; auto.
  - apply rep_Dict with hprops; auto.
    eapply Forall2_impl; [|exact Hrep].
    intros he ve. apply entry_rep_impl. intros h v.
    apply represents_mono. intros l o Hl Hnth. auto.
  - now apply represents_strings.
Qed.

Lemma refines_assoc {A A' A'' B} (c : M A) (k : A -> M A')
    (k' : A' -> M A'') s (r : result B) (Q : A'' -> store -> B -> Prop) :
  refines (bindM (bindM c k) k') s r Q ->
  refines (bindM c (fun a => bindM (k a) k')) s r Q.
Proof.
  unfold refines, runs, bindM.
  destruct (c s) as [[a s']|e]; auto.
Qed.

(** ** Accumulating resolved nodes in a dictionary *)

(** Objects up to [lo] may change, and the store may grow. *)
Lemma holds_frame (s0 : store) (lo p : loc) (s s' : store) properties :
  extends s0 s' ->
  nth_error s' p = nth_error s p ->
  (forall l o, lo < l -> nth_error s l = Some o -> nth_error s' l = Some o) ->
  holds s0 lo p s properties -> holds s0 lo p s' properties.
Proof.
  intros Hext Hp Hkeep (_ & hprops & Hnth & Hrep).
  split; [assumption|]. exists hprops. split; [congruence|].
  eapply Forall2_impl; [|exact Hrep].
  intros he ve. apply entry_rep_impl. intros h v.
  apply represents_mono. intros l o Hl Hl'. split; auto.
Qed.

Section accumulate.
Variable base_type_map : list (builtin * string).
Variable a : Annotation.
Hypothesis resolver_refines :
  forall s, refines (get_type_info a base_type_map) s
                    (pure_get_type_info a base_type_map) (resolves s).

Lemma resolve_and_set (s0 : store) (lo p : loc) (key : string)
    (s : store) properties :
  p <= lo -> lo < length s -> since s0 p ->
  holds s0 lo p s properties ->
  refines (t <- get_type_info a base_type_map ;;
           setitem p key (HRef t)) s
          (pure_get_type_info a base_type_map)
          (fun _ s' v =>
             holds s0 lo p s' (PyDict.set key v properties)
             /\ length s <= length s'
             /\ forall l, l <> p -> l < length s ->
                          nth_error s' l = nth_error s l).
Proof.
  intros Hplo Hlo Hp (Hext & hprops & Hnth & Hrep).
  rewrite <- (bind_Ok_r (pure_get_type_info a base_type_map)).
  eapply refines_bind; [apply resolver_refines|].
  intros t s1 v _ [Hext1 Ht].
  pose proof (extends_length _ _ Hext1) as Hlen1.
  eapply runs_setitem; [eapply extends_nth_error; eauto|].
  split; [|split].
  - split; [apply extends_update; auto; eapply extends_trans; eauto|].
    exists (PyDict.set key (HRef t) hprops). split.
    + apply nth_error_update_same. lia.
    + apply entries_update; [intros l; lia|].
      apply set_rep.
      * revert Ht. apply represents_mono. intros l o Hl Hl'.
        split; [unfold since in Hl; lia | assumption].
      * eapply Forall2_impl; [|exact Hrep].
        intros he ve. apply entry_rep_impl. intros h v'.
        apply represents_mono. intros l o Hl Hl'. split; auto.
        eapply extends_nth_error; eauto.
  - rewrite length_update. lia.
  - intros l Hne Hl. rewrite nth_error_update_other by congruence.
    destruct Hext1 as [new ->]. now rewrite nth_error_app1.
Qed.
End accumulate.

(** ** The resolver *)

Lemma map_combine_keys {A} (name : A -> string) (l : list A)
    (vs : list value) :
  map (fun xv => (name (fst xv), snd xv)) (combine l vs)
  = combine (map name l) vs.
Proof.
  revert vs. induction l as [|x l IH]; intros [|v vs]; simpl; auto.
  now rewrite IH.
Qed.

Lemma map_fst_combine {A B} (l : list A) (vs : list B) :
  length vs = length l -> map fst (combine l vs) = l.
Proof.
  revert vs. induction l as [|x l IH]; intros [|v vs]; simpl;
    try discriminate; auto.
  intros H. f_equal. apply IH. congruence.
Qed.

Lemma fold_set_snoc {V} (items : list (string * V)) k v d :
  fold_left (fun d kv => PyDict.set (fst kv) (snd kv) d)
            (items ++ [(k, v)]) d
  = PyDict.set k v
      (fold_left (fun d kv => PyDict.set (fst kv) (snd kv) d) items d).
Proof. now rewrite fold_left_app. Qed.

(** ** A validated record's export *)

Lemma new_objects_spec (ds : PyDict.t (PyDict.t value)) :
  forall s,
    runs (new_objects ds) s
         (fun hes s' =>
            extends s s'
            /\ Forall2 (entry_rep (represents (since s) s')) hes
                        (objects ds)).
Proof.
  induction ds as [|[k d] ds IH]; intros s; cbn [new_objects].
  - apply runs_ret. split; [apply extends_refl | constructor].
  - apply runs_bind. eapply runs_weaken; [apply new_dict_spec|].
    intros hes s1 [Hext1 Hhes]. apply runs_bind. apply runs_alloc.
    apply runs_bind. eapply runs_weaken; [apply IH|].
    intros rest s2 [Hext2 Hrest]. apply runs_ret.
    assert (Hext12 : extends s1 s2).
    { eapply extends_trans; [apply extends_alloc | eauto]. }
    split; [eapply extends_trans; eauto|].
    constructor.
    + split; [reflexivity|]. simpl.
      apply rep_Dict with hes.
      * now apply since_alloc.
      * eapply extends_nth_error; [exact Hext2 | apply nth_error_alloc].
      * eapply Forall2_impl; [|exact Hhes].
        intros he ve. apply entry_rep_impl.
        intros h v. now apply represents_extends.
    + eapply Forall2_impl; [|exact Hrest].
      intros he ve. apply entry_rep_impl. intros h v.
      apply represents_since.
      eapply extends_trans; [eauto | apply extends_alloc].
Qed.

(** The exported dictionary is new, and so is everything below it. *)
Lemma exported_objects_spec
    (field : option (PyDict.t (PyDict.t value))) (s : store) :
  runs (exported_objects field) s
       (fun p s' =>
          extends s s' /\ since s p /\ S p = length s'
          /\ exists hes,
              nth_error s' p = Some (ODict hes)
              /\ Forall2 (entry_rep
                            (represents (fun l => since s l /\ l < p) s'))
                         hes
                         (objects (match field with
                                   | Some d => d
                                   | None => []
                                   end))).
Proof.
  unfold exported_objects. apply runs_bind.
  eapply runs_weaken; [apply new_objects_spec|].
  intros hes s1 [Hext Hhes]. apply runs_alloc.
  split; [eapply extends_trans; [eauto | apply extends_alloc]|].
  split; [now apply since_alloc|].
  split; [rewrite length_app; simpl; lia|].
  exists hes. split; [apply nth_error_alloc|].
  eapply Forall2_impl; [|exact Hhes].
  intros he ve. apply entry_rep_impl. intros h v.
  apply represents_mono. intros l o Hl Hnth. split.
  - split; [assumption|]. apply nth_error_Some. congruence.
  - eapply extends_nth_error; [apply extends_alloc | eauto].
Qed.

Lemma refs_extends (s0 s s' : store) (ts : list loc) (vs : list value) :
  extends s s' ->
  Forall2 (fun t v => represents (since s0) s (HRef t) v) ts vs ->
  Forall2 (represents (since s0) s') (map HRef ts) vs.
Proof.
  intros Hext. induction 1; simpl; constructor; auto.
  eapply represents_extends; eauto.
Qed.

Section resolver.
Variable base_type_map : list (builtin * string).

Lemma union_refines (args : list Annotation) :
  Forall (fun a => forall s,
            refines (get_type_info a base_type_map) s
                    (pure_get_type_info a base_type_map) (resolves s))
         args ->
  forall s,
    refines (get_type_info (Union args) base_type_map) s
            (pure_get_type_info (Union args) base_type_map) (resolves s).
Proof.
  intros IH s. rewrite get_type_info_Union.
  unfold Union. cbn [get_type_info base_type_of].
  eapply refines_bind.
  - apply (collect_refines _ _
             (fun a => pure_get_type_info a base_type_map)).
    intros x s' Hin. rewrite Forall_forall in IH. now apply IH.
  - intros ts s1 vs _ [Hext Hts].
    assert (Hmany :
      refines (types <- alloc (OList (map HRef ts)) ;;
               alloc (ODict [("oneOf", HRef types)])) s1
              (Ok (oneOf vs)) (resolves s)).
    { eapply (refines_step _ _ _ _
                (fun l s2 => l = length s1 /\ s2 = s1 ++ [OList (map HRef ts)])).
      - now apply runs_alloc.
      - intros l s2 [-> ->].
        apply refines_alloc_dict.
        + eapply extends_trans; [eauto | apply extends_alloc].
        + repeat constructor; simpl.
          apply rep_List with (map HRef ts).
          * now apply since_alloc.
          * apply nth_error_alloc.
          * eapply refs_extends; [apply extends_alloc | exact Hts]. }
    inversion Hts as [|t v ts' vs' Ht Hts']; subst; [exact Hmany|].
    inversion Hts'; subst; [|exact Hmany].
    apply refines_ret. split; assumption.
Qed.

Lemma dataclass_refines (fields : list (Field Annotation)) :
  Forall (fun f => forall s,
            refines (get_type_info (field_type f) base_type_map) s
                    (pure_get_type_info (field_type f) base_type_map)
                    (resolves s))
         fields ->
  forall s,
    refines (get_type_info (Dataclass fields) base_type_map) s
            (pure_get_type_info (Dataclass fields) base_type_map)
            (resolves s).
Proof.
  intros IH s. rewrite get_type_info_Dataclass.
  cbn [get_type_info base_type_of].
  set (p := length s). set (r := S p).
  eapply (refines_step _ _ _ _
            (fun l s1 => l = p /\ s1 = s ++ [ODict []]));
    [now apply runs_alloc|].
  intros ? s1 [-> ->].
  eapply (refines_step _ _ _ _
            (fun l s2 => l = r /\ s2 = (s ++ [ODict []]) ++ [OList []])).
  { apply runs_alloc. split; [|reflexivity].
    unfold r, p. rewrite length_app. simpl. lia. }
  intros ? s2 [-> ->].
  set (I := fun (visited : list (Field Annotation * value)) s' =>
              holds s r p s'
                (fold_left (fun d kv => PyDict.set (fst kv) (snd kv) d)
                   (map (fun fv => (field_name (fst fv), snd fv)) visited)
                   [])
              /\ r < length s'
              /\ nth_error s' r =
                 Some (OList
                         (map HStr
                            (map field_name
                               (filter lacks_default
                                       (map fst visited)))))).
  eapply refines_bind.
  - apply (for_each_refines _
             (fun f => pure_get_type_info (field_type f) base_type_map)
             I fields) with (visited := []).
    + (* one iteration *)
      intros f visited s' Hin (Hholds & Hr & Hreq).
      apply refines_assoc.
      rewrite <- (bind_Ok_r (pure_get_type_info (field_type f) _)).
      eapply refines_bind.
      * apply resolve_and_set with (s0 := s) (lo := r); eauto.
        -- rewrite Forall_forall in IH. now apply IH.
        -- unfold r. lia.
        -- unfold since, p. lia.
      * intros u s3 v _ (Hholds3 & Hlen3 & Hkeep3).
        assert (Hr3 : nth_error s3 r =
                      Some (OList
                              (map HStr
                                 (map field_name
                                    (filter lacks_default
                                            (map fst visited)))))).
        { rewrite Hkeep3; [assumption | unfold r; lia | assumption]. }
        assert (Hsnoc : forall s4,
          holds s r p s4
            (PyDict.set (field_name f) v
               (fold_left
                  (fun d kv => PyDict.set (fst kv) (snd kv) d)
                  (map (fun fv => (field_name (fst fv), snd fv)) visited)
                  [])) ->
          r < length s4 ->
          nth_error s4 r =
            Some (OList
                    (map HStr
                       (map field_name
                          (filter lacks_default (map fst visited))
                        ++ (if lacks_default f then [field_name f]
                            else [])))) ->
          I (visited ++ [(f, v)]) s4).
        { intros s4 H1 H2 H3. unfold I.
          rewrite !map_app. cbn [map fst snd].
          rewrite fold_set_snoc, filter_app, map_app. cbn [filter].
          split; [assumption|]. split; [assumption|].
          rewrite H3. now destruct (lacks_default f). }
        destruct (lacks_default f).
        -- eapply runs_append; [exact Hr3|]. apply Hsnoc.
           ++ eapply holds_frame; [| | |exact Hholds3].
              ** apply extends_update; [unfold since, r, p; lia|].
                 apply Hholds3.
              ** apply nth_error_update_other. unfold r. lia.
              ** intros l o Hl Hnth.
                 rewrite nth_error_update_other by lia. exact Hnth.
           ++ rewrite length_update. lia.
           ++ rewrite map_app. apply nth_error_update_same. lia.
        -- apply refines_ret. apply Hsnoc; [assumption | lia|].
           now rewrite app_nil_r.
    + (* before the loop *)
      unfold I. cbn [map filter fold_left]. split; [|split].
      * split; [rewrite <- app_assoc; now eexists|].
        exists []. split; [|constructor].
        rewrite nth_error_app1 by (rewrite length_app; simpl; lia).
        apply nth_error_alloc.
      * rewrite !length_app. simpl. unfold r, p. lia.
      * replace r with (length (s ++ [ODict []]))
          by (rewrite length_app; simpl; unfold r, p; lia).
        apply nth_error_alloc.
  - (* after the loop *)
    intros u s3 ts Hts (Hholds & Hr & Hreq). cbn [app] in *.
    rewrite map_combine_keys in Hholds.
    rewrite map_fst_combine in Hreq
      by (eapply traverse_length; eauto).
    destruct Hholds as (Hext & hprops & Hp & Hrep).
    apply (object_node_refines s s3 (fun l => r < l) p r hprops);
      try assumption.
    + intros l Hl. unfold since, r, p in *. lia.
    + unfold since, p. lia.
    + unfold since, r, p. lia.
Qed.

Lemma typeddict_refines (annotations : list (string * Annotation))
    (required_keys : option (list string)) :
  Forall (fun kt => forall s,
            refines (get_type_info (snd kt) base_type_map) s
                    (pure_get_type_info (snd kt) base_type_map)
                    (resolves s))
         annotations ->
  forall s,
    refines (get_type_info (TypedDict annotations required_keys)
                           base_type_map) s
            (pure_get_type_info (TypedDict annotations required_keys)
                                base_type_map)
            (resolves s).
Proof.
  intros IH s. rewrite get_type_info_TypedDict.
  cbn [get_type_info base_type_of].
  set (p := length s).
  eapply (refines_step _ _ _ _
            (fun l s1 => l = p /\ s1 = s ++ [ODict []]));
    [now apply runs_alloc|].
  intros ? s1 [-> ->].
  set (I := fun (visited : list ((string * Annotation) * value)) s' =>
              holds s p p s'
                (fold_left (fun d kv => PyDict.set (fst kv) (snd kv) d)
                   (map (fun fv => (fst (fst fv), snd fv)) visited) [])
              /\ p < length s').
  eapply refines_bind.
  - apply (for_each_refines _
             (fun kt => pure_get_type_info (snd kt) base_type_map)
             I annotations) with (visited := []).
    + intros kt visited s' Hin (Hholds & Hp).
      eapply refines_weaken.
      * apply resolve_and_set with (s0 := s) (lo := p); eauto.
        -- rewrite Forall_forall in IH. now apply IH.
        -- unfold since, p. lia.
      * intros u s3 v (Hholds3 & Hlen3 & _). unfold I.
        rewrite map_app. cbn [map fst snd]. rewrite fold_set_snoc.
        split; [assumption | lia].
    + unfold I. cbn [map fold_left]. split.
      * split; [apply extends_alloc|].
        exists []. split; [apply nth_error_alloc | constructor].
      * rewrite length_app. simpl. unfold p. lia.
  - intros u s3 ts Hts (Hholds & Hp). cbn [app] in *.
    rewrite (map_combine_keys fst) in Hholds.
    destruct Hholds as (Hext & hprops & Hnth & Hrep).
    set (names := match required_keys with
                  | Some keys => keys
                  | None => PyDict.keys annotations
                  end).
    eapply (refines_step _ _ _ _
              (fun l s4 => l = length s3
                           /\ s4 = s3 ++ [OList (map HStr names)]));
      [now apply runs_alloc|].
    intros ? s4 [-> ->].
    apply (object_node_refines s _ (fun l => p < l) p (length s3) hprops
             _ names).
    + eapply extends_trans; [eauto | apply extends_alloc].
    + intros l Hl. unfold since, p in *. lia.
    + unfold since, p. lia.
    + now apply since_alloc.
    + eapply extends_nth_error; [apply extends_alloc | eauto].
    + eapply Forall2_impl; [|exact Hrep].
      intros he ve. apply entry_rep_impl. intros h v.
      apply represents_mono. intros l o Hl Hl'. split; auto.
      eapply extends_nth_error; [apply extends_alloc | eauto].
    + apply nth_error_alloc.
Qed.

Lemma pydantic_refines (schema : json_schema) (s : store) :
  refines (get_type_info (PydanticModel schema) base_type_map) s
          (pure_get_type_info (PydanticModel schema) base_type_map)
          (resolves s).
Proof.
  cbn [get_type_info pure_get_type_info base_type_of].
  set (properties := get_properties schema).
  set (required := get_required schema).
  set (definitions := get_defs schema).
  eapply refines_step; [apply exported_objects_spec|].
  intros p s1 (Hext1 & Hp & Hlen1 & hprops & Hnthp & Hprops).
  fold properties in Hprops.
  eapply (refines_step _ _ _ _
            (fun r s2 => r = length s1
                         /\ s2 = s1 ++ [OList (map HStr required)]));
    [now apply runs_alloc|].
  intros r s2 [-> ->].
  eapply refines_step; [apply exported_objects_spec|].
  intros d s3 (Hext3 & Hd & Hlen3 & hdefs & Hnthd & Hdefs).
  fold definitions in Hdefs.
  pose proof (extends_trans _ _ _ (extends_alloc s1 _) Hext3) as Hext13.
  pose proof (extends_length _ _ Hext13) as Hlen13.
  assert (Hdp : d <> p).
  { unfold since in Hd. rewrite length_app in Hd. simpl in Hd. lia. }
  set (G := fun l => since s l /\ l <> p).
  assert (HG : forall l, G l -> l <> p) by (unfold G; tauto).
  assert (Hnthp3 : nth_error s3 p = Some (ODict hprops)).
  { eapply extends_nth_error; eauto. }
  assert (Hnthr3 : nth_error s3 (length s1)
                   = Some (OList (map HStr required))).
  { eapply extends_nth_error; [exact Hext3 | apply nth_error_alloc]. }
  assert (Hprops3 : Forall2 (entry_rep (represents G s3)) hprops
                            (objects properties)).
  { eapply Forall2_impl; [|exact Hprops].
    intros he ve. apply entry_rep_impl. intros h v.
    apply represents_mono. intros l o [Hl Hlp] Hnth. split.
    - split; [assumption | lia].
    - eapply extends_nth_error; eauto. }
  assert (Hdefs3 : Forall2 (entry_rep (represents G s3)) hdefs
                           (objects definitions)).
  { eapply Forall2_impl; [|exact Hdefs].
    intros he ve. apply entry_rep_impl. intros h v.
    apply represents_mono. intros l o [Hl Hld] Hnth. split; auto.
    unfold since in Hl. rewrite length_app in Hl. simpl in Hl.
    apply extends_length in Hext1. unfold G, since. split; lia. }
  apply (refines_entries_of d hdefs); [assumption|].
  assert (Hend : forall s4 hprops' properties',
    extends s s4 ->
    nth_error s4 p = Some (ODict hprops') ->
    nth_error s4 (length s1) = Some (OList (map HStr required)) ->
    Forall2 (entry_rep (represents G s4)) hprops'
            (objects properties') ->
    refines (Heap.object_node p (length s1)) s4
            (Ok (pure_object_node (objects properties')
                                  (strings required)))
            (resolves s)).
  { intros s4 hprops' properties' H1 H2 H3 H4.
    apply (object_node_refines s s4 G p (length s1) hprops');
      try assumption.
    - unfold G. tauto.
    - apply extends_length in Hext1. exact Hext1. }
  assert (Hext03 : extends s s3).
  { eapply extends_trans; eauto. }
  clearbody definitions.
  destruct definitions as [|def0 defs0].
  - (* no definitions *)
    inversion Hdefs3; subst.
    eapply (refines_step _ _ _ _ (fun _ s4 => s4 = s3));
      [now apply runs_ret|].
    intros _ s4 ->. cbn [bind]. eapply Hend; eauto.
  - inversion Hdefs3 as [|hdef ? hdefs' ? Hdef Hdefs']; subst.
    eapply (refines_bind _ _ _ _ _ (fun _ s4 properties' =>
              exists hprops',
                s4 = update p (ODict hprops') s3
                /\ Forall2 (entry_rep (represents G s4)) hprops'
                            (objects properties'))).
    + apply (refines_entries_of p hprops); [assumption|].
      apply (expand_refs_spec G p d (def0 :: defs0) HG Hdp properties
               hprops s3 hprops properties (hdef :: hdefs'));
        assumption.
    + intros _ s4 properties' _ (hprops' & -> & Hrep).
      eapply Hend; eauto.
      * apply extends_update; assumption.
      * apply nth_error_update_same. apply nth_error_Some. congruence.
      * rewrite nth_error_update_other; [assumption|].
        apply extends_length in Hext1. unfold since in Hp. lia.
Qed.

(** Run from any store, the resolver over the store ends as
    [get_type_info] does: with the same exception, or with a node that
    stands for the same value and consists of new objects only. *)
Lemma get_type_info_refines (a : Annotation) :
  forall s,
    refines (get_type_info a base_type_map) s
            (pure_get_type_info a base_type_map) (resolves s).
Proof.
  induction a as [c|o args IH|schema|fields IH|annotations required_keys IH|]
    using Annotation_ind; intros s.
  - cbn. destruct (base_lookup c base_type_map);
      (apply refines_alloc_dict; [apply extends_refl|]);
      repeat constructor.
  - destruct o.
    + (* list *)
      destruct args as [|item_type args]; [apply refines_raise|].
      inversion IH as [|? ? Hitem _]; subst.
      cbn [get_type_info pure_get_type_info base_type_of].
      eapply refines_bind; [apply Hitem|].
      intros t s1 v _ [Hext Ht].
      apply refines_alloc_dict; [assumption|].
      repeat constructor; assumption.
    + (* dict *)
      destruct args as [|key_type [|value_type [|extra args]]];
        try apply refines_raise.
      inversion IH as [|? ? _ IH']; subst.
      inversion IH' as [|? ? Hvalue _]; subst.
      cbn [get_type_info pure_get_type_info base_type_of].
      destruct (negb (is_str key_type)); [apply refines_raise|].
      destruct (has_annotations value_type || is_BaseModel value_type);
        [apply Hvalue|].
      eapply refines_bind; [apply Hvalue|].
      intros t s1 v _ [Hext Ht].
      apply refines_alloc_dict; [assumption|].
      repeat constructor; assumption.
    + now apply union_refines.
    + cbn. apply refines_alloc_dict; [apply extends_refl|].
      repeat constructor.
  - apply pydantic_refines.
  - now apply dataclass_refines.
  - now apply typeddict_refines.
  - cbn. apply refines_alloc_dict; [apply extends_refl|].
    repeat constructor.
Qed.
End resolver.

(** ** The signature compiler *)

Lemma runs_isinstance_dict l s (Q : bool -> store -> Prop) :
  Q (match nth_error s l with Some (ODict _) => true | _ => false end) s ->
  runs (isinstance_dict l) s Q.
Proof.
  intros H. unfold runs, isinstance_dict.
  destruct (nth_error s l) as [[es|items]|]; eauto.
Qed.

(** Stripping [additionalProperties] from the object at [t] changes no
    other object. *)
Lemma strip_runs (t : loc) (s : store) :
  runs (is_dict <- isinstance_dict t ;;
        present <- (if is_dict then contains t "additionalProperties"
                    else ret false) ;;
        if present then delitem t "additionalProperties" else ret tt) s
       (fun _ s' =>
          length s' = length s
          /\ forall l, l <> t -> nth_error s' l = nth_error s l).
Proof.
  apply runs_bind. apply runs_isinstance_dict.
  destruct (nth_error s t) as [[es|items]|] eqn:Hobj.
  - apply runs_bind. eapply runs_contains; [exact Hobj|].
    destruct (PyDict.mem "additionalProperties" es).
    + eapply runs_delitem; [exact Hobj|]. split.
      * apply length_update.
      * intros l Hl. apply nth_error_update_other. congruence.
    + apply runs_ret. auto.
  - apply runs_bind. apply runs_ret. apply runs_ret. auto.
  - apply runs_bind. apply runs_ret. apply runs_ret. auto.
Qed.

Lemma refines_same {A B} (c c' : M A) s (r : result B)
    (Q : A -> store -> B -> Prop) :
  c' s = c s -> refines c s r Q -> refines c' s r Q.
Proof.
  unfold refines, runs. intros ->. auto.
Qed.

Section compiler.
Variables (s0 : store) (q : loc).
Hypothesis q_new : since s0 q.

Lemma compile_parameters_refines (params : list Param) :
  forall s parameters,
    holds s0 q q s parameters -> q < length s ->
    refines (Heap.compile_parameters params q) s
            (pure_compile_parameters params parameters)
            (fun _ s' parameters' =>
               holds s0 q q s' parameters' /\ q < length s').
Proof.
  unfold Heap.compile_parameters.
  induction params as [|param rest IH]; intros s parameters Hholds Hq.
  - apply refines_ret. auto.
  - cbn [for_each pure_compile_parameters]. unfold compile_parameter at 1.
    destruct (String.eqb (param_name param) "context_variables").
    + eapply (refines_step _ _ _ _ (fun _ s' => s' = s));
        [now apply runs_ret|].
      intros _ s' ->. now apply IH.
    + (* regroup the body: resolve; strip; resolve and store *)
      apply (refines_same
               (param_info <- get_type_info (param_annotation param)
                                            type_map ;;
                (is_dict <- isinstance_dict param_info ;;
                 present <- (if is_dict
                             then contains param_info
                                           "additionalProperties"
                             else ret false) ;;
                 if present
                 then delitem param_info "additionalProperties"
                 else ret tt) ;;
                (t <- get_type_info (param_annotation param) type_map ;;
                 setitem q (param_name param) (HRef t)) ;;
                for_each (compile_parameter q) rest)).
      { unfold bindM.
        destruct (get_type_info (param_annotation param) type_map s)
          as [[t1 s1]|e]; [|reflexivity].
        destruct (isinstance_dict t1 s1) as [[b s2]|e]; [|reflexivity].
        destruct b.
        - destruct (contains t1 "additionalProperties" s2)
            as [[present s3]|e]; [|reflexivity].
          destruct present.
          + destruct (delitem t1 "additionalProperties" s3)
              as [[u s4]|e]; [|reflexivity].
            destruct (get_type_info (param_annotation param) type_map s4)
              as [[t2 s5]|e]; [|reflexivity].
            destruct (setitem q (param_name param) (HRef t2) s5)
              as [[u' s6]|e]; reflexivity.
          + cbn [ret].
            destruct (get_type_info (param_annotation param) type_map s3)
              as [[t2 s5]|e]; [|reflexivity].
            destruct (setitem q (param_name param) (HRef t2) s5)
              as [[u' s6]|e]; reflexivity.
        - cbn [ret].
          destruct (get_type_info (param_annotation param) type_map s2)
            as [[t2 s5]|e]; [|reflexivity].
          destruct (setitem q (param_name param) (HRef t2) s5)
            as [[u' s6]|e]; reflexivity. }
      eapply refines_bind; [apply get_type_info_refines|].
      intros t1 s1 v1 Hv1 [Hext1 Ht1].
      assert (Ht1new : length s <= t1).
      { inversion Ht1; subst; assumption. }
      eapply refines_step; [apply strip_runs|].
      intros _ s2 [Hlen2 Hkeep2].
      assert (Hholds2 : holds s0 q q s2 parameters).
      { destruct Hholds as (Hext & hprops & Hnth & Hrep).
        split.
        - destruct Hext as [new0 ->]. destruct Hext1 as [new1 ->].
          exists (skipn (length s0) s2).
          rewrite <- (firstn_skipn (length s0) s2) at 1. f_equal.
          apply nth_error_ext. intros l.
          destruct (Nat.lt_ge_cases l (length s0)) as [Hl|Hl].
          + rewrite nth_error_firstn.
            assert (Hlt : (l <? length s0)%nat = true)
              by now apply Nat.ltb_lt.
            rewrite Hlt.
            rewrite Hkeep2.
            * rewrite <- app_assoc. now rewrite nth_error_app1.
            * rewrite length_app in Ht1new. lia.
          + rewrite nth_error_firstn.
            assert (Hge : (l <? length s0)%nat = false)
              by now apply Nat.ltb_ge.
            rewrite Hge. symmetry. now apply nth_error_None.
        - exists hprops. split.
          + rewrite Hkeep2 by lia. eapply extends_nth_error; eauto.
          + eapply Forall2_impl; [|exact Hrep].
            intros he ve. apply entry_rep_impl. intros h v.
            apply represents_mono. intros l o Hl Hl'. split; auto.
            assert (l < length s) by (apply nth_error_Some; congruence).
            rewrite Hkeep2 by lia. eapply extends_nth_error; eauto. }
      pose proof (extends_length _ _ Hext1) as Hlen1.
      eapply refines_bind.
      * apply resolve_and_set with (s0 := s0) (lo := q);
          [apply get_type_info_refines | lia | lia | assumption
          | exact Hholds2].
      * intros u s3 v _ (Hholds3 & Hlen3 & _).
        apply IH; [assumption | lia].
Qed.
End compiler.

(** Run from any store, [function_to_json] over the store ends as the
    pure [function_to_json] does.  The object stripped of its
    [additionalProperties] is not part of the descriptor. *)
Lemma function_to_json_refines (func : Callable) (s : store) :
  refines (Heap.function_to_json func) s (pure_function_to_json func)
          (resolves s).
Proof.
  unfold Heap.function_to_json, pure_function_to_json.
  destruct (func_signature func) as [e|params]; [apply refines_raise|].
  apply refines_alloc. set (q := length s). set (s1 := s ++ [ODict []]).
  eapply refines_bind.
  - apply (compile_parameters_refines s q) with (parameters := []).
    + unfold since, q. lia.
    + split; [apply extends_alloc|]. exists [].
      split; [apply nth_error_alloc | constructor].
    + unfold s1, q. rewrite length_app. simpl. lia.
  - intros _ s2 parameters _ [(Hext2 & hprops & Hq & Hrep) Hlen2].
    apply refines_alloc. set (s3 := s2 ++ _).
    apply refines_alloc. set (s4 := s3 ++ _).
    apply refines_alloc. set (s5 := s4 ++ _).
    assert (Hext23 : extends s2 s3) by apply extends_alloc.
    assert (Hext34 : extends s3 s4) by apply extends_alloc.
    assert (Hext45 : extends s4 s5) by apply extends_alloc.
    assert (Hext25 : extends s2 s5).
    { eapply extends_trans; [|exact Hext45].
      eapply extends_trans; eauto. }
    apply refines_alloc_dict.
    { eapply extends_trans; eauto. }
    constructor; [split; [reflexivity | constructor]|].
    constructor; [|constructor].
    split; [reflexivity|]. cbn [snd].
    apply rep_Dict
      with [("name", HStr (func_name func));
            ("description", HStr (doc_or_empty (func_doc func)));
            ("parameters", HRef (length s3))].
    { apply since_alloc. eapply extends_trans; [exact Hext2|].
      eapply extends_trans; [exact Hext23 | exact Hext34]. }
    { unfold s5. apply nth_error_alloc. }
    constructor; [split; [reflexivity | constructor]|].
    constructor; [split; [reflexivity | constructor]|].
    constructor; [|constructor].
    split; [reflexivity|]. cbn [snd].
    apply rep_Dict
      with [("type", HStr "object");
            ("properties", HRef q);
            ("required", HRef (length s2))].
    { apply since_alloc. eapply extends_trans; [exact Hext2|].
      exact Hext23. }
    { eapply extends_nth_error; [exact Hext45|].
      unfold s4. apply nth_error_alloc. }
    constructor; [split; [reflexivity | constructor]|].
    constructor.
    { split; [reflexivity|]. cbn [snd].
      apply rep_Dict with hprops.
      - unfold since, q. lia.
      - eapply extends_nth_error; [exact Hext25 | exact Hq].
      - eapply Forall2_impl; [|exact Hrep].
        intros he ve. apply entry_rep_impl. intros h v.
        apply represents_mono. intros l o Hl Hnth. split.
        + unfold since, q in *. lia.
        + eapply extends_nth_error; [exact Hext25 | exact Hnth]. }
    constructor; [|constructor].
    split; [reflexivity|]. cbn [snd].
    apply represents_strings.
    { apply since_alloc. exact Hext2. }
    { eapply extends_nth_error;
        [eapply extends_trans; [exact Hext34 | exact Hext45]|].
      unfold s3. apply nth_error_alloc. }
Qed.

End HeapFacts.

(** ** The stored schema *)

Lemma traverse_In {A B} (f : A -> result B) (l : list A) (ys : list B) x :
  traverse f l = Ok ys -> In x l ->
  exists y, f x = Ok y /\ In (x, y) (combine l ys).
Proof.
  revert ys. induction l as [|x' l IH]; intros ys Hys Hin; [contradiction|].
  simpl in Hys. apply bind_Ok in Hys as (y' & Hy' & Hys).
  apply bind_Ok in Hys as (ys' & Hys' & Hys). inversion Hys; subst.
  destruct Hin as [->|Hin].
  - exists y'. split; [assumption | now left].
  - destruct (IH ys' Hys' Hin) as (y & Hy & Hxy).
    exists y. split; [assumption | now right].
Qed.

Lemma get_of_distinct {V} (d : PyDict.t V) k v :
  PyDict.wf d -> In (k, v) d -> PyDict.get k d = Some v.
Proof.
  unfold PyDict.wf, PyDict.keys.
  induction d as [|[k' v'] d IH]; simpl; intros Hnd Hin; [contradiction|].
  inversion Hnd as [|? ? Hnotin Hnd']; subst.
  destruct Hin as [Heq|Hin].
  - inversion Heq; subst. now rewrite String.eqb_refl.
  - destruct (String.eqb_spec k k') as [->|Hne]; [|auto].
    exfalso. apply Hnotin. change k' with (fst (k', v)). now apply in_map.
Qed.

(** Each advertised parameter's entry in [properties] is the resolved
    annotation. *)
Lemma property_is_resolved_annotation params nodes param :
  NoDup (map param_name params) ->
  traverse (fun p => get_type_info (param_annotation p) type_map)
           (filter advertised params) = Ok nodes ->
  In param params -> advertised param = true ->
  exists node,
    get_type_info (param_annotation param) type_map = Ok node
    /\ PyDict.get (param_name param)
         (combine (map param_name (filter advertised params)) nodes)
       = Some node.
Proof.
  intros Hnd Hnodes Hin Hadv.
  assert (Hin' : In param (filter advertised params))
    by (apply filter_In; auto).
  destruct (traverse_In _ _ _ _ Hnodes Hin') as (node & Hnode & Hpair).
  exists node. split; [assumption|].
  apply get_of_distinct.
  - unfold PyDict.wf. rewrite combine_keys.
    + now apply NoDup_map_filter.
    + rewrite (traverse_length _ _ _ Hnodes). now rewrite length_map.
  - rewrite <- (HeapFacts.map_combine_keys param_name).
    change (param_name param, node)
      with ((fun xv : Param * value => (param_name (fst xv), snd xv))
              (param, node)).
    now apply in_map.
Qed.

(** C10.  Two runs of the resolver on one annotation, from any two stores,
    yield nodes that stand for the same value: the value of
    [get_type_info].  For a callable whose advertised parameters resolve,
    the descriptor built over the store, where the first node of each
    parameter loses its [additionalProperties] in place, is the descriptor
    of the pure compiler: each parameter's entry in [properties] is
    [get_type_info] of its annotation, unchanged. *)
Theorem stored_schema_is_the_resolved_annotation :
  forall (func : Callable) (params : list Param) (nodes : list value)
         (a : Annotation) (s s1 s2 s1' s2' : Heap.store) (t1 t2 : Heap.loc),
    func_signature func = inr params ->
    NoDup (map param_name params) ->
    traverse (fun p => get_type_info (param_annotation p) type_map)
             (filter advertised params) = Ok nodes ->
    Heap.get_type_info a type_map s1 = Ok (t1, s1') ->
    Heap.get_type_info a type_map s2 = Ok (t2, s2') ->
    (exists node,
        get_type_info a type_map = Ok node
        /\ HeapLogic.represents (HeapLogic.since s1) s1' (Heap.HRef t1) node
        /\ HeapLogic.represents (HeapLogic.since s2) s2' (Heap.HRef t2) node)
    /\ (forall param,
           In param params -> advertised param = true ->
           exists node,
             get_type_info (param_annotation param) type_map = Ok node
             /\ PyDict.get (param_name param)
                  (combine (map param_name (filter advertised params)) nodes)
                = Some node)
    /\ exists descriptor t s',
         function_to_json func = Ok descriptor
         /\ Heap.function_to_json func s = Ok (t, s')
         /\ HeapLogic.represents (HeapLogic.since s) s' (Heap.HRef t)
                                 descriptor
         /\ descriptor =
            VDict
              [("type", VStr "function");
               ("function",
                 VDict
                   [("name", VStr (func_name func));
                    ("description", VStr (doc_or_empty (func_doc func)));
                    ("parameters",
                      VDict
                        [("type", VStr "object");
                         ("properties",
                           VDict
                             (combine
                                (map param_name (filter advertised params))
                                nodes));
                         ("required",
                           VList (map VStr (required_names params)))])])].
Proof.
  intros func params nodes a s s1 s2 s1' s2' t1 t2 Hsig Hnd Hnodes H1 H2.
  split; [|split].
  - pose proof (HeapFacts.get_type_info_refines type_map a s1) as R1.
    pose proof (HeapFacts.get_type_info_refines type_map a s2) as R2.
    unfold HeapLogic.refines in R1, R2.
    destruct (get_type_info a type_map) as [node|e].
    + destruct R1 as (t1' & s1'' & E1 & _ & Hrep1).
      destruct R2 as (t2' & s2'' & E2 & _ & Hrep2).
      rewrite H1 in E1. rewrite H2 in E2.
      inversion E1; inversion E2; subst. eauto.
    + rewrite H1 in R1. discriminate.
  - intros param Hin Hadv.
    now apply property_is_resolved_annotation.
  - pose proof (HeapFacts.function_to_json_refines func s) as R.
    pose proof (function_to_json_resolved func params nodes Hsig Hnd Hnodes)
      as Hpure.
    rewrite Hpure in R. destruct R as (t & s' & E & _ & Hrep).
    eexists. exists t, s'. repeat split; eassumption.
Qed.

Lemma stored_schema_is_the_resolved_annotation_witness :
  exists descriptor t s',
    function_to_json configure = Ok descriptor
    /\ Heap.function_to_json configure [] = Ok (t, s')
    /\ HeapLogic.represents (HeapLogic.since []) s' (Heap.HRef t) descriptor
    /\ descriptor =
         (VDict
            [("type", VStr "function");
             ("function",
               VDict
                 [("name", VStr "configure");
                  ("description", VStr "");
                  ("parameters",
                    VDict
                      [("type", VStr "object");
                       ("properties",
                         VDict
                           [("limits",
                              VDict
                                [("type", VStr "object");
                                 ("additionalProperties",
                                   VDict [("type", VStr "integer")])]);
                            ("origin",
                              VDict
                                [("type", VStr "object");
                                 ("properties",
                                   VDict
                                     [("x", VDict [("type", VStr "integer")])]);
                                 ("required", VList [VStr "x"]);
                                 ("additionalProperties", VBool false)])]);
                       ("required",
                         VList [VStr "limits"; VStr "origin"])])])]).
Proof.
  eapply (stored_schema_is_the_resolved_annotation configure
            [mkParam "limits"
               (Generic o_dict [Builtin py_str; Builtin py_int]) None;
             mkParam "origin" Point None]
            [VDict [("type", VStr "object");
                    ("additionalProperties", VDict [("type", VStr "integer")])];
             VDict [("type", VStr "object");
                    ("properties",
                      VDict [("x", VDict [("type", VStr "integer")])]);
                    ("required", VList [VStr "x"]);
                    ("additionalProperties", VBool false)]]
            Point [] [] []).
  - reflexivity.
  - repeat constructor; simpl; intuition discriminate.
  - reflexivity.
  - reflexivity.
  - reflexivity.
Defined.

(** * Strings *)

Module StringFacts.
Local Open Scope string_scope.

Lemma string_app_nil_r (s : string) : s ++ "" = s.
Proof. induction s as [|c s IH]; simpl; [reflexivity | now rewrite IH]. Qed.

Lemma string_app_assoc (s t u : string) : s ++ t ++ u = (s ++ t) ++ u.
Proof. induction s as [|c s IH]; simpl; [reflexivity | now rewrite IH]. Qed.

Lemma string_length_app (s t : string) :
  String.length (s ++ t) = String.length s + String.length t.
Proof. induction s as [|c s IH]; simpl; [reflexivity | now rewrite IH]. Qed.

(** ["".join(x :: xs)] *)
Lemma concat_cons (x : string) (xs : list string) :
  String.concat "" (x :: xs) = x ++ String.concat "" xs.
Proof.
  destruct xs; simpl; [now rewrite string_app_nil_r | reflexivity].
Qed.

End StringFacts.

(** * More on the compiler *)

(** ** References of an export *)

Lemma split_last_from_app (sep : ascii) (a b : string) :
  forall acc,
    split_last_from sep (a ++ b) acc =
    split_last_from sep b (split_last_from sep a acc).
Proof.
  induction a as [|c a IH]; intros acc; simpl; [reflexivity|].
  destruct (Ascii.eqb c sep); apply IH.
Qed.

Lemma split_last_from_lacks (sep : ascii) (s : string) :
  lacks sep s = true ->
  forall acc, split_last_from sep s acc = (acc ++ s)%string.
Proof.
  induction s as [|c s IH]; simpl; intros H acc.
  - now rewrite StringFacts.string_app_nil_r.
  - apply andb_true_iff in H as [Hc Hs].
    destruct (Ascii.eqb c sep); [discriminate|].
    rewrite IH by assumption. now rewrite <- StringFacts.string_app_assoc.
Qed.

(** The last segment of a path is what follows its last separator. *)
Lemma split_last_path (sep : ascii) (path name : string) :
  lacks sep name = true ->
  split_last sep (path ++ String sep name) = name.
Proof.
  intros Hname. unfold split_last. rewrite split_last_from_app.
  cbn [split_last_from]. rewrite Ascii.eqb_refl.
  now rewrite split_last_from_lacks.
Qed.

Lemma get_map_values {V W} (f : V -> W) (k : string) (d : PyDict.t V) :
  PyDict.get k (map (fun kv => (fst kv, f (snd kv))) d) =
  option_map f (PyDict.get k d).
Proof.
  induction d as [|[k' v] d IH]; simpl; [reflexivity|].
  destruct (String.eqb k k'); [reflexivity | assumption].
Qed.

(** X1.  In the node of a pydantic model, a property whose exported schema
    refers to [<path>/<name>] holds the body that [$defs] gives for [name],
    whatever the path before the last separator is. *)
Theorem reference_is_replaced_by_its_definition :
  forall (base_type_map : list (builtin * string)) (schema : json_schema)
         (prop : string) (prop_schema : PyDict.t value)
         (path name : string) (body : PyDict.t value) (node : value),
    PyDict.wf (get_properties schema) ->
    PyDict.get prop (get_properties schema) = Some prop_schema ->
    PyDict.get "$ref" prop_schema = Some (VStr (path ++ "/" ++ name)) ->
    lacks "/" name = true ->
    PyDict.get name (get_defs schema) = Some body ->
    get_type_info (PydanticModel schema) base_type_map = Ok node ->
    exists properties,
      node = VDict [("type", VStr "object");
                    ("properties", VDict properties);
                    ("required", VList (map VStr (get_required schema)));
                    ("additionalProperties", VBool false)]
      /\ PyDict.get prop properties = Some (VDict body).
Proof.
  intros base_type_map schema prop prop_schema path name body node
         Hwf Hprop Href Hname Hbody Hnode.
  assert (Hres : resolvable base_type_map (PydanticModel schema) = true).
  { apply get_type_info_returns_iff. now exists node. }
  cbn [get_type_info base_type_of] in Hnode.
  cbn [resolvable base_type_of] in Hres.
  destruct (get_defs schema) as [|def defs] eqn:Hdefs; [discriminate|].
  rewrite expand_refs_all in Hnode by assumption.
  cbn [bind] in Hnode. inversion Hnode; subst node; clear Hnode.
  eexists. split; [reflexivity|].
  unfold objects. rewrite map_map. cbn [fst snd].
  rewrite (get_map_values
             (fun d => VDict (inline_ref (def :: defs) d))).
  rewrite Hprop. cbn [option_map]. unfold inline_ref. rewrite Href.
  change (path ++ "/" ++ name)%string with (path ++ String "/" name)%string.
  rewrite split_last_path by assumption. now rewrite Hbody.
Qed.

Lemma reference_is_replaced_by_its_definition_witness :
  exists properties,
    VDict [("type", VStr "object");
           ("properties",
             VDict [("owner", VDict [("type", VStr "object")])]);
           ("required", VList []);
           ("additionalProperties", VBool false)] =
    VDict [("type", VStr "object");
           ("properties", VDict properties);
           ("required",
             VList (map VStr
                      (get_required
                         (mkSchema (Some [("owner", ref_to "User")]) None
                            (Some [("User", [("type", VStr "object")])])))));
           ("additionalProperties", VBool false)]
    /\ PyDict.get "owner" properties = Some (VDict [("type", VStr "object")]).
Proof.
  apply (reference_is_replaced_by_its_definition type_map
           (mkSchema (Some [("owner", ref_to "User")]) None
                     (Some [("User", [("type", VStr "object")])]))
           "owner" (ref_to "User") "#/$defs" "User"
           [("type", VStr "object")]).
  - repeat constructor. simpl. tauto.
  - reflexivity.
  - reflexivity.
  - reflexivity.
  - reflexivity.
  - reflexivity.
Defined.

(** ** Names in the descriptor *)

Lemma keys_fold_set {V} (items : list (string * V)) : forall d name,
  In name (PyDict.keys
             (fold_left (fun d kv => PyDict.set (fst kv) (snd kv) d)
                        items d))
  <-> In name (PyDict.keys d) \/ In name (PyDict.keys items).
Proof.
  induction items as [|[k v] items IH]; intros d name; simpl.
  - tauto.
  - rewrite IH, PyDictFacts.keys_set.
    destruct (PyDict.mem k d) eqn:Hmem.
    + split; [tauto|]. intros [H|[<-|H]]; auto.
      left. unfold PyDict.mem in Hmem.
      destruct (PyDict.get k d) eqn:Hget; [|discriminate].
      destruct (in_dec string_dec k (PyDict.keys d)) as [|Hn]; auto.
      apply PyDictFacts.get_None_not_In in Hn. congruence.
    + rewrite in_app_iff. simpl. tauto.
Qed.

Lemma advertised_names params name :
  In name (map param_name (filter advertised params))
  <-> name <> "context_variables" /\ In name (map param_name params).
Proof.
  rewrite !in_map_iff. split.
  - intros (p & <- & Hin). apply filter_In in Hin as [Hin Hadv].
    split; [|eauto]. unfold advertised in Hadv.
    destruct (String.eqb_spec (param_name p) "context_variables");
      [discriminate | assumption].
  - intros (Hne & p & <- & Hin). exists p. split; [reflexivity|].
    apply filter_In. split; [assumption|]. unfold advertised.
    destruct (String.eqb_spec (param_name p) "context_variables");
      [contradiction | reflexivity].
Qed.

(** X2.  The descriptor names the parameters consistently: [properties] has
    an entry for exactly the parameters not called [context_variables], and
    every name of [required] other than [context_variables] has an entry in
    [properties]. *)
Theorem descriptor_names_the_parameters :
  forall (func : Callable) (params : list Param) (descriptor : value),
    func_signature func = inr params ->
    function_to_json func = Ok descriptor ->
    exists properties,
      descriptor =
        VDict
          [("type", VStr "function");
           ("function",
             VDict
               [("name", VStr (func_name func));
                ("description", VStr (doc_or_empty (func_doc func)));
                ("parameters",
                  VDict
                    [("type", VStr "object");
                     ("properties", VDict properties);
                     ("required",
                       VList (map VStr (required_names params)))])])]
      /\ (forall name,
             In name (PyDict.keys properties) <->
             name <> "context_variables"
             /\ In name (map param_name params))
      /\ (forall name,
             In name (required_names params) ->
             name = "context_variables"
             \/ In name (PyDict.keys properties)).
Proof.
  intros func params descriptor Hsig Hjson.
  unfold function_to_json in Hjson. rewrite Hsig in Hjson.
  apply bind_Ok in Hjson as (properties & Hprops & Hjson).
  inversion Hjson; subst; clear Hjson.
  exists properties. split; [reflexivity|].
  rewrite compile_parameters_traverse in Hprops.
  apply bind_Ok in Hprops as (nodes & Hnodes & Hprops).
  inversion Hprops; subst properties; clear Hprops.
  assert (Hkeys : forall name,
             In name (PyDict.keys
                        (fold_left
                           (fun d kv => PyDict.set (fst kv) (snd kv) d)
                           (combine (map param_name
                                         (filter advertised params)) nodes)
                           []))
             <-> name <> "context_variables"
                 /\ In name (map param_name params)).
  { intros name. rewrite keys_fold_set. simpl.
    rewrite combine_keys
      by (rewrite (traverse_length _ _ _ Hnodes); now rewrite length_map).
    rewrite advertised_names. tauto. }
  split; [exact Hkeys|].
  intros name Hreq.
  destruct (String.eqb_spec name "context_variables") as [|Hne]; [now left|].
  right. apply Hkeys. split; [assumption|].
  unfold required_names in Hreq. apply in_map_iff in Hreq as (p & <- & Hin).
  apply filter_In in Hin as [Hin _]. now apply in_map.
Qed.

Lemma descriptor_names_the_parameters_witness :
  exists properties,
    VDict
      [("type", VStr "function");
       ("function",
         VDict
           [("name", VStr "lookup");
            ("description", VStr "");
            ("parameters",
              VDict
                [("type", VStr "object");
                 ("properties",
                   VDict [("query", VDict [("type", VStr "string")])]);
                 ("required",
                   VList [VStr "context_variables"; VStr "query"])])])]
    = VDict
        [("type", VStr "function");
         ("function",
           VDict
             [("name", VStr (func_name lookup));
              ("description", VStr (doc_or_empty (func_doc lookup)));
              ("parameters",
                VDict
                  [("type", VStr "object");
                   ("properties", VDict properties);
                   ("required",
                     VList (map VStr
                              (required_names
                                 [mkParam "context_variables" Other None;
                                  mkParam "query" (Scalar py_str) None])))])])]
    /\ (forall name,
           In name (PyDict.keys properties) <->
           name <> "context_variables"
           /\ In name (map param_name
                           [mkParam "context_variables" Other None;
                            mkParam "query" (Scalar py_str) None]))
    /\ (forall name,
           In name (required_names
                      [mkParam "context_variables" Other None;
                       mkParam "query" (Scalar py_str) None]) ->
           name = "context_variables"
           \/ In name (PyDict.keys properties)).
Proof.
  apply (descriptor_names_the_parameters lookup
           [mkParam "context_variables" Other None;
            mkParam "query" (Scalar py_str) None]);
    reflexivity.
Defined.

(** * Objects shared by the node of a pydantic model *)

Module SharingFacts.
Import Heap HeapLogic HeapFacts.

Lemma bindM_runs {A B} (c : M A) (k : A -> M B) s
    (Q : A -> store -> Prop) r :
  runs c s Q -> bindM c k s = r -> exists a s1, Q a s1 /\ k a s1 = r.
Proof.
  intros (a & s1 & Hc & HQ) H. unfold bindM in H. rewrite Hc in H. eauto.
Qed.

Lemma In_get {V} (k : string) (v : V) (d : PyDict.t V) :
  PyDict.get k d = Some v -> In (k, v) d.
Proof.
  induction d as [|[k' v'] d IH]; simpl; [discriminate|].
  destruct (String.eqb_spec k k') as [->|_].
  - intros H. inversion H. now left.
  - auto.
Qed.

Lemma keys_rep {A B} (R : A -> B -> Prop) (hes : PyDict.t A)
    (ves : PyDict.t B) :
  Forall2 (entry_rep R) hes ves -> PyDict.keys hes = PyDict.keys ves.
Proof.
  induction 1 as [|he ve hes ves [Hk _] _ IH]; simpl; [reflexivity|].
  now rewrite Hk, IH.
Qed.

Section links.
Variables (p d : loc).
Hypothesis d_not_p : d <> p.

(** What the loop stores: under the name of each property that refers to
    a definition, the very value that [definitions] holds under the name
    referred to. *)
Lemma expand_refs_links (hitems : list (string * hvalue)) :
  forall (s : store) hprops hdefs s',
    nth_error s p = Some (ODict hprops) ->
    nth_error s d = Some (ODict hdefs) ->
    expand_refs d hitems p s = Ok (tt, s') ->
    exists hprops',
      s' = update p (ODict hprops') s
      /\ (forall k, ~ In k (PyDict.keys hitems) ->
                    PyDict.get k hprops' = PyDict.get k hprops)
      /\ (NoDup (PyDict.keys hitems) ->
          forall k l hes ref body,
            In (k, HRef l) hitems -> l <> p ->
            nth_error s l = Some (ODict hes) ->
            PyDict.get "$ref" hes = Some (HStr ref) ->
            PyDict.get (split_last "/" ref) hdefs = Some body ->
            PyDict.get k hprops' = Some body).
Proof.
  induction hitems as [|[k0 h0] hitems IH];
    intros s hprops hdefs s' Hp Hd Hrun.
  - inversion Hrun; subst. exists hprops.
    split; [now rewrite (update_same _ _ _ Hp)|].
    split; [reflexivity|]. intros _ k l hes ref body [].
  - cbn [expand_refs] in Hrun.
    destruct h0 as [| | | |l0]; try discriminate.
    unfold bindM at 1 in Hrun. unfold entries_of at 1 in Hrun.
    destruct (nth_error s l0) as [[hes0|]|] eqn:Hl0; try discriminate.
    assert (Hskip :
      expand_refs d hitems p s = Ok (tt, s') ->
      (forall ref body, PyDict.get "$ref" hes0 = Some (HStr ref) ->
                        PyDict.get (split_last "/" ref) hdefs = Some body ->
                        False) ->
      exists hprops',
        s' = update p (ODict hprops') s
        /\ (forall k, ~ In k (PyDict.keys ((k0, HRef l0) :: hitems)) ->
                      PyDict.get k hprops' = PyDict.get k hprops)
        /\ (NoDup (PyDict.keys ((k0, HRef l0) :: hitems)) ->
            forall k l hes ref body,
              In (k, HRef l) ((k0, HRef l0) :: hitems) -> l <> p ->
              nth_error s l = Some (ODict hes) ->
              PyDict.get "$ref" hes = Some (HStr ref) ->
              PyDict.get (split_last "/" ref) hdefs = Some body ->
              PyDict.get k hprops' = Some body)).
    { intros Hrest Hno.
      destruct (IH _ _ _ _ Hp Hd Hrest) as (hprops' & -> & Hout & Hin).
      exists hprops'. split; [reflexivity|]. split.
      - intros k Hk. apply Hout. simpl in Hk. tauto.
      - intros Hnd k l hes ref body [Hhd|Htl] Hlp Hl Href Hbody.
        + inversion Hhd; subst. rewrite Hl0 in Hl. inversion Hl; subst.
          destruct (Hno _ _ Href Hbody).
        + simpl in Hnd. inversion Hnd; subst. eapply Hin; eauto. }
    destruct (PyDict.get "$ref" hes0) as [[| | |ref0|]|] eqn:Href0;
      try discriminate.
    + unfold bindM at 1 in Hrun. unfold entries_of at 1 in Hrun.
      rewrite Hd in Hrun.
      destruct (PyDict.get (split_last "/" ref0) hdefs) as [body0|]
        eqn:Hbody0.
      * unfold bindM at 1 in Hrun. unfold setitem, bindM, entries_of in Hrun.
        rewrite Hp in Hrun. unfold store_at in Hrun.
        set (s1 := update p (ODict (PyDict.set k0 body0 hprops)) s) in *.
        assert (Hp1 : nth_error s1 p
                      = Some (ODict (PyDict.set k0 body0 hprops))).
        { apply nth_error_update_same. apply nth_error_Some. congruence. }
        assert (Hd1 : nth_error s1 d = Some (ODict hdefs)).
        { unfold s1. now rewrite nth_error_update_other. }
        destruct (IH _ _ _ _ Hp1 Hd1 Hrun) as (hprops' & -> & Hout & Hin).
        exists hprops'. split; [apply update_update|]. split.
        -- intros k Hk. simpl in Hk. rewrite Hout by tauto.
           apply PyDictFacts.get_set_other. intuition.
        -- intros Hnd k l hes ref body [Hhd|Htl] Hlp Hl Href Hbody.
           ++ inversion Hhd; subst. rewrite Hl0 in Hl.
              inversion Hl; subst. rewrite Href0 in Href.
              inversion Href; subst. rewrite Hbody0 in Hbody.
              inversion Hbody; subst.
              simpl in Hnd. inversion Hnd; subst.
              rewrite Hout by assumption.
              apply PyDictFacts.get_set_same.
           ++ simpl in Hnd. inversion Hnd; subst.
              apply (Hin H2 k l hes ref body); auto.
              unfold s1. now rewrite nth_error_update_other.
      * apply Hskip; [assumption|]. intros ref body Href Hbody.
        inversion Href; subst. congruence.
    + apply Hskip; [assumption|]. intros ref body Href. discriminate.
Qed.
End links.

(** X3.  Two properties of a pydantic model that refer to one definition
    hold one and the same object in the node that [get_type_info] returns:
    the body of the definition is stored under both names, not copied. *)
Theorem shared_definition_is_one_object :
  forall (base_type_map : list (builtin * string)) (schema : json_schema)
         (prop1 prop2 : string) (schema1 schema2 : PyDict.t value)
         (ref1 ref2 : string) (s : store) (t : loc) (s' : store),
    PyDict.wf (get_properties schema) ->
    PyDict.get prop1 (get_properties schema) = Some schema1 ->
    PyDict.get prop2 (get_properties schema) = Some schema2 ->
    PyDict.get "$ref" schema1 = Some (VStr ref1) ->
    PyDict.get "$ref" schema2 = Some (VStr ref2) ->
    split_last "/" ref1 = split_last "/" ref2 ->
    PyDict.mem (split_last "/" ref1) (get_defs schema) = true ->
    Heap.get_type_info (PydanticModel schema) base_type_map s = Ok (t, s') ->
    exists (properties required : loc) (entries : PyDict.t hvalue)
           (body : loc),
      nth_error s' t =
        Some (ODict [("type", HStr "object");
                     ("properties", HRef properties);
                     ("required", HRef required);
                     ("additionalProperties", HBool false)])
      /\ nth_error s' properties = Some (ODict entries)
      /\ PyDict.get prop1 entries = Some (HRef body)
      /\ PyDict.get prop2 entries = Some (HRef body).
Proof.
  intros base_type_map schema prop1 prop2 schema1 schema2 ref1 ref2 s t s'
         Hwf Hprop1 Hprop2 Href1 Href2 Hsame Hmem Hrun.
  cbn [get_type_info base_type_of] in Hrun.
  apply (bindM_runs _ _ _ _ _ (exported_objects_spec _ s)) in Hrun
    as (p & s1 & (Hext1 & Hp & Hlen1 & hprops & Hnthp & Hprops) & Hrun).
  change (match schema_properties schema with
          | Some d => d
          | None => []
          end) with (get_properties schema) in Hprops.
  unfold bindM at 1 in Hrun. unfold exported_names, alloc in Hrun.
  set (s2 := s1 ++ [OList (map HStr match schema_required schema with
                                    | Some r => r
                                    | None => []
                                    end)]) in *.
  apply (bindM_runs _ _ _ _ _ (exported_objects_spec _ s2)) in Hrun
    as (d & s3 & (Hext3 & Hd & Hlen3 & hdefs & Hnthd & Hdefs) & Hrun).
  change (match schema_defs schema with
          | Some d => d
          | None => []
          end) with (get_defs schema) in Hdefs.
  assert (Hext23 : extends s1 s3).
  { eapply extends_trans; [apply extends_alloc | exact Hext3]. }
  assert (Hdp : d <> p).
  { unfold since, s2 in Hd. rewrite length_app in Hd. simpl in Hd. lia. }
  assert (Hnthp3 : nth_error s3 p = Some (ODict hprops)).
  { eapply extends_nth_error; eauto. }
  unfold bindM at 1 in Hrun. unfold entries_of at 1 in Hrun.
  rewrite Hnthd in Hrun.
  (* the definition referred to *)
  set (name := split_last "/" ref1) in *.
  unfold PyDict.mem in Hmem.
  destruct (PyDict.get name (get_defs schema)) as [def|] eqn:Hdef;
    [clear Hmem | discriminate].
  pose proof (get_rep _ name _ _ Hdefs) as Hname.
  rewrite get_objects, Hdef in Hname. cbn [option_map] in Hname.
  destruct (PyDict.get name hdefs) as [hbody|] eqn:Hhbody;
    [|contradiction].
  apply represents_VDict_inv in Hname as (body & _ & -> & _).
  destruct hdefs as [|hdef hdefs']; [discriminate|].
  unfold bindM at 1 in Hrun.
  unfold bindM at 1 in Hrun. unfold entries_of at 1 in Hrun.
  rewrite Hnthp3 in Hrun.
  destruct (expand_refs d hprops p s3) as [[[] s4]|e] eqn:Hexp;
    [|discriminate].
  destruct (expand_refs_links p d Hdp hprops s3 hprops (hdef :: hdefs') s4
                              Hnthp3 Hnthd Hexp)
    as (hprops' & -> & _ & Hlinks).
  assert (Hnd : NoDup (PyDict.keys hprops)).
  { rewrite (keys_rep _ _ _ Hprops). unfold objects, PyDict.keys.
    rewrite map_map. exact Hwf. }
  specialize (Hlinks Hnd).
  assert (Hentry : forall prop prop_schema ref,
             PyDict.get prop (get_properties schema) = Some prop_schema ->
             PyDict.get "$ref" prop_schema = Some (VStr ref) ->
             split_last "/" ref = name ->
             PyDict.get prop hprops' = Some (HRef body)).
  { intros prop prop_schema ref Hprop Href Hname.
    pose proof (get_rep _ prop _ _ Hprops) as Hrep.
    rewrite get_objects, Hprop in Hrep. cbn [option_map] in Hrep.
    destruct (PyDict.get prop hprops) as [h|] eqn:Hh; [|contradiction].
    apply represents_VDict_inv in Hrep
      as (l & hes & -> & [Hl Hlp] & Hnthl & Hes).
    pose proof (get_rep _ "$ref" _ _ Hes) as Hr. rewrite Href in Hr.
    destruct (PyDict.get "$ref" hes) as [href|] eqn:Hhref;
      [|contradiction].
    apply represents_VStr_inv in Hr. subst href.
    apply (Hlinks prop l hes ref (HRef body)).
    - now apply In_get.
    - lia.
    - eapply extends_nth_error; eauto.
    - assumption.
    - now rewrite Hname. }
  unfold object_node, alloc in Hrun. inversion Hrun; subst t s'; clear Hrun.
  set (s4 := update p (ODict hprops') s3).
  exists p, (length s1), hprops', body.
  split; [apply nth_error_alloc|].
  assert (Hp4 : nth_error s4 p = Some (ODict hprops')).
  { apply nth_error_update_same. apply nth_error_Some. congruence. }
  split; [eapply extends_nth_error; [apply extends_alloc | exact Hp4]|].
  split.
  - eapply Hentry; eauto.
  - eapply Hentry; eauto.
Qed.

Lemma shared_definition_is_one_object_witness :
  exists (t : loc) (s' : store),
    Heap.get_type_info
      (PydanticModel
         (mkSchema (Some [("owner", ref_to "User");
                          ("editor", ref_to "User")])
                   None
                   (Some [("User", [("type", VStr "object")])])))
      type_map [] = Ok (t, s')
    /\ exists (properties required : loc) (entries : PyDict.t hvalue)
              (body : loc),
        nth_error s' t =
          Some (ODict [("type", HStr "object");
                       ("properties", HRef properties);
                       ("required", HRef required);
                       ("additionalProperties", HBool false)])
        /\ nth_error s' properties = Some (ODict entries)
        /\ PyDict.get "owner" entries = Some (HRef body)
        /\ PyDict.get "editor" entries = Some (HRef body).
Proof.
  eexists. eexists. split; [reflexivity|].
  apply (shared_definition_is_one_object type_map
           (mkSchema (Some [("owner", ref_to "User");
                            ("editor", ref_to "User")])
                     None
                     (Some [("User", [("type", VStr "object")])]))
           "owner" "editor" (ref_to "User") (ref_to "User")
           "#/$defs/User" "#/$defs/User" []).
  - repeat constructor; simpl; intuition discriminate.
  - reflexivity.
  - reflexivity.
  - reflexivity.
  - reflexivity.
  - reflexivity.
  - reflexivity.
  - reflexivity.
Defined.

End SharingFacts.

(** * The console *)

Module ConsoleFacts.
Import Console.
Local Open Scope string_scope.

Lemma lstrip_blank (b s : string) :
  blank b = true -> lstrip (b ++ s) = lstrip s.
Proof.
  induction b as [|c b IH]; simpl; [reflexivity|].
  intros H. apply andb_true_iff in H as [Hc Hb]. rewrite Hc. auto.
Qed.

Lemma rstrip_of_blank (a : string) : blank a = true -> rstrip a = "".
Proof.
  induction a as [|c a IH]; simpl; [reflexivity|].
  intros H. apply andb_true_iff in H as [Hc Ha].
  rewrite (IH Ha), Hc. reflexivity.
Qed.

Lemma rstrip_blank (s a : string) :
  blank a = true -> rstrip (s ++ a) = rstrip s.
Proof.
  intros Ha. induction s as [|c s IH]; simpl.
  - now apply rstrip_of_blank.
  - now rewrite IH.
Qed.

Lemma lstrip_of_blank (a : string) : blank a = true -> lstrip a = "".
Proof.
  induction a as [|c a IH]; simpl; [reflexivity|].
  intros H. apply andb_true_iff in H as [Hc Ha]. rewrite Hc. auto.
Qed.

Lemma strip_blank_after (s a : string) :
  blank a = true -> strip (s ++ a) = strip s.
Proof.
  intros Ha. unfold strip. induction s as [|c s IH]; simpl.
  - now rewrite lstrip_of_blank.
  - destruct (isspace c); [assumption|].
    change (String c (s ++ a)) with (String c s ++ a).
    now apply rstrip_blank.
Qed.

(** White space pads an answer without changing what is read. *)
Lemma strip_padding (before s after : string) :
  blank before = true -> blank after = true ->
  strip (before ++ s ++ after) = strip s.
Proof.
  intros Hb Ha. unfold strip. rewrite lstrip_blank by assumption.
  now apply strip_blank_after.
Qed.

Lemma isspace_lower_char (c : ascii) : isspace (lower_char c) = isspace c.
Proof.
  destruct c as [[] [] [] [] [] [] [] []]; reflexivity.
Qed.

Lemma lower_lstrip (s : string) : lower (lstrip s) = lstrip (lower s).
Proof.
  induction s as [|c s IH]; simpl; [reflexivity|].
  rewrite isspace_lower_char. destruct (isspace c); [assumption|reflexivity].
Qed.

Lemma lower_rstrip (s : string) : lower (rstrip s) = rstrip (lower s).
Proof.
  induction s as [|c s IH]; simpl; [reflexivity|].
  rewrite <- IH, isspace_lower_char.
  destruct (rstrip s); simpl; [destruct (isspace c)|]; reflexivity.
Qed.

Lemma lower_strip (s : string) : lower (strip s) = strip (lower s).
Proof. unfold strip. now rewrite lower_rstrip, lower_lstrip. Qed.

(** X4.  The answer does not depend on white space around the input nor on
    the case of its letters: an input that agrees with another once lowered
    gets the same answer, whatever white space surrounds it. An input of
    white space alone is answered [False]. *)
Theorem answer_ignores_case_and_padding :
  forall answer typed before after : string,
    lower typed = lower answer ->
    blank before = true -> blank after = true ->
    get_user_confirmation (before ++ typed ++ after) =
      get_user_confirmation answer
    /\ get_user_confirmation before = Some false.
Proof.
  intros answer typed before after Hcase Hb Ha.
  unfold get_user_confirmation. split.
  - rewrite strip_padding by assumption.
    now rewrite !lower_strip, Hcase.
  - unfold strip. now rewrite (lstrip_of_blank _ Hb).
Qed.

Lemma answer_ignores_case_and_padding_witness :
  get_user_confirmation ("  " ++ "YES" ++ " ") = get_user_confirmation "yes"
  /\ get_user_confirmation "  " = Some false.
Proof.
  apply (answer_ignores_case_and_padding "yes" "YES" "  " " ");
    reflexivity.
Defined.

End ConsoleFacts.

(** * Streamed responses *)

Module MergeFacts.
Import Runtime.
Local Open Scope outcome_scope.

Lemma and_then_Return {A B} (r : outcome A) (k : A -> outcome B) (b : B) :
  and_then r k = Return b -> exists a, r = Return a /\ k a = Return b.
Proof. destruct r; simpl; [eauto | discriminate]. Qed.

(** The loop of [merge_fields], one item at a time. *)
Lemma merge_fields_items (entries : list (string * value)) :
  forall target,
    merge_fields target (VDict entries) =
    fold_outcome merge_item entries target.
Proof.
  induction entries as [|[key v] entries IH]; intros target;
    [reflexivity|].
  change (merge_fields target (VDict ((key, v) :: entries)))
    with (match v with
          | VStr s =>
              old <- getitem_str target key ;;
              new <- iadd_str old s ;;
              merge_fields (setitem_str target key new) (VDict entries)
          | VDict _ =>
              old <- getitem_str target key ;;
              new <- merge_fields old v ;;
              merge_fields (setitem_str target key new) (VDict entries)
          | _ => merge_fields target (VDict entries)
          end).
  cbn [fold_outcome]. unfold merge_item. cbn [fst snd].
  destruct v; cbn [and_then]; try apply IH.
  - destruct (getitem_str target key); cbn [and_then]; [|reflexivity].
    destruct (iadd_str a s); cbn [and_then]; [apply IH | reflexivity].
  - destruct (getitem_str target key); cbn [and_then]; [|reflexivity].
    destruct (merge_fields a (VDict entries0)); cbn [and_then];
      [apply IH | reflexivity].
Qed.

Lemma getitem_str_Return target key v :
  getitem_str target key = Return v ->
  exists entries, target = VDict entries /\ PyDict.get key entries = Some v.
Proof.
  destruct target; simpl; try discriminate.
  destruct (PyDict.get key entries) eqn:E; [|discriminate].
  intros H. inversion H; subst. eauto.
Qed.

(** An item that is merged finds its key in the target, which stays a
    dictionary with the same keys; only the value under the item's key can
    change. *)
Lemma merge_item_Return target key v r :
  merged_kind v = true ->
  merge_item target (key, v) = Return r ->
  exists entries old new,
    target = VDict entries
    /\ PyDict.get key entries = Some old
    /\ r = VDict (PyDict.set key new entries)
    /\ match v with
       | VStr s => iadd_str old s = Return new
       | _ => merge_fields old v = Return new
       end.
Proof.
  intros Hkind H. unfold merge_item in H. cbn [fst snd] in H.
  destruct v; try discriminate.
  - apply and_then_Return in H as (old & Hold & H).
    apply and_then_Return in H as (new & Hnew & H).
    apply getitem_str_Return in Hold as (entries & -> & Hget).
    inversion H; subst. exists entries, old, new. auto.
  - apply and_then_Return in H as (old & Hold & H).
    apply and_then_Return in H as (new & Hnew & H).
    apply getitem_str_Return in Hold as (es & -> & Hget).
    inversion H; subst. exists es, old, new. auto.
Qed.

Lemma merge_item_skips target key v :
  merged_kind v = false -> merge_item target (key, v) = Return target.
Proof. destruct v; simpl; intros H; try discriminate; reflexivity. Qed.

Lemma keys_set_present {V} key (old new : V) (d : PyDict.t V) :
  PyDict.get key d = Some old ->
  PyDict.keys (PyDict.set key new d) = PyDict.keys d.
Proof.
  intros Hget. rewrite PyDictFacts.keys_set. unfold PyDict.mem.
  now rewrite Hget.
Qed.

Lemma get_Some_In {V} key (v : V) (d : PyDict.t V) :
  PyDict.get key d = Some v -> In key (PyDict.keys d).
Proof.
  intros Hget. destruct (in_dec string_dec key (PyDict.keys d)); auto.
  apply PyDictFacts.get_None_not_In in n. congruence.
Qed.

Lemma fold_merge_keys (items : list (string * value)) :
  forall entries r,
    fold_outcome merge_item items (VDict entries) = Return r ->
    exists entries',
      r = VDict entries'
      /\ PyDict.keys entries' = PyDict.keys entries
      /\ forall key v, In (key, v) items -> merged_kind v = true ->
                       In key (PyDict.keys entries).
Proof.
  induction items as [|[key v] items IH]; intros entries r H.
  - inversion H; subst. exists entries. repeat split. intros ? ? [].
  - cbn [fold_outcome] in H.
    apply and_then_Return in H as (t1 & Hitem & Hrest).
    destruct (merged_kind v) eqn:Hkind.
    + apply merge_item_Return in Hitem
        as (es & old & new & Heq & Hget & -> & _); [|assumption].
      inversion Heq; subst es.
      destruct (IH _ _ Hrest) as (entries' & -> & Hkeys & Hin).
      rewrite (keys_set_present _ _ _ _ Hget) in Hkeys, Hin.
      exists entries'. repeat split; [assumption|].
      intros key' v' [Hhd|Htl] Hk'.
      * inversion Hhd; subst. eapply get_Some_In; eauto.
      * eauto.
    + rewrite merge_item_skips in Hitem by assumption.
      inversion Hitem; subst t1.
      destruct (IH _ _ Hrest) as (entries' & -> & Hkeys & Hin).
      exists entries'. repeat split; [assumption|].
      intros key' v' [Hhd|Htl] Hk'; [|eauto].
      inversion Hhd; subst. congruence.
Qed.

(** A target that is not a dictionary cannot be read by a key: the call
    returns only if nothing of the source is merged, and then the target is
    as it was. *)
Lemma fold_merge_not_a_dict (items : list (string * value)) :
  forall target r,
    (forall entries, target <> VDict entries) ->
    fold_outcome merge_item items target = Return r ->
    r = target.
Proof.
  induction items as [|[key v] items IH]; intros target r Hnd H.
  - now inversion H.
  - cbn [fold_outcome] in H.
    apply and_then_Return in H as (t1 & Hitem & Hrest).
    destruct (merged_kind v) eqn:Hkind.
    + apply merge_item_Return in Hitem as (es & ? & ? & Heq & _);
        [|assumption].
      now apply Hnd in Heq.
    + rewrite merge_item_skips in Hitem by assumption.
      inversion Hitem; subst t1. eauto.
Qed.

Lemma merge_fields_source_is_dict target source r :
  merge_fields target source = Return r -> exists items, source = VDict items.
Proof. destruct source; try discriminate. eauto. Qed.

Lemma merge_fields_not_a_dict target source r :
  (forall entries, target <> VDict entries) ->
  merge_fields target source = Return r -> r = target.
Proof.
  intros Hnd H.
  destruct (merge_fields_source_is_dict _ _ _ H) as [items ->].
  rewrite merge_fields_items in H. eapply fold_merge_not_a_dict; eauto.
Qed.

(** What the loop does to the text under one key of the target. *)
Lemma fold_merge_text (items : list (string * value)) (key : string) :
  NoDup (PyDict.keys items) ->
  forall entries text r,
    PyDict.get key entries = Some (VStr text) ->
    fold_outcome merge_item items (VDict entries) = Return r ->
    exists entries',
      r = VDict entries'
      /\ PyDict.get key entries' = Some (VStr (text ++ text_at key items)).
Proof.
  induction items as [|[key' v] items IH]; intros Hnd entries text r Hget H.
  - inversion H; subst. exists entries. split; [reflexivity|].
    unfold text_at. simpl. now rewrite StringFacts.string_app_nil_r.
  - cbn [fold_outcome] in H.
    apply and_then_Return in H as (t1 & Hitem & Hrest).
    simpl in Hnd. inversion Hnd as [|? ? Hnotin Hnd']; subst.
    destruct (String.eqb_spec key key') as [<-|Hne].
    + assert (Hrest_text : text_at key items = "").
      { unfold text_at.
        apply PyDictFacts.get_None_not_In in Hnotin. now rewrite Hnotin. }
      assert (Hhere : forall s, text_at key ((key, VStr s) :: items) = s).
      { intros s. unfold text_at. simpl. now rewrite String.eqb_refl. }
      assert (Hnone : forall v', (forall s, v' <> VStr s) ->
                                 text_at key ((key, v') :: items) = "").
      { intros v' Hv'. unfold text_at. simpl. rewrite String.eqb_refl.
        destruct v'; try reflexivity. now destruct (Hv' s). }
      destruct (merged_kind v) eqn:Hkind.
      * apply merge_item_Return in Hitem
          as (es & old & new & Heq & Hold & -> & Hnew); [|assumption].
        inversion Heq; subst es. rewrite Hget in Hold.
        inversion Hold; subst old.
        destruct v; try discriminate.
        -- simpl in Hnew. inversion Hnew; subst new.
           destruct (IH Hnd' _ (text ++ s)%string _
                        (PyDictFacts.get_set_same _ _ _) Hrest)
             as (entries' & -> & Hget').
           exists entries'. split; [reflexivity|].
           now rewrite Hget', Hrest_text, Hhere, StringFacts.string_app_nil_r.
        -- apply merge_fields_not_a_dict in Hnew; [|discriminate].
           subst new.
           destruct (IH Hnd' _ text _
                        (PyDictFacts.get_set_same _ _ _) Hrest)
             as (entries' & -> & Hget').
           exists entries'. split; [reflexivity|].
           rewrite Hget', Hrest_text, Hnone; [reflexivity | discriminate].
      * rewrite merge_item_skips in Hitem by assumption.
        inversion Hitem; subst t1.
        destruct (IH Hnd' _ _ _ Hget Hrest) as (entries' & -> & Hget').
        exists entries'. split; [reflexivity|].
        rewrite Hget', Hrest_text, Hnone; [reflexivity|].
        intros s ->. discriminate.
    + assert (Hsame : text_at key ((key', v) :: items) = text_at key items).
      { unfold text_at. simpl.
        destruct (String.eqb_spec key key'); [contradiction | reflexivity]. }
      rewrite Hsame.
      destruct (merged_kind v) eqn:Hkind.
      * apply merge_item_Return in Hitem
          as (es & old & new & Heq & Hold & -> & Hnew); [|assumption].
        inversion Heq; subst es.
        apply (IH Hnd' (PyDict.set key' new entries) text r);
          [|assumption].
        now rewrite PyDictFacts.get_set_other.
      * rewrite merge_item_skips in Hitem by assumption.
        inversion Hitem; subst t1. eauto.
Qed.

(** The loop leaves alone every key of the target that the source does
    not name. *)
Lemma fold_merge_other_key (items : list (string * value)) (key : string) :
  ~ In key (PyDict.keys items) ->
  forall entries r,
    fold_outcome merge_item items (VDict entries) = Return r ->
    exists entries',
      r = VDict entries' /\ PyDict.get key entries' = PyDict.get key entries.
Proof.
  induction items as [|[key' v] items IH]; intros Hnotin entries r H.
  - inversion H; subst. eauto.
  - cbn [fold_outcome] in H.
    apply and_then_Return in H as (t1 & Hitem & Hrest).
    simpl in Hnotin.
    destruct (merged_kind v) eqn:Hkind.
    + apply merge_item_Return in Hitem
        as (es & old & new & Heq & Hold & -> & Hnew); [|assumption].
      inversion Heq; subst es.
      destruct (IH (fun H' => Hnotin (or_intror H')) _ _ Hrest)
        as (entries' & -> & Hget).
      exists entries'. split; [reflexivity|].
      rewrite Hget. apply PyDictFacts.get_set_other. intuition.
    + rewrite merge_item_skips in Hitem by assumption.
      inversion Hitem; subst t1.
      apply IH; [tauto | assumption].
Qed.

Lemma fold_merge_filter (items : list (string * value)) :
  forall target,
    fold_outcome merge_item items target =
    fold_outcome merge_item
      (filter (fun item => merged_kind (snd item)) items) target.
Proof.
  induction items as [|[key v] items IH]; intros target; [reflexivity|].
  cbn [filter snd]. destruct (merged_kind v) eqn:Hkind.
  - cbn [fold_outcome].
    destruct (merge_item target (key, v)); cbn [and_then]; auto.
  - cbn [fold_outcome]. rewrite merge_item_skips by assumption.
    cbn [and_then]. apply IH.
Qed.

(** X5.  [merge_fields] never adds, removes or reorders a key of the target:
    when it returns, the target has the keys it had, and every key under
    which the source holds a string or a dictionary was among them. A target
    that is not a dictionary is returned as it was. *)
Theorem merge_fields_keeps_the_keys :
  forall (target source merged : value),
    merge_fields target source = Return merged ->
    match target with
    | VDict entries =>
        exists items entries',
          source = VDict items
          /\ merged = VDict entries'
          /\ PyDict.keys entries' = PyDict.keys entries
          /\ forall key v, In (key, v) items -> merged_kind v = true ->
                           In key (PyDict.keys entries)
    | _ => merged = target
    end.
Proof.
  intros target source merged H.
  destruct target as [| | | |l|entries];
    try (eapply merge_fields_not_a_dict; [discriminate | eassumption]).
  destruct (merge_fields_source_is_dict _ _ _ H) as [items ->].
  rewrite merge_fields_items in H.
  destruct (fold_merge_keys _ _ _ H) as (entries' & -> & Hkeys & Hin).
  exists items, entries'. auto.
Qed.

Lemma merge_fields_keeps_the_keys_witness :
  exists items entries',
    VDict [("content", VStr "lo"); ("role", VNone)] = VDict items
    /\ VDict [("content", VStr "Hello"); ("role", VStr "assistant")]
       = VDict entries'
    /\ PyDict.keys entries' =
       PyDict.keys [("content", VStr "Hel"); ("role", VStr "assistant")]
    /\ forall key v, In (key, v) items -> merged_kind v = true ->
                     In key (PyDict.keys [("content", VStr "Hel");
                                          ("role", VStr "assistant")]).
Proof.
  exact (merge_fields_keeps_the_keys
           (VDict [("content", VStr "Hel"); ("role", VStr "assistant")])
           (VDict [("content", VStr "lo"); ("role", VNone)])
           (VDict [("content", VStr "Hello"); ("role", VStr "assistant")])
           eq_refl).
Defined.

(** X6.  Values of the source that are neither strings nor dictionaries
    ([None], booleans, numbers, lists) are never merged: the call ends as it
    does on the source without them, whatever the target holds under their
    keys. *)
Theorem merge_fields_skips_other_values :
  forall (target : value) (items : list (string * value)),
    merge_fields target (VDict items) =
    merge_fields target
      (VDict (filter (fun item => merged_kind (snd item)) items)).
Proof.
  intros target items. rewrite !merge_fields_items.
  apply fold_merge_filter.
Qed.

(** X7.  A string of the source is appended to the text the target holds
    under the same key, and a key the source does not name keeps its value. *)
Theorem merge_fields_appends_text :
  forall (entries items : PyDict.t value) (key other : string)
         (text : string) (merged : value),
    PyDict.wf items ->
    PyDict.get key entries = Some (VStr text) ->
    ~ In other (PyDict.keys items) ->
    merge_fields (VDict entries) (VDict items) = Return merged ->
    exists entries',
      merged = VDict entries'
      /\ PyDict.get key entries' = Some (VStr (text ++ text_at key items))
      /\ PyDict.get other entries' = PyDict.get other entries.
Proof.
  intros entries items key other text merged Hwf Hget Hother H.
  rewrite merge_fields_items in H.
  destruct (fold_merge_text items key Hwf _ _ _ Hget H)
    as (entries' & -> & Hkey).
  destruct (fold_merge_other_key items other Hother _ _ H)
    as (entries'' & Heq & Hsame).
  inversion Heq; subst entries''. eauto.
Qed.

Lemma merge_fields_appends_text_witness :
  exists entries',
    VDict [("content", VStr "Hello"); ("sender", VStr "agent")]
      = VDict entries'
    /\ PyDict.get "content" entries' =
       Some (VStr ("Hel" ++ text_at "content" [("content", VStr "lo")]))
    /\ PyDict.get "sender" entries' =
       PyDict.get "sender"
         [("content", VStr "Hel"); ("sender", VStr "agent")].
Proof.
  apply (merge_fields_appends_text
           [("content", VStr "Hel"); ("sender", VStr "agent")]
           [("content", VStr "lo")] "content" "sender" "Hel").
  - repeat constructor. simpl. tauto.
  - reflexivity.
  - simpl. intros [H|[]]. discriminate.
  - reflexivity.
Defined.

(** *** [merge_chunk] *)

Lemma wf_del {V} (key : string) (d : PyDict.t V) :
  PyDict.wf d -> PyDict.wf (PyDict.del key d).
Proof.
  unfold PyDict.wf, PyDict.keys.
  induction d as [|[k v] d IH]; simpl; intros Hnd; [constructor|].
  inversion Hnd as [|? ? Hnotin Hnd']; subst.
  destruct (String.eqb key k); [assumption|].
  simpl. constructor; [|auto].
  intros Hin. apply Hnotin. clear - Hin.
  induction d as [|[k' v'] d IH]; simpl in *; [contradiction|].
  destruct (String.eqb key k'); simpl in *; tauto.
Qed.

(** What a call of [merge_chunk] that returns has done: the delta without
    its role was merged, and then at most the entry [tool_calls] of the
    response has changed. *)
Lemma merge_chunk_Return entries delta merged delta' :
  merge_chunk (VDict entries) delta = Return (merged, delta') ->
  exists entries0 entries',
    merge_fields (VDict entries) (VDict (PyDict.del "role" delta))
      = Return (VDict entries0)
    /\ merged = VDict entries'
    /\ (forall key, key <> "tool_calls" ->
                    PyDict.get key entries' = PyDict.get key entries0
                    /\ PyDict.get key delta' =
                       PyDict.get key (PyDict.del "role" delta)).
Proof.
  unfold merge_chunk. intros H.
  apply and_then_Return in H as (merged0 & Hmerge & H).
  pose proof Hmerge as Hfold. rewrite merge_fields_items in Hfold.
  destruct (fold_merge_keys _ _ _ Hfold) as (entries0 & -> & _).
  exists entries0.
  destruct (PyDict.get "tool_calls" (PyDict.del "role" delta))
    as [tool_calls|].
  - destruct (truthy tool_calls).
    + destruct tool_calls as [| | | |[|[| | | | |call] others]|];
        try discriminate.
      destruct (PyDict.get "index" call) as [index|]; [|discriminate].
      apply and_then_Return in H as (calls & Hcalls & H).
      apply and_then_Return in H as (slot & Hslot & H).
      apply and_then_Return in H as (slot' & Hslot' & H).
      inversion H; subst. cbn [setitem_str]. eexists.
      split; [assumption|]. split; [reflexivity|].
      intros key Hkey. now rewrite !PyDictFacts.get_set_other.
    + inversion H; subst. eauto.
  - inversion H; subst. eauto.
Qed.

(** X8.  Over a stream of deltas, the text of the response under a key is
    the text it started with followed by what each delta holds under that
    key, in order of arrival. This holds for every key but [role], which
    [merge_chunk] drops, and [tool_calls], which it merges by index. *)
Theorem streamed_text_is_concatenated :
  forall (key : string) (deltas : list (PyDict.t value))
         (entries : PyDict.t value) (text : string) (merged : value),
    key <> "role" -> key <> "tool_calls" ->
    Forall PyDict.wf deltas ->
    PyDict.get key entries = Some (VStr text) ->
    merge_chunks (VDict entries) deltas = Return merged ->
    exists entries',
      merged = VDict entries'
      /\ PyDict.get key entries' =
         Some (VStr (text ++ String.concat "" (map (text_at key) deltas))).
Proof.
  intros key deltas entries text merged Hrole Htools Hwf. revert entries text.
  induction Hwf as [|delta deltas Hdelta _ IH]; intros entries text Hget H.
  - inversion H; subst. exists entries. split; [reflexivity|].
    simpl. now rewrite StringFacts.string_app_nil_r.
  - cbn [merge_chunks] in H.
    apply and_then_Return in H as ([merged1 delta'] & Hchunk & Hrest).
    apply merge_chunk_Return in Hchunk
      as (entries0 & entries1 & Hmerge & -> & Hkeys).
    rewrite merge_fields_items in Hmerge.
    destruct (fold_merge_text _ key (wf_del "role" _ Hdelta) _ _ _
                              Hget Hmerge)
      as (entries0' & Heq & Htext).
    inversion Heq; subst entries0'.
    assert (Hat : text_at key (PyDict.del "role" delta) = text_at key delta).
    { unfold text_at. now rewrite PyDictFacts.get_del_other. }
    rewrite Hat in Htext.
    destruct (Hkeys key Htools) as [Hsame _]. rewrite <- Hsame in Htext.
    destruct (IH _ _ Htext Hrest) as (entries' & -> & Hfinal).
    exists entries'. split; [reflexivity|].
    rewrite Hfinal. cbn [map]. rewrite StringFacts.concat_cons.
    now rewrite StringFacts.string_app_assoc.
Qed.

Lemma streamed_text_is_concatenated_witness :
  exists entries',
    VDict [("content", VStr "Hello"); ("role", VStr "assistant")]
      = VDict entries'
    /\ PyDict.get "content" entries' =
       Some (VStr ("" ++ String.concat ""
                           (map (text_at "content")
                                [[("role", VStr "assistant");
                                  ("content", VStr "Hel")];
                                 [("content", VStr "lo");
                                  ("tool_calls", VNone)]]))).
Proof.
  apply (streamed_text_is_concatenated "content"
           [[("role", VStr "assistant"); ("content", VStr "Hel")];
            [("content", VStr "lo"); ("tool_calls", VNone)]]
           [("content", VStr ""); ("role", VStr "assistant")] "").
  - discriminate.
  - discriminate.
  - repeat constructor; simpl; intuition discriminate.
  - reflexivity.
  - reflexivity.
Defined.

(** X9.  The role of a delta is dropped, not merged: after [merge_chunk] the
    response holds under [role] what it held before, and the delta has no
    [role] left. *)
Theorem role_is_dropped_not_merged :
  forall (entries delta : PyDict.t value) (merged : value)
         (delta' : PyDict.t value),
    PyDict.wf delta ->
    merge_chunk (VDict entries) delta = Return (merged, delta') ->
    exists entries',
      merged = VDict entries'
      /\ PyDict.get "role" entries' = PyDict.get "role" entries
      /\ PyDict.get "role" delta' = None.
Proof.
  intros entries delta merged delta' Hwf H.
  apply merge_chunk_Return in H as (entries0 & entries' & Hmerge & -> & Hkeys).
  destruct (Hkeys "role") as [Hresp Hdelta]; [discriminate|].
  exists entries'. split; [reflexivity|].
  rewrite Hresp, Hdelta, PyDictFacts.get_del_same by assumption.
  split; [|reflexivity].
  rewrite merge_fields_items in Hmerge.
  destruct (fold_merge_other_key (PyDict.del "role" delta) "role")
       with (entries := entries) (r := VDict entries0)
    as (entries0' & Heq & Hsame); [|assumption|].
  - apply PyDictFacts.get_None_not_In.
    now apply PyDictFacts.get_del_same.
  - inversion Heq; subst. assumption.
Qed.

Lemma role_is_dropped_not_merged_witness :
  exists entries',
    VDict [("content", VStr "Hi"); ("role", VStr "assistant")]
      = VDict entries'
    /\ PyDict.get "role" entries' =
       PyDict.get "role" [("content", VStr ""); ("role", VStr "assistant")]
    /\ PyDict.get "role" [("content", VStr "Hi")] = None.
Proof.
  apply (role_is_dropped_not_merged
           [("content", VStr ""); ("role", VStr "assistant")]
           [("role", VStr "assistant"); ("content", VStr "Hi")]).
  - repeat constructor; simpl; intuition discriminate.
  - reflexivity.
Defined.

(** A key under which the source holds a value that is not merged keeps
    its value in the target. *)
Lemma fold_merge_unmerged_key (items : list (string * value)) (key : string)
    (v : value) :
  PyDict.wf items ->
  PyDict.get key items = Some v ->
  merged_kind v = false ->
  forall entries r,
    fold_outcome merge_item items (VDict entries) = Return r ->
    exists entries',
      r = VDict entries' /\ PyDict.get key entries' = PyDict.get key entries.
Proof.
  intros Hwf Hget Hkind entries r H. rewrite fold_merge_filter in H.
  apply (fold_merge_other_key _ key) in H; [assumption|].
  intros Hin. apply in_map_iff in Hin as ([k v'] & Hk & Hin).
  simpl in Hk. subst k. apply filter_In in Hin as [Hin Hv'].
  simpl in Hv'. apply (get_of_distinct _ _ _ Hwf) in Hin. congruence.
Qed.

Lemma position_of_nat (i len : nat) :
  position (Z.of_nat i) len = if Nat.ltb i len then Some i else None.
Proof.
  unfold position.
  destruct (Nat.ltb_spec i len) as [Hlt|Hge].
  - replace (0 <=? Z.of_nat i)%Z with true by (symmetry; apply Z.leb_le; lia).
    replace (Z.of_nat i <? Z.of_nat len)%Z with true
      by (symmetry; apply Z.ltb_lt; lia).
    simpl. now rewrite Nat2Z.id.
  - replace (Z.of_nat i <? Z.of_nat len)%Z with false
      by (symmetry; apply Z.ltb_ge; lia).
    replace (Z.of_nat i <? 0)%Z with false
      by (symmetry; apply Z.ltb_ge; lia).
    now rewrite andb_false_r.
Qed.

Lemma length_replace_nth {A} (n : nat) (x : A) (l : list A) :
  length (replace_nth n x l) = length l.
Proof.
  revert n. induction l as [|y l IH]; intros [|n]; simpl; auto.
Qed.

Lemma nth_error_replace_same {A} (n : nat) (x : A) (l : list A) :
  n < length l -> nth_error (replace_nth n x l) n = Some x.
Proof.
  revert n. induction l as [|y l IH]; intros [|n]; simpl; intros H;
    try lia; [reflexivity|].
  apply IH. lia.
Qed.

Lemma nth_error_replace_other {A} (n m : nat) (x : A) (l : list A) :
  m <> n -> nth_error (replace_nth n x l) m = nth_error l m.
Proof.
  revert n m. induction l as [|y l IH]; intros [|n] [|m]; simpl; intros H;
    try reflexivity; try congruence.
  apply IH. congruence.
Qed.

(** X10.  A delta that carries a tool call is merged into the slot of the
    response that the call's [index] names: the slot becomes the merge of
    what it was with the call without its [index], and every other slot of
    [tool_calls] stays as it was. The call of the delta has lost its
    [index]. *)
Theorem tool_call_is_merged_into_its_slot :
  forall (entries delta call : PyDict.t value) (others calls : list value)
         (i : nat) (merged : value) (delta' : PyDict.t value),
    PyDict.wf delta ->
    PyDict.get "tool_calls" delta = Some (VList (VDict call :: others)) ->
    PyDict.get "index" call = Some (VInt (Z.of_nat i)) ->
    PyDict.get "tool_calls" entries = Some (VList calls) ->
    merge_chunk (VDict entries) delta = Return (merged, delta') ->
    exists (entries' : PyDict.t value) (calls' : list value)
           (slot slot' : value),
      merged = VDict entries'
      /\ PyDict.get "tool_calls" entries' = Some (VList calls')
      /\ length calls' = length calls
      /\ nth_error calls i = Some slot
      /\ merge_fields slot (VDict (PyDict.del "index" call)) = Return slot'
      /\ nth_error calls' i = Some slot'
      /\ (forall j, j <> i -> nth_error calls' j = nth_error calls j)
      /\ PyDict.get "tool_calls" delta' =
         Some (VList (VDict (PyDict.del "index" call) :: others)).
Proof.
  intros entries delta call others calls i merged delta'
         Hwf Htools Hindex Hcalls H.
  unfold merge_chunk in H.
  apply and_then_Return in H as (merged0 & Hmerge & H).
  assert (Htools' : PyDict.get "tool_calls" (PyDict.del "role" delta)
                    = Some (VList (VDict call :: others))).
  { rewrite PyDictFacts.get_del_other; [assumption | discriminate]. }
  rewrite merge_fields_items in Hmerge.
  destruct (fold_merge_unmerged_key _ "tool_calls" _
              (wf_del "role" _ Hwf) Htools' eq_refl _ _ Hmerge)
    as (entries0 & -> & Hkept).
  rewrite Htools' in H. cbn [truthy] in H. rewrite Hindex in H.
  cbn [getitem_str] in H. rewrite Hkept, Hcalls in H. cbn [and_then] in H.
  apply and_then_Return in H as (slot & Hslot & H).
  apply and_then_Return in H as (slot' & Hslot' & H).
  inversion H; subst merged delta'; clear H.
  cbn [getitem as_index] in Hslot. rewrite position_of_nat in Hslot.
  destruct (Nat.ltb_spec i (length calls)) as [Hlt|_]; [|discriminate].
  destruct (nth_error calls i) as [slot0|] eqn:Hnth; [|discriminate].
  inversion Hslot; subst slot0; clear Hslot.
  cbn [setitem_str with_item as_index]. rewrite position_of_nat.
  destruct (Nat.ltb_spec i (length calls)) as [_|Hge]; [|lia].
  exists (PyDict.set "tool_calls" (VList (replace_nth i slot' calls))
                     entries0),
         (replace_nth i slot' calls), slot, slot'.
  split; [reflexivity|].
  split; [apply PyDictFacts.get_set_same|].
  split; [apply length_replace_nth|].
  split; [reflexivity|].
  split; [assumption|].
  split; [now apply nth_error_replace_same|].
  split; [intros j Hj; now apply nth_error_replace_other|].
  apply PyDictFacts.get_set_same.
Qed.

Lemma tool_call_is_merged_into_its_slot_witness :
  exists (entries' : PyDict.t value) (calls' : list value)
         (slot slot' : value),
    VDict [("content", VStr "");
           ("tool_calls",
             VList [VDict [("function",
                             VDict [("arguments", VStr "{}");
                                    ("name", VStr "search")]);
                           ("id", VStr "call_1")]])]
      = VDict entries'
    /\ PyDict.get "tool_calls" entries' = Some (VList calls')
    /\ length calls' =
       length [VDict [("function",
                       VDict [("arguments", VStr "{");
                              ("name", VStr "search")]);
                      ("id", VStr "call_1")]]
    /\ nth_error [VDict [("function",
                          VDict [("arguments", VStr "{");
                                 ("name", VStr "search")]);
                         ("id", VStr "call_1")]] 0
       = Some slot
    /\ merge_fields slot
         (VDict (PyDict.del "index"
                   [("index", VInt (Z.of_nat 0));
                    ("function", VDict [("arguments", VStr "}")])]))
       = Return slot'
    /\ nth_error calls' 0 = Some slot'
    /\ (forall j, j <> 0 ->
                  nth_error calls' j =
                  nth_error [VDict [("function",
                                     VDict [("arguments", VStr "{");
                                            ("name", VStr "search")]);
                                    ("id", VStr "call_1")]] j)
    /\ PyDict.get "tool_calls"
         [("content", VNone);
          ("tool_calls",
            VList [VDict [("function", VDict [("arguments", VStr "}")])]])]
       = Some (VList
                 [VDict (PyDict.del "index"
                           [("index", VInt (Z.of_nat 0));
                            ("function",
                              VDict [("arguments", VStr "}")])])]).
Proof.
  apply (tool_call_is_merged_into_its_slot
           [("content", VStr "");
            ("tool_calls",
              VList [VDict [("function",
                              VDict [("arguments", VStr "{");
                                     ("name", VStr "search")]);
                            ("id", VStr "call_1")]])]
           [("content", VNone);
            ("tool_calls",
              VList [VDict [("index", VInt (Z.of_nat 0));
                            ("function",
                              VDict [("arguments", VStr "}")])]])]
           [("index", VInt (Z.of_nat 0));
            ("function", VDict [("arguments", VStr "}")])]
           []
           [VDict [("function",
                    VDict [("arguments", VStr "{");
                           ("name", VStr "search")]);
                   ("id", VStr "call_1")]]
           0).
  - repeat constructor; simpl; intuition discriminate.
  - reflexivity.
  - reflexivity.
  - reflexivity.
  - reflexivity.
Defined.

End MergeFacts.

(** * The sandbox clients *)

Module SandboxFacts.
Import Runtime.

(** ** Lines *)

Lemma split_from_app (a b : string) :
  forall line,
    split_from (a ++ b) line =
    (fst (split_from a line) ++ fst (split_from b (snd (split_from a line))),
     snd (split_from b (snd (split_from a line)))).
Proof.
  induction a as [|c a IH]; intros line; simpl.
  - now destruct (split_from b line).
  - destruct (Ascii.eqb c "010").
    + rewrite IH. destruct (split_from a ""); reflexivity.
    + apply IH.
Qed.

Lemma split_from_one_line (p : string) :
  one_line p = true ->
  forall line, split_from p line = ([], (line ++ p)%string).
Proof.
  induction p as [|c p IH]; simpl; intros H line.
  - now rewrite StringFacts.string_app_nil_r.
  - apply andb_true_iff in H as [Hc Hp].
    destruct (Ascii.eqb c "010"); [discriminate|].
    rewrite IH by assumption. now rewrite <- StringFacts.string_app_assoc.
Qed.

Lemma one_line_app (s t : string) :
  one_line (s ++ t) = one_line s && one_line t.
Proof.
  induction s as [|c s IH]; simpl; [reflexivity|].
  now rewrite IH, andb_assoc.
Qed.

Lemma split_from_last_one_line (data : string) :
  forall line, one_line line = true ->
               one_line (snd (split_from data line)) = true.
Proof.
  induction data as [|c data IH]; simpl; intros line Hline; [assumption|].
  destruct (Ascii.eqb c "010") eqn:E.
  - specialize (IH "" eq_refl). now destruct (split_from data "").
  - apply IH. rewrite one_line_app, Hline. simpl. now rewrite E.
Qed.

(** The text kept from the previous chunk holds no line feed, so the
    lines of the joined data are those of the new text read after it. *)
Lemma split_lines_partial (partial_line text : string) :
  one_line partial_line = true ->
  split_lines (partial_line ++ text) = split_from text partial_line.
Proof.
  intros H. unfold split_lines. rewrite split_from_app.
  rewrite split_from_one_line by assumption. simpl.
  now destruct (split_from text partial_line).
Qed.

Section sandbox.
Variable decode : string -> option string.
Variable loads : string -> option value.
Variable stream_callback : bool.

Local Abbreviation process_lines := (process_lines loads stream_callback).
Local Abbreviation receive := (receive decode loads stream_callback).
Local Abbreviation receive_v1 := (receive_v1 stream_callback).

Lemma process_lines_app (l1 l2 : list string) :
  process_lines (l1 ++ l2) =
  match process_lines l1 with
  | (called, Some ended) => (called, Some ended)
  | (called, None) =>
      let (called', ended) := process_lines l2 in (called ++ called', ended)
  end.
Proof.
  induction l1 as [|line l1 IH]; simpl.
  - now destruct (process_lines l2).
  - destruct (process_line loads stream_callback line) as [called [ended|]];
      [reflexivity|].
    rewrite IH. destruct (process_lines l1) as [called1 [ended1|]].
    + reflexivity.
    + destruct (process_lines l2) as [called2 ended2].
      now rewrite app_assoc.
Qed.

(** The call ends as the processing of the complete lines of everything
    received does, the lines being taken in order. *)
Lemma receive_lines (chunks texts : list string) :
  delivers decode chunks texts ->
  forall partial_line,
    one_line partial_line = true ->
    receive chunks partial_line =
    closing (process_lines
               (fst (split_from (String.concat "" texts) partial_line))).
Proof.
  induction 1 as [|chunk text chunks texts [Hne Hdec] _ IH];
    intros partial_line Hp.
  - reflexivity.
  - cbn [Runtime.receive].
    destruct (String.eqb_spec chunk "") as [|_]; [contradiction|].
    rewrite Hdec, split_lines_partial by assumption.
    rewrite StringFacts.concat_cons, split_from_app. cbn [fst].
    rewrite process_lines_app.
    pose proof (split_from_last_one_line text partial_line Hp) as Hlast.
    destruct (split_from text partial_line) as [lines last].
    cbn [fst snd] in *.
    destruct (process_lines lines) as [called [ended|]]; [reflexivity|].
    rewrite (IH last Hlast).
    destruct (process_lines (fst (split_from (String.concat "" texts) last)))
      as [called' [ended'|]]; reflexivity.
Qed.

(** Once a line has ended the call, nothing more is received. *)
Lemma receive_ended (chunks texts more : list string) :
  delivers decode chunks texts ->
  forall partial_line called ended,
    one_line partial_line = true ->
    process_lines (fst (split_from (String.concat "" texts) partial_line))
      = (called, Some ended) ->
    receive (chunks ++ more) partial_line = (called, ended).
Proof.
  induction 1 as [|chunk text chunks texts [Hne Hdec] _ IH];
    intros partial_line called ended Hp Hlines.
  - discriminate.
  - cbn [app Runtime.receive].
    destruct (String.eqb_spec chunk "") as [|_]; [contradiction|].
    rewrite Hdec, split_lines_partial by assumption.
    rewrite StringFacts.concat_cons, split_from_app in Hlines.
    cbn [fst] in Hlines.
    rewrite process_lines_app in Hlines.
    pose proof (split_from_last_one_line text partial_line Hp) as Hlast.
    destruct (split_from text partial_line) as [lines last].
    cbn [fst snd] in *.
    destruct (process_lines lines) as [called0 [ended0|]].
    + now inversion Hlines.
    + destruct (process_lines
                  (fst (split_from (String.concat "" texts) last)))
        as [called' ended'] eqn:Hrest.
      inversion Hlines; subst.
      now rewrite (IH last called' ended Hlast Hrest).
Qed.

(** A chunk that does not decode ends the call with
    [UnicodeDecodeError], unless a line completed before it has ended the
    call already. *)
Lemma receive_undecodable (chunks texts : list string) (bad : string)
    (more : list string) :
  delivers decode chunks texts ->
  bad <> "" -> decode bad = None ->
  forall partial_line,
    one_line partial_line = true ->
    receive (chunks ++ bad :: more) partial_line =
    match process_lines
            (fst (split_from (String.concat "" texts) partial_line)) with
    | (called, Some ended) => (called, ended)
    | (called, None) => (called, Throw UnicodeDecodeError)
    end.
Proof.
  intros Hdel Hbad Hnone.
  induction Hdel as [|chunk text chunks texts [Hne Hdec] _ IH];
    intros partial_line Hp.
  - cbn [app Runtime.receive].
    destruct (String.eqb_spec bad "") as [|_]; [contradiction|].
    now rewrite Hnone.
  - cbn [app Runtime.receive].
    destruct (String.eqb_spec chunk "") as [|_]; [contradiction|].
    rewrite Hdec, split_lines_partial by assumption.
    rewrite StringFacts.concat_cons, split_from_app. cbn [fst].
    rewrite process_lines_app.
    pose proof (split_from_last_one_line text partial_line Hp) as Hlast.
    destruct (split_from text partial_line) as [lines last].
    cbn [fst snd] in *.
    destruct (process_lines lines) as [called [ended|]]; [reflexivity|].
    rewrite (IH last Hlast).
    destruct (process_lines (fst (split_from (String.concat "" texts) last)))
      as [called' [ended'|]]; reflexivity.
Qed.

Lemma nonempty_of_length (chunk : string) :
  0 < String.length chunk -> String.eqb chunk "" = false.
Proof. destruct chunk; simpl; [lia | reflexivity]. Qed.

Lemma receive_v1_short (full : list string) (short : string)
    (rest : list string) :
  Forall (fun chunk => buffer_size <= String.length chunk) full ->
  short <> "" ->
  String.length short < buffer_size ->
  forall full_response,
    receive_v1 (full ++ short :: rest) full_response =
    ((if stream_callback then full ++ [short] else []),
     (full_response ++ String.concat "" full ++ short)%string).
Proof.
  intros Hfull Hne Hshort.
  induction Hfull as [|chunk full Hchunk _ IH]; intros full_response.
  - cbn [app Runtime.receive_v1].
    destruct (String.eqb_spec short "") as [|_]; [contradiction|].
    apply Nat.ltb_lt in Hshort. rewrite Hshort.
    destruct stream_callback; reflexivity.
  - cbn [app Runtime.receive_v1].
    rewrite nonempty_of_length
      by (unfold buffer_size in Hchunk; lia).
    apply Nat.ltb_ge in Hchunk. rewrite Hchunk, IH.
    rewrite StringFacts.concat_cons, !StringFacts.string_app_assoc.
    destruct stream_callback; reflexivity.
Qed.

End sandbox.

(** ** [run_command_in_container] *)

Lemma split_from_unlines (lines : list string) :
  Forall (fun line => one_line line = true) lines ->
  split_lines (unlines lines) = (lines, "").
Proof.
  unfold split_lines. induction 1 as [|line lines Hline _ IH];
    [reflexivity|].
  cbn [unlines]. rewrite split_from_app.
  rewrite split_from_one_line by assumption. cbn [fst snd app].
  cbn [split_from]. rewrite Ascii.eqb_refl.
  change (split_from (unlines lines) "") with (split_lines (unlines lines))
    in *.
  unfold split_lines in *. now rewrite IH.
Qed.

(** X11.  The function decodes each chunk by itself, and this is the only
    way in which the cuts between chunks tell. Deliveries in which every
    chunk decodes, and which decode to the same text, end alike and hand the
    same data to the callback. A chunk that does not decode, as when a cut
    falls inside a multi-byte character, ends the call with
    [UnicodeDecodeError] once the lines completed before it have been
    processed, unless one of them has ended the call. So the same bytes can
    be answered by a result or by an exception: the sample stream returns
    its result when cut after the accented letter and raises when cut inside
    it. *)
Theorem chunking_matters_only_through_decoding :
  forall (decode : string -> option string)
         (loads : string -> option value) (stream_callback : bool)
         (chunks texts chunks' texts' : list string),
    delivers decode chunks texts ->
    delivers decode chunks' texts' ->
    String.concat "" texts = String.concat "" texts' ->
    run_command_in_container decode loads stream_callback chunks =
      run_command_in_container decode loads stream_callback chunks'
    /\ (forall (bad : string) (more : list string),
           bad <> "" -> decode bad = None ->
           run_command_in_container decode loads stream_callback
                                    (chunks ++ bad :: more) =
           match process_lines loads stream_callback
                   (fst (split_lines (String.concat "" texts))) with
           | (called, Some ended) => (called, ended)
           | (called, None) => (called, Throw UnicodeDecodeError)
           end)
    /\ run_command_in_container decode_utf8 loads_sample true
         [(accented_line ++ String "010" "")%string;
          (final_line ++ String "010" "")%string]
       = ([VStr ("caf" ++ e_acute)],
          Return (VDict [("status", VInt 0); ("result", VStr "ok")]))
    /\ run_command_in_container decode_utf8 loads_sample true
         [accented_line_head;
          (accented_line_tail ++ String "010" final_line
                              ++ String "010" "")%string]
       = ([], Throw UnicodeDecodeError).
Proof.
  intros decode loads stream_callback chunks texts chunks' texts' H H' Heq.
  split; [|split; [|split; reflexivity]].
  - unfold run_command_in_container.
    rewrite (receive_lines _ _ _ _ _ H), (receive_lines _ _ _ _ _ H')
      by reflexivity.
    now rewrite Heq.
  - intros bad more Hbad Hnone. unfold run_command_in_container.
    now rewrite (receive_undecodable _ _ _ _ _ _ _ H Hbad Hnone).
Qed.

Lemma chunking_matters_only_through_decoding_witness :
  run_command_in_container decode_utf8 loads_sample true
    [(chunk_line ++ String "010" "")%string;
     (accented_line ++ String "010" "")%string]
  = run_command_in_container decode_utf8 loads_sample true
      [chunk_line; (String "010" accented_line)%string; String "010" ""]
  /\ run_command_in_container decode_utf8 loads_sample true
       ([(chunk_line ++ String "010" "")%string;
         (accented_line ++ String "010" "")%string]
          ++ accented_line_head
          :: [(accented_line_tail ++ String "010" "")%string])
     = ([VStr "building"; VStr ("caf" ++ e_acute)],
        Throw UnicodeDecodeError).
Proof.
  destruct (chunking_matters_only_through_decoding
              decode_utf8 loads_sample true
              [(chunk_line ++ String "010" "")%string;
               (accented_line ++ String "010" "")%string]
              [(chunk_line ++ String "010" "")%string;
               (accented_line ++ String "010" "")%string]
              [chunk_line; (String "010" accented_line)%string;
               String "010" ""]
              [chunk_line; (String "010" accented_line)%string;
               String "010" ""])
    as (Hsame & Hbad & _).
  - repeat constructor; discriminate.
  - repeat constructor; discriminate.
  - reflexivity.
  - split; [exact Hsame|].
    apply (Hbad accented_line_head
                [(accented_line_tail ++ String "010" "")%string]).
    + discriminate.
    + reflexivity.
Defined.

(** X12.  Text that no line feed follows is never parsed. If nothing
    received holds a line feed, the call reports a closed connection,
    whatever was sent and whatever the parser would make of it, and the
    callback is not called. *)
Theorem unterminated_response_is_lost :
  forall (decode : string -> option string)
         (loads : string -> option value) (stream_callback : bool)
         (chunks texts : list string),
    delivers decode chunks texts ->
    one_line (String.concat "" texts) = true ->
    run_command_in_container decode loads stream_callback chunks =
    ([], Return (failure "Connection closed without final response")).
Proof.
  intros decode loads stream_callback chunks texts H Hline.
  unfold run_command_in_container.
  rewrite (receive_lines _ _ _ _ _ H) by reflexivity.
  now rewrite split_from_one_line.
Qed.

Lemma unterminated_response_is_lost_witness :
  run_command_in_container decode_ascii loads_sample true [final_line] =
  ([], Return (failure "Connection closed without final response")).
Proof.
  apply (unterminated_response_is_lost decode_ascii loads_sample true
           [final_line] [final_line]).
  - repeat constructor. discriminate.
  - reflexivity.
Defined.

(** X13.  The first line that ends the call, a [final] message or a message
    that makes the loop raise, ends the reception too: whatever the
    connection would deliver after the chunk that completes that line is not
    received, and no later message reaches the callback. *)
Theorem nothing_is_received_after_the_end :
  forall (decode : string -> option string)
         (loads : string -> option value) (stream_callback : bool)
         (chunks texts more : list string)
         (called : list value) (ended : outcome value),
    delivers decode chunks texts ->
    process_lines loads stream_callback
                  (fst (split_lines (String.concat "" texts)))
      = (called, Some ended) ->
    run_command_in_container decode loads stream_callback (chunks ++ more)
      = (called, ended).
Proof.
  intros decode loads stream_callback chunks texts more called ended H Hl.
  unfold run_command_in_container.
  now apply (receive_ended decode loads stream_callback chunks texts).
Qed.

Lemma nothing_is_received_after_the_end_witness :
  run_command_in_container decode_ascii loads_sample true
    ([(final_line ++ String "010" "")%string]
       ++ [(chunk_line ++ String "010" "")%string])
  = ([], Return (VDict [("status", VInt 0); ("result", VStr "ok")])).
Proof.
  apply (nothing_is_received_after_the_end decode_ascii loads_sample true
           [(final_line ++ String "010" "")%string]
           [(final_line ++ String "010" "")%string]).
  - repeat constructor. discriminate.
  - reflexivity.
Defined.

Section protocol.
Variable loads : string -> option value.

Lemma process_chunk_lines (lines : list string) (datas : list value) :
  Forall2 (fun line data =>
             line <> ""
             /\ exists others, loads line = Some (chunk_message data others))
          lines datas ->
  forall rest,
    process_lines loads true (lines ++ rest) =
    let (called, ended) := process_lines loads true rest in
    (datas ++ called, ended).
Proof.
  induction 1 as [|line data lines datas [Hne [others Hloads]] _ IH];
    intros rest.
  - simpl. now destruct (process_lines loads true rest).
  - cbn [app Runtime.process_lines]. unfold process_line.
    destruct (String.eqb_spec line "") as [|_]; [contradiction|].
    rewrite Hloads. unfold chunk_message. simpl getitem_str. cbn iota.
    simpl String.eqb. cbn iota. rewrite IH.
    now destruct (process_lines loads true rest).
Qed.

End protocol.

Lemma Forall2_firstn {A B} (R : A -> B -> Prop) (n : nat) (l : list A)
    (l' : list B) :
  Forall2 R l l' -> Forall2 R (firstn n l) (firstn n l').
Proof.
  intros H. revert n. induction H; intros [|n]; simpl; constructor; auto.
Qed.

Lemma Forall_first {A} (P : A -> Prop) (n : nat) (l : list A) :
  Forall P l -> Forall P (firstn n l).
Proof.
  intros H. revert n. induction H; intros [|n]; simpl; constructor; auto.
Qed.

Lemma lines_of_unfinished (lines : list string) (partial_line : string) :
  Forall (fun line => one_line line = true) lines ->
  one_line partial_line = true ->
  fst (split_lines (unlines lines ++ partial_line)) = lines.
Proof.
  intros Hlines Hp. unfold split_lines. rewrite split_from_app.
  change (split_from (unlines lines) "") with (split_lines (unlines lines)).
  rewrite split_from_unlines by assumption. cbn [fst snd].
  rewrite split_from_one_line by assumption. apply app_nil_r.
Qed.



(** ** [run_command_in_container_v1] *)

(** X15.  The first version stops at the first chunk shorter than the
    buffer: the response it parses is what arrived up to and including that
    chunk, and nothing the connection delivers afterwards is read. *)
Theorem short_chunk_ends_the_response :
  forall (decode : string -> option string)
         (loads : string -> option value) (stream_callback : bool)
         (full : list string) (short : string) (rest : list string),
    Forall (fun chunk => buffer_size <= String.length chunk) full ->
    short <> "" ->
    String.length short < buffer_size ->
    run_command_in_container_v1 decode loads stream_callback
                                (full ++ short :: rest) =
    ((if stream_callback then full ++ [short] else []),
     parse_response decode loads (String.concat "" full ++ short)).
Proof.
  intros decode loads stream_callback full short rest Hfull Hne Hshort.
  unfold run_command_in_container_v1.
  now rewrite (receive_v1_short stream_callback full short rest).
Qed.

Lemma short_chunk_ends_the_response_witness :
  run_command_in_container_v1 decode_ascii loads_sample true
    ([] ++ "{" :: [final_line]) =
  (([] ++ ["{"]),
   parse_response decode_ascii loads_sample (String.concat "" [] ++ "{")).
Proof.
  apply (short_chunk_ends_the_response decode_ascii loads_sample true
           [] "{" [final_line]).
  - constructor.
  - discriminate.
  - apply Nat.ltb_lt. reflexivity.
Defined.

End SandboxFacts.
